(** * Multi-head attention engine of torchscale-flash

    A shallow embedding of [MultiheadAttention] (the live "V2" class of
    [torchscale/component/multihead_attention.py], lines 221-410) and the
    properties of its natural-language specification.

    Layout of the development:
    - exceptions and the error monad the Python control flow runs in;
    - tensors as a shape and a row-major data list, with the torch
      operations the source calls ([view], [reshape], [transpose], [bmm],
      [cat], [stack], [expand], [masked_fill], ...), each with the shape
      check torch performs;
    - the scalar interface and the library kernels the source only calls
      (softmax, casts, top-k, the power computing the scaling);
    - the Python numbers the source computes with: integers, and binary64
      floats with the rounding of their product;
    - the object [init] ([__init__]) returns, the engine [forward] runs on,
      [apply_pruning] and [forward], the latter cut into the consecutive
      line ranges of the source;
    - the contracts of the collaborators the source only calls (projection
      adapters, position encoder, [torch.topk]);
    - a small integer-valued instance on which the model runs;
    - the properties, first for every engine and call, then on concrete
      calls of the instance. *)

From stdpp Require Import base option list sorting strings gmap.
From Stdlib Require Import ZArith Lia.

Set Default Proof Using "Type".

(** ** Exceptions and results *)

(** The Python exceptions a call can end in.  [RuntimeError] carries the
    name of the torch operation that refused its arguments. *)
Inductive exn : Type :=
  | AssertionError
  | ValueError
  | IndexError
  | ZeroDivisionError
  | OverflowError
  | KeyError (key : string)
  | AttributeError (attr : string)
  | UnboundLocalError (name : string)
  | RuntimeError (op : string).

Inductive result (A : Type) : Type :=
  | Ok (a : A)
  | Err (e : exn).
Arguments Ok {A} a.
Arguments Err {A} e.

#[global] Instance result_ret : MRet result := fun A a => Ok a.
#[global] Instance result_bind : MBind result := fun A B f m =>
  match m with
  | Ok a => f a
  | Err e => Err e
  end.

Definition is_ok {A} (r : result A) : bool :=
  match r with Ok _ => true | Err _ => false end.

Definition assert (b : bool) : result unit :=
  if b then Ok tt else Err AssertionError.

(** Reading a local variable that may not have been assigned yet. *)
Definition local_var {A} (name : string) (v : option A) : result A :=
  match v with
  | Some a => Ok a
  | None => Err (UnboundLocalError name)
  end.

(** ** Tensors *)

(** A tensor is its [torch.Size] and its elements in row-major order.  The
    shape checks below read the shape only, as torch does. *)
Record tensor (A : Type) : Type := Tensor { shape : list nat; data : list A }.
Arguments Tensor {A} shape data.
Arguments shape {A} t.
Arguments data {A} t.

Definition numel (s : list nat) : nat := foldr Nat.mul 1 s.

Definition wf {A} (t : tensor A) : Prop := length (data t) = numel (shape t).

(** Row-major index arithmetic. *)
Fixpoint unravel (s : list nat) (i : nat) : list nat :=
  match s with
  | [] => []
  | _ :: s' => i / numel s' :: unravel s' (i mod numel s')
  end.

Fixpoint ravel (s idx : list nat) : nat :=
  match s, idx with
  | _ :: s', i :: idx' => i * numel s' + ravel s' idx'
  | _, _ => 0
  end.

(** [gather src out f]: the tensor of shape [out] whose element at index
    [idx] is the element of [src] at index [f idx]. *)
Definition gather {A} (src : tensor A) (out : list nat)
    (f : list nat → list nat) : tensor A :=
  Tensor out
    (omap (fun i => data src !! ravel (shape src) (f (unravel out i)))
          (seq 0 (numel out))).

Definition tmap {A B} (f : A → B) (t : tensor A) : tensor B :=
  Tensor (shape t) (f <$> data t).

(** [l] cut into [count] consecutive pieces of [n] elements. *)
Fixpoint chunks {A} (count n : nat) (l : list A) : list (list A) :=
  match count with
  | 0 => []
  | S c => take n l :: chunks c n (drop n l)
  end.

(** The vectors along the last axis. *)
Definition rows {A} (t : tensor A) : list (list A) :=
  match last (shape t) with
  | Some n => chunks (numel (removelast (shape t))) n (data t)
  | None => [data t]
  end.

(** [x.size()] unpacked into three names. *)
Definition size3 {A} (t : tensor A) : result (nat * nat * nat) :=
  match shape t with
  | [a; b; c] => Ok (a, b, c)
  | _ => Err ValueError
  end.

(** [x.size(1)]. *)
Definition size1 {A} (t : tensor A) : result nat :=
  match shape t !! 1 with
  | Some n => Ok n
  | None => Err IndexError
  end.

(** [x.view(sizes)] and [x.reshape(sizes)] with every size given: the element
    counts must agree.  (Strides are not modelled: every tensor the source
    views is either contiguous or viewed at its own shape.) *)
Definition view {A} (t : tensor A) (s : list nat) : result (tensor A) :=
  if decide (numel s = numel (shape t)) then Ok (Tensor s (data t))
  else Err (RuntimeError "view").

Definition reshape {A} (t : tensor A) (s : list nat) : result (tensor A) :=
  if decide (numel s = numel (shape t)) then Ok (Tensor s (data t))
  else Err (RuntimeError "reshape").

(** [x.view(pre.., -1, post..)]: the size at [-1] is inferred; torch refuses
    when the given sizes multiply to zero or do not divide the count. *)
Definition view_infer {A} (t : tensor A) (pre post : list nat)
    : result (tensor A) :=
  let known := numel pre * numel post in
  let total := numel (shape t) in
  if decide (known = 0) then Err (RuntimeError "view")
  else if decide (total mod known = 0)
       then Ok (Tensor (pre ++ total / known :: post) (data t))
       else Err (RuntimeError "view").

(** The list with positions [i] and [j] exchanged. *)
Definition swap_at {A} (i j : nat) (l : list A) : list A :=
  match l !! i, l !! j with
  | Some x, Some y => <[i := y]> (<[j := x]> l)
  | _, _ => l
  end.

(** [x.transpose(i, j)]. *)
Definition transpose {A} (i j : nat) (t : tensor A) : result (tensor A) :=
  if decide (i < length (shape t) ∧ j < length (shape t))
  then Ok (gather t (swap_at i j (shape t)) (swap_at i j))
  else Err IndexError.

(** [x.unsqueeze(d)]. *)
Definition unsqueeze {A} (d : nat) (t : tensor A) : result (tensor A) :=
  if decide (d ≤ length (shape t))
  then Ok (Tensor (take d (shape t) ++ 1 :: drop d (shape t)) (data t))
  else Err IndexError.

(** *** Broadcasting *)

(** Broadcasting of two shapes, read from the last axis backwards. *)
Fixpoint broadcast_rev (r1 r2 : list nat) : option (list nat) :=
  match r1, r2 with
  | [], r | r, [] => Some r
  | a :: r1', b :: r2' =>
      rest ← broadcast_rev r1' r2';
      if decide (a = b) then Some (a :: rest)
      else if decide (a = 1) then Some (b :: rest)
      else if decide (b = 1) then Some (a :: rest)
      else None
  end.

Definition broadcast_shapes (s1 s2 : list nat) : option (list nat) :=
  reverse <$> broadcast_rev (reverse s1) (reverse s2).

(** The index of the source element a broadcast reads at output index [idx]. *)
Definition broadcast_index (s idx : list nat) : list nat :=
  zip_with (fun d i => if decide (d = 1) then 0 else i) s
           (drop (length idx - length s) idx).

Definition broadcast_to {A} (op : string) (t : tensor A) (out : list nat)
    : result (tensor A) :=
  if decide (broadcast_shapes (shape t) out = Some out)
  then Ok (gather t out (broadcast_index (shape t)))
  else Err (RuntimeError op).

(** One size of [x.expand(sizes)]: [want] is the requested size ([None] for
    [-1]), [have] the present one ([None] for a new leading axis). *)
Definition expand_size (want have : option nat) : option nat :=
  match want, have with
  | Some k, None => Some k
  | None, None => None
  | None, Some d => Some d
  | Some k, Some d => if decide (d = k ∨ d = 1) then Some k else None
  end.

(** [x.expand(sizes)], with [None] standing for [-1]. *)
Definition expand {A} (t : tensor A) (sizes : list (option nat))
    : result (tensor A) :=
  let extra := length sizes - length (shape t) in
  if decide (length sizes < length (shape t)) then Err (RuntimeError "expand")
  else
    match mapM (fun p => expand_size p.1 p.2)
               (zip sizes (replicate extra None ++ (Some <$> shape t))) with
    | Some out => broadcast_to "expand" t out
    | None => Err (RuntimeError "expand")
    end.

(** [x.masked_fill(mask, value)]; the out-of-place form broadcasts both. *)
Definition masked_fill {A} (t : tensor A) (mask : tensor bool) (value : A)
    : result (tensor A) :=
  match broadcast_shapes (shape t) (shape mask) with
  | Some out =>
      t' ← broadcast_to "masked_fill" t out;
      m' ← broadcast_to "masked_fill" mask out;
      Ok (Tensor out (zip_with (fun x (b : bool) => if b then value else x)
                               (data t') (data m')))
  | None => Err (RuntimeError "masked_fill")
  end.

(** *** Joining tensors *)

(** [torch.cat([a, b], dim=1)]. *)
Definition cat1 {A} (a b : tensor A) : result (tensor A) :=
  match shape a, shape b with
  | n1 :: l1 :: r1, n2 :: l2 :: r2 =>
      if decide (n1 = n2 ∧ r1 = r2)
      then Ok (Tensor (n1 :: l1 + l2 :: r1)
                 (concat (zip_with app (chunks n1 (l1 * numel r1) (data a))
                                       (chunks n1 (l2 * numel r1) (data b)))))
      else Err (RuntimeError "cat")
  | _ :: _ :: _, _ => Err (RuntimeError "cat")
  | _, _ => Err IndexError
  end.

(** [torch.stack([q, k, v], dim=2)]. *)
Definition stack2 {A} (q k v : tensor A) : result (tensor A) :=
  let s := shape q in
  if decide (shape k = s ∧ shape v = s) then
    if decide (2 ≤ length s) then
      let outer := numel (take 2 s) in
      let inner := numel (drop 2 s) in
      Ok (Tensor (take 2 s ++ 3 :: drop 2 s)
            (concat (zip_with app (chunks outer inner (data q))
                       (zip_with app (chunks outer inner (data k))
                                     (chunks outer inner (data v))))))
    else Err IndexError
  else Err (RuntimeError "stack").

(** ** Scalars and library kernels *)

(** The arithmetic the source performs on tensor elements itself. *)
Class Scalar (F : Type) : Type := {
  fzero : F;
  fone : F;
  fneg_inf : F;             (* float("-inf") *)
  fadd : F → F → F;
  fmul : F → F → F;
  fleb : F → F → bool;      (* the order torch.topk selects by *)
}.

(** The torch routines the source calls and this development does not look
    into: each is a parameter of the model. *)
Class Torch (F : Type) : Type := {
  (* F.softmax(x, dim=-1, dtype=torch.float32).type_as(x), on one vector *)
  softmax_row : list F → list F;
  (* x.to(torch.float16) and x.to(torch.float32), on one element *)
  to_float16 : F → F;
  to_float32 : F → F;
  (* the indices torch.topk(row, k, sorted=False) returns for one vector *)
  topk_row : list F → nat → list nat;
  (* head_dim ** -0.5 for a positive head_dim *)
  pow_neg_half : nat → F;
}.

Section Arith.
Context {F : Type} `{!Scalar F, !Torch F}.

Definition at_flat (t : tensor F) (i : nat) : F := default fzero (data t !! i).

(** [a + b] *)
Definition tadd (a b : tensor F) : result (tensor F) :=
  match broadcast_shapes (shape a) (shape b) with
  | Some out =>
      a' ← broadcast_to "add" a out;
      b' ← broadcast_to "add" b out;
      Ok (Tensor out (zip_with fadd (data a') (data b')))
  | None => Err (RuntimeError "add")
  end.

(** [a += b]: the result keeps the shape of [a]. *)
Definition tadd_inplace (a b : tensor F) : result (tensor F) :=
  b' ← broadcast_to "add_" b (shape a);
  Ok (Tensor (shape a) (zip_with fadd (data a) (data b'))).

(** [a * b] *)
Definition tmul (a b : tensor F) : result (tensor F) :=
  match broadcast_shapes (shape a) (shape b) with
  | Some out =>
      a' ← broadcast_to "mul" a out;
      b' ← broadcast_to "mul" b out;
      Ok (Tensor out (zip_with fmul (data a') (data b')))
  | None => Err (RuntimeError "mul")
  end.

(** [a * c] for a Python float [c]. *)
Definition scale (a : tensor F) (c : F) : tensor F := tmap (fun x => fmul x c) a.

(** [torch.bmm(a, b)]: both three-dimensional, same batch, inner sizes equal. *)
Definition bmm (a b : tensor F) : result (tensor F) :=
  match shape a, shape b with
  | [n; t; d], [n'; d'; s] =>
      if decide (n = n' ∧ d = d')
      then Ok (Tensor [n; t; s]
                 (i ← seq 0 n; r ← seq 0 t; c ← seq 0 s;
                  [foldr fadd fzero
                     ((fun j => fmul (at_flat a (i * t * d + r * d + j))
                                     (at_flat b (i * d * s + j * s + c)))
                        <$> seq 0 d)]))
      else Err (RuntimeError "bmm")
  | _, _ => Err (RuntimeError "bmm")
  end.

(** Softmax along the last axis. *)
Definition softmax (t : tensor F) : tensor F :=
  Tensor (shape t) (concat (softmax_row <$> rows t)).

End Arith.

(** ** Python numbers

    [top_k] of [apply_pruning] is a Python float, and line 269 multiplies a
    size by it and truncates; [embed_dim] and [num_heads] of [__init__] are
    Python integers, and line 239 raises one to a float power.  Both go
    through binary64 arithmetic, which is modelled here on the integers. *)

(** A Python float.  A finite one is its sign, an integer significand and a
    binary exponent, standing for [(-1)^negative * m * 2^e]; every binary64
    number has such a form with [m < 2^53] and [-1074 <= e <= 971]. *)
Inductive pyfloat : Type :=
  | FNan
  | FInf (negative : bool)
  | FFinite (negative : bool) (m : N) (e : Z).

Definition is_double (x : pyfloat) : Prop :=
  match x with
  | FFinite _ m e => (m < 2 ^ 53)%N ∧ (-1074 ≤ e ≤ 971)%Z
  | _ => True
  end.

(** 0.5, the default of [top_k], and 1.0. *)
Definition one_half : pyfloat := FFinite false 1 (-1).
Definition one : pyfloat := FFinite false 1 0.

(** A float in (0, 1], and a float equal to 1.0. *)
Definition unit_fraction (x : pyfloat) : Prop :=
  match x with
  | FFinite false m e => (0 < m)%N ∧ (e ≤ 0)%Z ∧ (Z.of_N m ≤ 2 ^ (- e))%Z
  | _ => False
  end.

Definition is_one (x : pyfloat) : Prop :=
  match x with
  | FFinite false m e => (e ≤ 0)%Z ∧ Z.of_N m = (2 ^ (- e))%Z
  | _ => False
  end.

(** [M / 2^s] rounded to the nearest integer, ties to the even one. *)
Definition rne (M s : Z) : Z :=
  let q := (M / 2 ^ s)%Z in
  let r := (M mod 2 ^ s)%Z in
  match (2 * r ?= 2 ^ s)%Z with
  | Lt => q
  | Gt => (q + 1)%Z
  | Eq => if Z.even q then q else (q + 1)%Z
  end.

(** The binary64 number nearest to [M * 2^E], for [M >= 0], as significand
    and exponent: at most 53 significant bits, no bit below [2^-1074].  The
    exponent is not bounded above here; [overflows] tells when the result
    is beyond the largest finite float. *)
Definition binary64 (M E : Z) : Z * Z :=
  let s := (0 `max` ((Z.log2 M - 52) `max` (-1074 - E)))%Z in
  (rne M s, (E + s)%Z).

Definition overflows (q x : Z) : bool :=
  bool_decide (0 ≤ x)%Z && bool_decide (2 ^ 1024 ≤ q * 2 ^ x)%Z.

(** [int(q * 2^x)] for [q >= 0]. *)
Definition truncated (q x : Z) : Z :=
  if decide (0 ≤ x)%Z then (q * 2 ^ x)%Z else (q / 2 ^ (- x))%Z.

(** The sizes of a tensor are 64-bit integers: a size is read up to that
    bound. *)
Definition size_max : Z := (2 ^ 63 - 1)%Z.

(** [int(n * x)] for an integer [n >= 0] and a float [x]: [n] is converted
    to a float, the product is rounded to a float, and [int] truncates it;
    [int] raises [ValueError] on a NaN and [OverflowError] on an infinity. *)
Definition int_times_Z (n : Z) (x : pyfloat) : result Z :=
  let '(a, ea) := binary64 (n `min` size_max)%Z 0 in
  match x with
  | FNan => Err ValueError
  | FInf _ => if decide (a = 0%Z) then Err ValueError else Err OverflowError
  | FFinite negative m e =>
      let '(q, x) := binary64 (a * Z.of_N m) (ea + e) in
      if overflows q x then Err OverflowError
      else Ok (if negative then (- truncated q x)%Z else truncated q x)
  end.

(** Line 269, [int(tensor.shape[-1] * top_k)]. *)
Definition int_times (n : nat) (x : pyfloat) : result Z :=
  int_times_Z (Z.of_nat n) x.

(** Whether [float(h)] raises for an integer [h]: the nearest float is
    beyond the largest finite one. *)
Definition too_large_for_float (h : Z) : bool :=
  let '(q, x) := binary64 (Z.abs h) 0 in overflows q x.

(** ** The engine *)

Section Engine.
Context {F : Type} `{!Scalar F, !Torch F}.

(** The collaborators of the engine, by their call interface. *)
Definition adapter : Type := tensor F → result (tensor F).
Definition position_encoder : Type := tensor F → Z → bool → result (tensor F).
Definition fused_kernel : Type :=
  tensor F → option (tensor bool) → result (tensor F * tensor F).

(** The object [forward] is modelled on: the attributes [__init__] sets
    (lines 235-266), with sizes that are natural numbers and a scaling that
    is a float.  [serve] below gives it for the objects [__init__] returns
    with such attributes. *)
Record engine : Type := Engine {
  embed_dim : nat;
  num_heads : nat;
  head_dim : nat;
  scaling : F;
  self_attention : bool;
  encoder_decoder_attention : bool;
  k_proj : adapter;
  v_proj : adapter;
  q_proj : adapter;
  out_proj : adapter;
  inner_attn_ln : option adapter;
  dropout_module : tensor F → tensor F;
  xpos : option position_encoder;
  casual : bool;
  flash_attention : bool;
  flash_mha : option fused_kernel;
}.

(** [head_dim ** -0.5] as Python computes it: a float for a positive base, a
    complex number for a negative one. *)
Inductive power : Type :=
  | RealPower (x : F)
  | ComplexPower.

(** The object [__init__] returns, attribute by attribute; its sizes are
    Python integers. *)
Record object : Type := Object {
  self_embed_dim : Z;
  self_num_heads : Z;
  self_head_dim : Z;
  self_scaling : power;
  self_self_attention : bool;
  self_encoder_decoder_attention : bool;
  self_k_proj : adapter;
  self_v_proj : adapter;
  self_q_proj : adapter;
  self_out_proj : adapter;
  self_inner_attn_ln : option adapter;
  self_dropout_module : tensor F → tensor F;
  self_xpos : option position_encoder;
  self_casual : bool;
  self_flash_attention : bool;
  self_flash_mha : option fused_kernel;
}.

(** The object as an engine, when its sizes are natural numbers, heads and
    head width positive, and its scaling a float. *)
Definition serve (o : object) : option engine :=
  match self_scaling o with
  | RealPower s =>
      if decide (0 ≤ self_embed_dim o ∧ 0 < self_num_heads o
                 ∧ 0 < self_head_dim o)%Z
      then Some {| embed_dim := Z.to_nat (self_embed_dim o);
                   num_heads := Z.to_nat (self_num_heads o);
                   head_dim := Z.to_nat (self_head_dim o);
                   scaling := s;
                   self_attention := self_self_attention o;
                   encoder_decoder_attention :=
                     self_encoder_decoder_attention o;
                   k_proj := self_k_proj o;
                   v_proj := self_v_proj o;
                   q_proj := self_q_proj o;
                   out_proj := self_out_proj o;
                   inner_attn_ln := self_inner_attn_ln o;
                   dropout_module := self_dropout_module o;
                   xpos := self_xpos o;
                   casual := self_casual o;
                   flash_attention := self_flash_attention o;
                   flash_mha := self_flash_mha o |}
      else None
  | ComplexPower => None
  end.

(** What the constructor calls and the reads of [args] in [__init__] give,
    each of which returns or raises: the wrapped linear layers (lines
    245-250), the wrapped layer norm (line 252), [nn.Dropout] (line 256),
    [args.xpos_rel_pos] (line 259), [XPOS] (line 258), [FlashMHA] (line 265)
    and [args.flash_config] (line 266). *)
Record parts : Type := Parts {
  new_k_proj : result adapter;
  new_v_proj : result adapter;
  new_q_proj : result adapter;
  new_out_proj : result adapter;
  new_layer_norm : result adapter;
  new_dropout : result (tensor F → tensor F);
  xpos_rel_pos : result bool;
  new_xpos : result position_encoder;
  new_flash_mha : result fused_kernel;
  flash_config : result unit;
}.

(** Line 239, [head_dim ** -0.5] on a Python integer: the base is converted
    to a float first. *)
Definition power_neg_half (h : Z) : result power :=
  if too_large_for_float h then Err OverflowError
  else if decide (h = 0)%Z then Err ZeroDivisionError
  else if decide (0 < h)%Z then Ok (RealPower (pow_neg_half (Z.to_nat h)))
  else Ok ComplexPower.

(** [x if condition else None]: [x] is evaluated under the condition only. *)
Definition optional {A} (condition : bool) (x : result A) : result (option A) :=
  if condition then a ← x; Ok (Some a) else Ok None.

(** Lines 245-266: the submodules, in the order the source builds them. *)
Definition submodules (p : parts) (self_attention subln flash_attention : bool)
    : result (adapter * adapter * adapter * adapter * option adapter
              * (tensor F → tensor F) * option position_encoder
              * option fused_kernel) :=
  k_proj ← new_k_proj p;
  v_proj ← new_v_proj p;
  q_proj ← new_q_proj p;
  out_proj ← new_out_proj p;
  inner_attn_ln ← optional (subln && self_attention) (new_layer_norm p);
  dropout_module ← new_dropout p;
  rel_pos ← xpos_rel_pos p;
  xpos ← optional (rel_pos && self_attention) (new_xpos p);
  flash_mha ← optional flash_attention (new_flash_mha p);
  flash_config p;;
  Ok (k_proj, v_proj, q_proj, out_proj, inner_attn_ln, dropout_module, xpos,
      flash_mha).

(** [__init__], lines 222-266.  [embed_dim] and [num_heads] are Python
    integers, [//] is the floor division. *)
Definition init (p : parts) (embed_dim num_heads : Z)
    (self_attention encoder_decoder_attention subln casual flash_attention : bool)
    : result object :=
  (* 238: embed_dim // num_heads *)
  if decide (num_heads = 0)%Z then Err ZeroDivisionError else
  let head_dim := (embed_dim / num_heads)%Z in
  (* 239: head_dim ** -0.5 *)
  scaling ← power_neg_half head_dim;
  (* 243 *)
  assert (xorb self_attention encoder_decoder_attention);;
  '(k_proj, v_proj, q_proj, out_proj, inner_attn_ln, dropout_module, xpos,
    flash_mha) ← submodules p self_attention subln flash_attention;
  Ok {| self_embed_dim := embed_dim;
        self_num_heads := num_heads;
        self_head_dim := head_dim;
        self_scaling := scaling;
        self_self_attention := self_attention;
        self_encoder_decoder_attention := encoder_decoder_attention;
        self_k_proj := k_proj;
        self_v_proj := v_proj;
        self_q_proj := q_proj;
        self_out_proj := out_proj;
        self_inner_attn_ln := inner_attn_ln;
        self_dropout_module := dropout_module;
        self_xpos := xpos;
        self_casual := casual;
        self_flash_attention := flash_attention;
        self_flash_mha := flash_mha |}.

(** *** [apply_pruning], lines 268-273 *)

(** [torch.zeros_like(row).scatter_(-1, indices, 1.0)] on one vector of
    length [n].  (An index outside the vector, which [scatter_] would refuse,
    never comes out of [torch.topk].) *)
Definition scatter_row (n : nat) (indices : list nat) : list F :=
  foldr (fun i m => <[i := fone]> m) (replicate n fzero) indices.

Definition apply_pruning (t : tensor F) (top_k : pyfloat) : result (tensor F) :=
  match last (shape t) with
  | None => Err IndexError
  | Some n =>
      p ← int_times n top_k;
      let k := Z.to_nat (p `max` 1) in
      if decide (p `max` 1 ≤ Z.of_nat n)%Z then
        let indices := (fun row => topk_row row k) <$> rows t in
        let mask := Tensor (shape t) (concat (scatter_row n <$> indices)) in
        tmul t mask
      else Err (RuntimeError "topk")
  end.

(** *** [forward], lines 275-410, by consecutive line ranges *)

(** Lines 286-293.  The last assertion of the source is
    [assert bsz, src_len == value.shape[:2]]: it tests [bsz] alone, the
    comparison being its message. *)
Definition check_inputs (eng : engine) (query key : tensor F)
    (value : option (tensor F))
    : result (nat * nat * nat * nat * tensor F) :=
  '(bsz, tgt_len, embed_dim') ← size3 query;
  assert (bool_decide (embed_dim' = embed_dim eng));;
  '(key_bsz, src_len, _) ← size3 key;
  assert (bool_decide (key_bsz = bsz));;
  value ← match value with Some v => Ok v | None => Err AssertionError end;
  assert (bool_decide (bsz ≠ 0));;
  Ok (bsz, tgt_len, embed_dim', src_len, value).

(** Lines 295-304. *)
Definition project (eng : engine) (query key value : tensor F)
    (precomputed_kv : bool) : result (tensor F * tensor F * tensor F) :=
  (if negb precomputed_kv
   then k ← k_proj eng key; v ← v_proj eng value; Ok tt
   else Ok tt);;
  q ← q_proj eng query;
  k ← k_proj eng key;
  v ← v_proj eng value;
  Ok (scale q (scaling eng), k, v).

(** Lines 308-310. *)
Definition prune_qkv (q k v : tensor F)
    : result (tensor F * tensor F * tensor F) :=
  q ← apply_pruning q one_half;
  k ← apply_pruning k one_half;
  v ← apply_pruning v one_half;
  Ok (q, k, v).

(** Lines 314-330.  The fused branch leaves [q], [k], [v] four-dimensional
    and binds the kernel's results to names nothing reads afterwards. *)
Definition split_heads (eng : engine) (bsz tgt_len src_len : nat)
    (q k v : tensor F) (key_padding_mask : option (tensor bool))
    : result (tensor F * tensor F * tensor F) :=
  let H := num_heads eng in
  let D := head_dim eng in
  if flash_attention eng then
    q ← view q [bsz; tgt_len; H; D] ≫= transpose 1 2;
    k ← view k [bsz; src_len; H; D] ≫= transpose 1 2;
    v ← view v [bsz; src_len; H; D] ≫= transpose 1 2;
    qkv ← stack2 q k v;
    kernel ← match flash_mha eng with
              | Some f => Ok f
              | None => Err (AttributeError "flash_mha")
              end;
    '(attn_output, attn_output_weights) ← kernel qkv key_padding_mask;
    Ok (q, k, v)
  else
    q ← view q [bsz; tgt_len; H; D] ≫= transpose 1 2;
    k ← view k [bsz; src_len; H; D] ≫= transpose 1 2;
    v ← view v [bsz; src_len; H; D] ≫= transpose 1 2;
    q ← reshape q [bsz * H; tgt_len; D];
    k ← reshape k [bsz * H; tgt_len; D];
    v ← reshape v [bsz * H; tgt_len; D];
    Ok (q, k, v).

(** Lines 332-338.  [attn_weights] is the local variable as it stands when
    line 333 reads it. *)
Definition early_padding_mask (eng : engine) (bsz tgt_len src_len : nat)
    (attn_weights : option (tensor F)) (key_padding_mask : option (tensor bool))
    : result (option (tensor F)) :=
  match key_padding_mask with
  | None => Ok attn_weights
  | Some m =>
      w ← local_var "attn_weights" attn_weights;
      w ← view w [bsz; num_heads eng; tgt_len; src_len];
      m ← unsqueeze 1 m ≫= unsqueeze 2;
      w ← masked_fill w m fneg_inf;
      w ← view w [bsz * num_heads eng; tgt_len; src_len];
      Ok (Some w)
  end.

(** Lines 343-351: the stored key and value, if any, go in front. *)
Definition load_prev (eng : engine) (bsz : nat) (d : gmap string (tensor F))
    (k v : tensor F) : result (tensor F * tensor F) :=
  match d !! "prev_key" with
  | None => Ok (k, v)
  | Some pk =>
      prev_key ← view_infer pk [bsz * num_heads eng] [head_dim eng];
      pv ← match d !! "prev_value" with
            | Some pv => Ok pv
            | None => Err (KeyError "prev_value")
            end;
      prev_value ← view_infer pv [bsz * num_heads eng] [head_dim eng];
      k ← cat1 prev_key k;
      v ← cat1 prev_value v;
      Ok (k, v)
  end.

(** Lines 352-358: the two stores and the new source length.  The dictionary
    is the caller's: what was stored before an exception stays stored. *)
Definition store_kv (eng : engine) (bsz : nat) (d : gmap string (tensor F))
    (k v : tensor F) : result nat * gmap string (tensor F) :=
  match view_infer k [bsz; num_heads eng] [head_dim eng] with
  | Err e => (Err e, d)
  | Ok kview =>
      let d := <["prev_key" := kview]> d in
      match view_infer v [bsz; num_heads eng] [head_dim eng] with
      | Err e => (Err e, d)
      | Ok vview =>
          let d := <["prev_value" := vview]> d in
          (size1 k, d)
      end
  end.

(** Lines 342-358. *)
Definition merge_cache (eng : engine) (bsz src_len : nat) (k v : tensor F)
    (incremental_state : option (gmap string (tensor F)))
    : result (tensor F * tensor F * nat) * option (gmap string (tensor F)) :=
  match incremental_state with
  | None => (Ok (k, v, src_len), None)
  | Some d =>
      match load_prev eng bsz d k v with
      | Err e => (Err e, Some d)
      | Ok (k, v) =>
          match store_kv eng bsz d k v with
          | (Err e, d) => (Err e, Some d)
          | (Ok src_len, d) => (Ok (k, v, src_len), Some d)
          end
      end
  end.

(** Lines 360-366. *)
Definition apply_xpos (eng : engine) (incremental : bool) (src_len : nat)
    (q k : tensor F) : result (tensor F * tensor F) :=
  match xpos eng with
  | None => Ok (q, k)
  | Some encode =>
      let offset := if incremental then (Z.of_nat src_len - 1)%Z else 0%Z in
      k ← encode k 0%Z true;
      q ← encode q offset false;
      Ok (q, k)
  end.

(** Lines 368-378: the scores softmax is applied to. *)
Definition masked_scores (eng : engine) (bsz tgt_len src_len : nat)
    (q k : tensor F) (key_padding_mask : option (tensor bool))
    (attn_mask : option (tensor F)) : result (tensor F) :=
  attn_weights ← transpose 1 2 k ≫= bmm q;
  attn_weights ← match attn_mask with
                  | None => Ok attn_weights
                  | Some m =>
                      w ← view attn_weights [bsz; num_heads eng; tgt_len; src_len];
                      m ← unsqueeze 1 m;
                      m ← expand m [None; Some (num_heads eng); None; None];
                      tadd_inplace w m
                  end;
  match key_padding_mask with
  | None => Ok attn_weights
  | Some m =>
      m ← unsqueeze 1 m ≫= unsqueeze 2;
      masked_fill attn_weights m fneg_inf
  end.

(** Lines 368-398: scores, softmax, relative bias, the half-precision round
    trip around dropout, aggregation. *)
Definition attend (eng : engine) (bsz tgt_len src_len : nat)
    (q k v : tensor F) (key_padding_mask : option (tensor bool))
    (attn_mask rel_pos : option (tensor F)) : result (tensor F * tensor F) :=
  attn_weights ←
    masked_scores eng bsz tgt_len src_len q k key_padding_mask attn_mask;
  let attn_weights := softmax attn_weights in
  attn_weights ← match rel_pos with
                  | None => Ok attn_weights
                  | Some rp =>
                      rp ← view rp (shape attn_weights);
                      tadd attn_weights rp
                  end;
  let attn_weights := tmap to_float16 attn_weights in
  let attn_probs := dropout_module eng attn_weights in
  let attn_probs := tmap to_float32 attn_probs in
  attn ← bmm attn_probs v;
  Ok (attn, attn_weights).

(** Lines 399-410. *)
Definition reassemble (eng : engine) (bsz tgt_len embed_dim' src_len : nat)
    (attn attn_weights : tensor F) : result (tensor F * tensor F) :=
  attn ← transpose 0 1 attn;
  attn ← reshape attn [tgt_len; bsz; embed_dim'];
  attn ← transpose 0 1 attn;
  attn ← match inner_attn_ln eng with
          | Some ln => ln attn
          | None => Ok attn
          end;
  attn ← out_proj eng attn;
  attn_weights ← view attn_weights [bsz; num_heads eng; tgt_len; src_len];
  attn_weights ← transpose 1 0 attn_weights;
  Ok (attn, attn_weights).

(** Lines 286-338: everything before the cache is touched. *)
Definition before_cache (eng : engine) (query key : tensor F)
    (value : option (tensor F)) (key_padding_mask : option (tensor bool))
    (precomputed_kv : bool)
    : result (nat * nat * nat * nat * tensor F * tensor F * tensor F) :=
  let attn_weights : option (tensor F) := None in
  '(bsz, tgt_len, embed_dim', src_len, value) ← check_inputs eng query key value;
  '(q, k, v) ← project eng query key value precomputed_kv;
  '(q, k, v) ← prune_qkv q k v;
  '(q, k, v) ← split_heads eng bsz tgt_len src_len q k v key_padding_mask;
  _ ← early_padding_mask eng bsz tgt_len src_len attn_weights key_padding_mask;
  Ok (bsz, tgt_len, embed_dim', src_len, q, k, v).

(** Lines 360-410: everything after it. *)
Definition after_cache (eng : engine) (bsz tgt_len embed_dim' src_len : nat)
    (incremental : bool) (q k v : tensor F)
    (key_padding_mask : option (tensor bool))
    (attn_mask rel_pos : option (tensor F)) : result (tensor F * tensor F) :=
  '(q, k) ← apply_xpos eng incremental src_len q k;
  '(attn, attn_weights) ←
     attend eng bsz tgt_len src_len q k v key_padding_mask attn_mask rel_pos;
  reassemble eng bsz tgt_len embed_dim' src_len attn attn_weights.

(** [forward]: the pair returned, or the exception raised, together with the
    caller's [incremental_state] as the call leaves it. *)
Definition forward (eng : engine) (query key : tensor F)
    (value : option (tensor F))
    (incremental_state : option (gmap string (tensor F)))
    (key_padding_mask : option (tensor bool))
    (attn_mask rel_pos : option (tensor F)) (precomputed_kv : bool)
    : result (tensor F * tensor F) * option (gmap string (tensor F)) :=
  match before_cache eng query key value key_padding_mask precomputed_kv with
  | Err e => (Err e, incremental_state)
  | Ok (bsz, tgt_len, embed_dim', src_len, q, k, v) =>
      match merge_cache eng bsz src_len k v incremental_state with
      | (Err e, st) => (Err e, st)
      | (Ok (k, v, src_len), st) =>
          (after_cache eng bsz tgt_len embed_dim' src_len
             (bool_decide (is_Some incremental_state)) q k v
             key_padding_mask attn_mask rel_pos, st)
      end
  end.

End Engine.

Arguments adapter F : clear implicits.
Arguments position_encoder F : clear implicits.
Arguments fused_kernel F : clear implicits.
Arguments engine F : clear implicits.
Arguments power F : clear implicits.
Arguments object F : clear implicits.
Arguments parts F : clear implicits.

(** ** Contracts of the collaborators and of the result *)

Section Contracts.
Context {F : Type} `{!Scalar F, !Torch F}.

(** Modelled from the spec: the Projection Adapter ([MultiwayWrapper] around
    [nn.Linear]; [multiway_network.py] is not among the sources) "returns a
    linearly transformed tensor of the same leading dimensions and configured
    output width", under the precondition that the "input's last axis
    matches the adapter's expected input width".  Here input and output
    width are both [width]. *)
Definition projects (width : nat) (p : adapter F) : Prop :=
  ∀ t, last (shape t) = Some width → ∃ t', p t = Ok t' ∧ shape t' = shape t.

(** An adapter whose result, when it returns one, has the shape of its
    argument (the output projection and the post-attention normalization). *)
Definition keeps_shape (p : adapter F) : Prop :=
  ∀ t t', p t = Ok t' → shape t' = shape t.

(** Modelled from the spec: the Position Encoder Adapter ([XPOS];
    [xpos_relative_position.py] is not among the sources) "returns a
    rotated/rescaled tensor", that is one of the shape it was given. *)
Definition encoder_keeps_shape (enc : position_encoder F) : Prop :=
  ∀ t offset downscale t', enc t offset downscale = Ok t' → shape t' = shape t.

(** What [torch.topk(row, k, sorted=False)] promises of the indices it
    returns: [k] distinct positions of the vector, none of them holding less
    than a position left out. *)
Definition topk_ok (row : list F) (k : nat) (indices : list nat) : Prop :=
  NoDup indices ∧ length indices = k ∧
  (∀ i, i ∈ indices → i < length row) ∧
  (∀ i j x y, i ∈ indices → j ∉ indices →
     row !! i = Some x → row !! j = Some y → fleb y x = true).

(** An element that multiplication by 1.0 leaves alone and by 0.0 sends to
    0.0 (every finite float). *)
Definition regular (x : F) : Prop := fmul x fone = x ∧ fmul x fzero = fzero.

(** [row'] is [row] with the [k] positions [kept] retained and every other
    entry zero, no retained entry being less than a zeroed one. *)
Definition row_pruned (k : nat) (row row' : list F) : Prop :=
  ∃ kept : list nat,
    topk_ok row k kept ∧
    length row' = length row ∧
    (∀ j x, row !! j = Some x →
       row' !! j = Some (if decide (j ∈ kept) then x else fzero)).

End Contracts.

(** ** What a well-configured engine and a live cache look like *)

Section Configuration.
Context {F : Type} `{!Scalar F, !Torch F}.

(** [nn.Dropout] zeroes and rescales entry by entry: whatever it draws, its
    result has the shape of its argument. *)
Definition dropout_keeps_shape (eng : engine F) : Prop :=
  ∀ t, shape (dropout_module eng t) = shape t.

(** Modelled from the spec: the Position Encoder Adapter ([XPOS], not among
    the sources), "given a tensor of shape (heads-merged-into-batch,
    sequence, head-dim) and an offset, returns a rotated/rescaled tensor":
    it returns, and what it returns has the shape it was given. *)
Definition encodes (enc : position_encoder F) : Prop :=
  ∀ t offset downscale,
    ∃ t', enc t offset downscale = Ok t' ∧ shape t' = shape t.

(** An engine whose heads divide its width and whose collaborators honour
    their contracts. *)
Record sound (eng : engine F) : Prop := Sound {
  sound_heads : 0 < num_heads eng;
  sound_head_dim : 0 < head_dim eng;
  sound_width : embed_dim eng = num_heads eng * head_dim eng;
  sound_q_proj : projects (embed_dim eng) (q_proj eng);
  sound_k_proj : projects (embed_dim eng) (k_proj eng);
  sound_v_proj : projects (embed_dim eng) (v_proj eng);
  sound_out_proj : projects (embed_dim eng) (out_proj eng);
  sound_inner_attn_ln :
    ∀ ln, inner_attn_ln eng = Some ln → projects (embed_dim eng) ln;
  sound_xpos : ∀ enc, xpos eng = Some enc → encodes enc;
  sound_dropout : dropout_keeps_shape eng;
}.

(** The caller's [incremental_state] holds [P] positions for batch [bsz]:
    no dictionary or no [prev_key] yet and [P = 0], or a [prev_key] and a
    [prev_value] of [P] positions each, as lines 352-357 store them. *)
Definition stored_len (eng : engine F) (bsz : nat)
    (st : option (gmap string (tensor F))) (P : nat) : Prop :=
  match st with
  | None => P = 0
  | Some d =>
      match d !! "prev_key" with
      | None => P = 0
      | Some pk =>
          ∃ pv, d !! "prev_value" = Some pv ∧
            shape pk = [bsz; num_heads eng; P; head_dim eng] ∧
            shape pv = [bsz; num_heads eng; P; head_dim eng]
      end
  end.

(** Modelled from the spec: the "new key/value are concatenated onto stored
    key/value along the sequence axis".  [old] and [new] hold [n] blocks of
    [P] and of [L] rows of [D] entries; in [out], block by block, the rows of
    [old] come first and those of [new] follow. *)
Definition joined {A} (n P L D : nat) (old new out : list A) : Prop :=
  length out = n * ((P + L) * D) ∧
  ∀ i p c, i < n → p < P + L → c < D →
    out !! (i * ((P + L) * D) + p * D + c)
    = if decide (p < P) then old !! (i * (P * D) + p * D + c)
      else new !! (i * (L * D) + (p - P) * D + c).

(** Lines 323 and 328 (likewise 324/329, 325/330) on one tensor: batch and
    heads merged in front. *)
Definition to_heads (t : tensor F) (bsz len H D : nat) : result (tensor F) :=
  t ← view t [bsz; len; H; D] ≫= transpose 1 2;
  reshape t [bsz * H; len; D].

(** Line 399: the heads folded back into the embedding axis. *)
Definition from_heads (t : tensor F) (bsz len embed_dim' : nat)
    : result (tensor F) :=
  t ← transpose 0 1 t;
  t ← reshape t [len; bsz; embed_dim'];
  transpose 0 1 t.

(** [nn.Dropout] outside training, or with [dropout = 0.0]: the identity. *)
Definition eval_mode (eng : engine F) : Prop :=
  ∀ t, dropout_module eng t = t.

(** What floating-point arithmetic does with the number one: 1.0 survives
    the conversions to half precision and back, and the one-term sum
    [1.0 * x + 0.0] a matrix product takes over an inner axis of one entry
    is [x]. *)
Definition exact_at_one : Prop :=
  to_float16 (fone : F) = fone ∧ to_float32 (fone : F) = fone ∧
  (∀ x : F, fmul fone x = x) ∧ (∀ x : F, fadd x fzero = x).

(** A score that softmax, applied to it alone, maps to 1.0 (every finite
    score). *)
Definition alone_gives_one (x : F) : Prop := softmax_row [x] = [fone].

(** The scores of a call without cache and masks, as they stand after line
    368. *)
Definition scores_of (eng : engine F) (query key : tensor F)
    (value : option (tensor F)) (precomputed_kv : bool) : result (tensor F) :=
  '(bsz, tgt_len, _, src_len, q, k, _) ←
     before_cache eng query key value None precomputed_kv;
  '(q, k) ← apply_xpos eng false src_len q k;
  masked_scores eng bsz tgt_len src_len q k None None.

End Configuration.

(** ** An integer-valued instance

    The model runs on any scalar type.  The examples below run it on the
    integers extended by minus infinity: small integers are values a binary
    float holds exactly, so that sums and products in the examples are the
    ones the program computes.  The kernels the integers cannot express are
    replaced by stand-ins, named as such.  The examples that state values
    keep to calls with one source position, in which the softmax weight is
    exactly one and neither the scores nor the scaling reach the result; the
    others state shapes, exceptions and cache contents only. *)
Module Ex.

Inductive xz : Type :=
  | NegInf
  | Fin (z : Z).

Definition xz_add (a b : xz) : xz :=
  match a, b with
  | Fin x, Fin y => Fin (x + y)
  | _, _ => NegInf
  end.

Definition xz_mul (a b : xz) : xz :=
  match a, b with
  | Fin x, Fin y => Fin (x * y)
  | _, _ => NegInf
  end.

Definition xz_leb (a b : xz) : bool :=
  match a, b with
  | NegInf, _ => true
  | Fin _, NegInf => false
  | Fin x, Fin y => bool_decide (x ≤ y)%Z
  end.

#[global] Instance xz_scalar : Scalar xz := {|
  fzero := Fin 0;
  fone := Fin 1;
  fneg_inf := NegInf;
  fadd := xz_add;
  fmul := xz_mul;
  fleb := xz_leb;
|}.

(** Position of the first largest entry of a non-empty vector. *)
Fixpoint argmax (best : nat) (bestv : xz) (i : nat) (row : list xz) : nat :=
  match row with
  | [] => best
  | x :: row' =>
      if xz_leb x bestv then argmax best bestv (S i) row'
      else argmax i x (S i) row'
  end.

(** Stand-in for softmax: all the weight on the first largest entry.  Like
    softmax it returns a vector of the same length summing to one, and it is
    softmax on a vector of one (finite) entry. *)
Definition hardmax_row (row : list xz) : list xz :=
  match row with
  | [] => []
  | x :: row' =>
      let m := argmax 0 x 1 row' in
      (fun i => if decide (i = m) then Fin 1 else Fin 0) <$> seq 0 (length row)
  end.

(** [torch.topk] by sorting the positions by decreasing value and keeping
    the first [k]. *)
Definition by_value (row : list xz) (i j : nat) : Prop :=
  xz_leb (default NegInf (row !! j)) (default NegInf (row !! i)) = true.

#[global] Instance by_value_dec row i j : Decision (by_value row i j).
Proof. unfold by_value. apply _. Defined.

Definition sort_topk (row : list xz) (k : nat) : list nat :=
  take k (merge_sort (by_value row) (seq 0 (length row))).

#[global] Instance xz_torch : Torch xz := {|
  softmax_row := hardmax_row;
  to_float16 := id;
  to_float32 := id;
  topk_row := sort_topk;
  pow_neg_half := fun _ => Fin 1;
|}.

(** A linear layer [embed_dim -> embed_dim] with weight [c] times the
    identity and no bias. *)
Definition diagonal (embed_dim : nat) (c : Z) : adapter xz :=
  fun t =>
    if decide (last (shape t) = Some embed_dim)
    then Ok (scale t (Fin c))
    else Err (RuntimeError "linear").

(** Two kernels: one that hands its packed input back, twice, and one that
    refuses whatever it is given. *)
Definition echo_kernel : fused_kernel xz :=
  fun qkv _ => Ok (qkv, qkv).

Definition refusing_kernel : fused_kernel xz :=
  fun _ _ => Err (RuntimeError "flash_mha").

Definition plain_parts (embed_dim : nat) (c : Z) : parts xz := {|
  new_k_proj := Ok (diagonal embed_dim c);
  new_v_proj := Ok (diagonal embed_dim c);
  new_q_proj := Ok (diagonal embed_dim c);
  new_out_proj := Ok (diagonal embed_dim 1);
  new_layer_norm := Ok (fun t => Ok t);
  new_dropout := Ok (fun t => t);
  xpos_rel_pos := Ok false;
  new_xpos := Ok (fun t _ _ => Ok t);
  new_flash_mha := Ok echo_kernel;
  flash_config := Ok tt;
|}.

(** The same, for an [args] that lacks [flash_config]. *)
Definition parts_without_flash_config (embed_dim : nat) (c : Z) : parts xz := {|
  new_k_proj := Ok (diagonal embed_dim c);
  new_v_proj := Ok (diagonal embed_dim c);
  new_q_proj := Ok (diagonal embed_dim c);
  new_out_proj := Ok (diagonal embed_dim 1);
  new_layer_norm := Ok (fun t => Ok t);
  new_dropout := Ok (fun t => t);
  xpos_rel_pos := Ok false;
  new_xpos := Ok (fun t _ _ => Ok t);
  new_flash_mha := Ok echo_kernel;
  flash_config := Err (AttributeError "flash_config");
|}.

Definition vec (s : list nat) (l : list Z) : tensor xz := Tensor s (Fin <$> l).

(** The engine [init] gives on [plain_parts]: self-attention, no sub-layer
    norm; the reference path when [fused] is [None], the fused path with the
    given kernel otherwise. *)
Definition engine_of (embed_dim num_heads : nat) (c : Z)
    (fused : option (fused_kernel xz)) : engine xz := {|
  embed_dim := embed_dim;
  num_heads := num_heads;
  head_dim := embed_dim / num_heads;
  scaling := pow_neg_half (embed_dim / num_heads);
  self_attention := true;
  encoder_decoder_attention := false;
  k_proj := diagonal embed_dim c;
  v_proj := diagonal embed_dim c;
  q_proj := diagonal embed_dim c;
  out_proj := diagonal embed_dim 1;
  inner_attn_ln := None;
  dropout_module := fun t => t;
  xpos := None;
  casual := false;
  flash_attention := bool_decide (is_Some fused);
  flash_mha := fused;
|}.

(** The objects [__init__] returns on [plain_parts]: for width two and two
    heads, and for width four and minus one head. *)
Definition two_heads : object xz := {|
  self_embed_dim := 2;
  self_num_heads := 2;
  self_head_dim := 1;
  self_scaling := RealPower (pow_neg_half 1);
  self_self_attention := true;
  self_encoder_decoder_attention := false;
  self_k_proj := diagonal 2 1;
  self_v_proj := diagonal 2 1;
  self_q_proj := diagonal 2 1;
  self_out_proj := diagonal 2 1;
  self_inner_attn_ln := None;
  self_dropout_module := fun t => t;
  self_xpos := None;
  self_casual := false;
  self_flash_attention := false;
  self_flash_mha := None;
|}.

Definition minus_one_head : object xz := {|
  self_embed_dim := 4;
  self_num_heads := -1;
  self_head_dim := -4;
  self_scaling := ComplexPower;
  self_self_attention := true;
  self_encoder_decoder_attention := false;
  self_k_proj := diagonal 4 1;
  self_v_proj := diagonal 4 1;
  self_q_proj := diagonal 4 1;
  self_out_proj := diagonal 4 1;
  self_inner_attn_ln := None;
  self_dropout_module := fun t => t;
  self_xpos := None;
  self_casual := false;
  self_flash_attention := false;
  self_flash_mha := None;
|}.

(** The float Python writes for [2 / 3]. *)
Definition two_thirds : pyfloat := FFinite false 6004799503160661 (-53).

(** One sequence of one token of width two. *)
Definition token (a b : Z) : tensor xz := vec [1; 1; 2] [a; b].

(** One sequence of one token of width eight, for an engine of one head of
    width eight. *)
Definition wide : tensor xz := vec [1; 1; 8] [4; 1; 7; 2; 8; 3; 6; 5]%Z.

(** The cache after a first call on [token 3 5] with an empty cache, on
    [engine_of 2 2 1 None]: per head, the one key and the one value. *)
Definition cache_after_first : gmap string (tensor xz) :=
  <["prev_value" := vec [1; 2; 1; 1] [0; 5]%Z]>
    (<["prev_key" := vec [1; 2; 1; 1] [0; 5]%Z]> ∅).

(** The cache a first call on [wide] with an empty cache leaves behind on
    the fused path (the call itself raises afterwards): the pruned key and
    value, one position long. *)
Definition cache_of_wide : gmap string (tensor xz) :=
  <["prev_value" := vec [1; 1; 1; 8] [0; 0; 7; 0; 8; 0; 6; 5]%Z]>
    (<["prev_key" := vec [1; 1; 1; 8] [0; 0; 7; 0; 8; 0; 6; 5]%Z]> ∅).

End Ex.

(** * Properties *)

(** ** The error monad *)

Lemma bind_Ok {A B} (m : result A) (f : A → result B) (b : B) :
  m ≫= f = Ok b ↔ ∃ a, m = Ok a ∧ f a = Ok b.
Proof.
  destruct m as [a|e]; simpl; split.
  - intros Hf. exists a. done.
  - intros (a' & [= <-] & Hf). done.
  - discriminate.
  - intros (a' & Ha & _). discriminate.
Qed.

Lemma Ok_bind {A B} (a : A) (f : A → result B) : Ok a ≫= f = f a.
Proof. done. Qed.

Lemma assert_Ok (b : bool) (u : unit) : assert b = Ok u ↔ b = true.
Proof. destruct b, u; simpl; split; (done || discriminate). Qed.

(** Peels the successful steps off a hypothesis [m ≫= f = Ok b]. *)
Ltac ok_inv H :=
  repeat
    (let a := fresh "x" in
     let Ha := fresh "Hx" in
     apply bind_Ok in H as (a & Ha & H);
     try (apply assert_Ok in Ha; apply bool_decide_eq_true in Ha);
     repeat match type of H with
            | (let '(_, _) := ?p in _) = _ => destruct p
            end;
     simpl in H).

(** ** Python floats *)

Section FloatProperties.
Local Open Scope Z_scope.

Lemma rne_bounds M s : 0 ≤ s → M / 2 ^ s ≤ rne M s ≤ M / 2 ^ s + 1.
Proof.
  intros Hs. unfold rne.
  destruct (2 * (M mod 2 ^ s) ?= 2 ^ s); [destruct (Z.even _)|..]; lia.
Qed.

Lemma rne_exact M s : 0 ≤ s → M mod 2 ^ s = 0 → rne M s = M / 2 ^ s.
Proof.
  intros Hs Hr. unfold rne. rewrite Hr.
  assert (0 < 2 ^ s) by (apply Z.pow_pos_nonneg; lia).
  destruct (Z.compare_spec (2 * 0) (2 ^ s)); lia.
Qed.

Lemma rne_0 M : rne M 0 = M.
Proof. rewrite rne_exact; [apply Z.div_1_r|done|apply Z.mod_1_r]. Qed.

Lemma rne_le M s j : 0 ≤ s → M ≤ j * 2 ^ s → rne M s ≤ j.
Proof.
  intros Hs Hle.
  assert (0 < 2 ^ s) as Hp by (apply Z.pow_pos_nonneg; lia).
  pose proof (Z.div_mod M (2 ^ s)) as Hdm.
  pose proof (Z.mod_pos_bound M (2 ^ s) Hp) as Hr.
  unfold rne.
  destruct (Z.compare_spec (2 * (M mod 2 ^ s)) (2 ^ s)) as [He|Hlt|Hgt];
    [destruct (Z.even _)|..]; nia.
Qed.

Lemma rne_nonneg M s : 0 ≤ s → 0 ≤ M → 0 ≤ rne M s.
Proof.
  intros Hs HM. pose proof (rne_bounds M s Hs).
  assert (0 ≤ M / 2 ^ s) by (apply Z.div_pos; [done|apply Z.pow_pos_nonneg; lia]).
  lia.
Qed.

Lemma log2_lt M b : 0 < b → 0 ≤ M < 2 ^ b → Z.log2 M - b < 0.
Proof.
  intros Hb [H0 HM]. destruct (decide (M = 0)) as [->|]; [simpl; lia|].
  assert (Z.log2 M < b) by (apply Z.log2_lt_pow2; lia). lia.
Qed.

Lemma binary64_small M E :
  0 ≤ M < 2 ^ 53 → -1074 ≤ E → binary64 M E = (M, E).
Proof.
  intros HM HE. unfold binary64.
  pose proof (log2_lt M 53 ltac:(lia) HM).
  replace (0 `max` ((Z.log2 M - 52) `max` (-1074 - E))) with 0 by lia.
  by rewrite rne_0, Z.add_0_r.
Qed.

Lemma int_times_half_small n :
  0 ≤ n < 2 ^ 53 → int_times_Z n one_half = Ok (n / 2).
Proof.
  intros Hn. unfold int_times_Z, one_half, size_max.
  replace (n `min` (2 ^ 63 - 1)) with n by lia.
  rewrite binary64_small by lia.
  replace (n * Z.of_N 1) with n by lia.
  rewrite binary64_small by lia.
  unfold overflows, truncated. simpl. done.
Qed.

Lemma int_times_half n :
  0 ≤ n → ∃ p, int_times_Z n one_half = Ok p ∧ 0 ≤ p ≤ n.
Proof.
  intros Hn.
  destruct (decide (n < 2 ^ 53)) as [Hsmall|Hbig].
  { exists (n / 2). split; [by apply int_times_half_small|].
    split; [apply Z.div_pos; lia|]. apply Z.div_le_upper_bound; lia. }
  unfold int_times_Z, one_half.
  set (c := n `min` size_max).
  assert (2 ^ 53 ≤ c < 2 ^ 63) as Hc by (unfold c, size_max; lia).
  assert (c ≤ n) as Hcn by (unfold c; lia).
  clearbody c.
  set (L := Z.log2 c).
  assert (2 ^ L ≤ c < 2 ^ Z.succ L) as HL by (apply Z.log2_spec; lia).
  assert (53 ≤ L) as HL53 by (apply Z.log2_le_pow2; lia).
  assert (L < 63) as HL63 by (apply Z.log2_lt_pow2; lia).
  unfold binary64 at 1. fold L.
  replace (0 `max` ((L - 52) `max` (-1074 - 0))) with (L - 52) by lia.
  set (s0 := L - 52) in *.
  assert (0 < 2 ^ s0) as Hp0 by (apply Z.pow_pos_nonneg; lia).
  assert (2 ^ L = 2 ^ 52 * 2 ^ s0) as HLs
    by (rewrite <- Z.pow_add_r by lia; f_equal; lia).
  assert (2 ^ Z.succ L = 2 ^ 53 * 2 ^ s0) as HLs'
    by (rewrite <- Z.pow_add_r by lia; f_equal; lia).
  assert (2 ^ s0 = 2 * 2 ^ (s0 - 1)) as Hs0
    by (rewrite <- Z.pow_succ_r by lia; f_equal; lia).
  assert (0 < 2 ^ (s0 - 1)) as Hp1 by (apply Z.pow_pos_nonneg; lia).
  pose proof (rne_bounds c s0 ltac:(lia)) as Ha.
  pose proof (Z.div_mod c (2 ^ s0)) as Hdm.
  pose proof (Z.mod_pos_bound c (2 ^ s0) Hp0) as Hr.
  set (a := rne c s0) in *. clearbody a.
  set (d := c / 2 ^ s0) in *.
  assert (2 ^ 52 ≤ d < 2 ^ 53) as Hd by nia.
  replace (0 + s0) with s0 by lia.
  replace (a * Z.of_N 1) with a by lia.
  destruct (decide (a < 2 ^ 53)) as [Ha53|Ha53].
  - unfold binary64.
    pose proof (log2_lt a 53 ltac:(lia) ltac:(lia)).
    replace (0 `max` ((Z.log2 a - 52) `max` (-1074 - (s0 + -1)))) with 0 by lia.
    rewrite rne_0, Z.add_0_r.
    assert (a * 2 ^ (s0 + -1) ≤ c) as Hle.
    { replace (s0 + -1) with (s0 - 1) by lia. nia. }
    unfold overflows, truncated.
    rewrite (bool_decide_eq_true_2 (0 ≤ s0 + -1)) by lia.
    rewrite (bool_decide_eq_false_2 (2 ^ 1024 ≤ a * 2 ^ (s0 + -1))).
    2: { assert (2 ^ 63 < 2 ^ 1024) by (apply Z.pow_lt_mono_r; lia). lia. }
    simpl. rewrite decide_True by lia.
    eexists. split; [done|].
    assert (0 ≤ a * 2 ^ (s0 + -1))
      by (apply Z.mul_nonneg_nonneg; [lia|apply Z.pow_nonneg; lia]).
    lia.
  - assert (a = 2 ^ 53) as -> by lia.
    unfold binary64. rewrite Z.log2_pow2 by lia.
    replace (0 `max` ((53 - 52) `max` (-1074 - (s0 + -1)))) with 1 by lia.
    replace (s0 + -1 + 1) with s0 by lia.
    replace (rne (2 ^ 53) 1) with (2 ^ 52) by (vm_compute; reflexivity).
    assert (2 ^ 52 * 2 ^ s0 ≤ c) as Hle by lia.
    unfold overflows, truncated.
    rewrite (bool_decide_eq_true_2 (0 ≤ s0)) by lia.
    rewrite (bool_decide_eq_false_2 (2 ^ 1024 ≤ 2 ^ 52 * 2 ^ s0)).
    2: { assert (2 ^ 63 < 2 ^ 1024) by (apply Z.pow_lt_mono_r; lia). lia. }
    simpl. rewrite decide_True by lia.
    eexists. split; [done|]. lia.
Qed.

Lemma int_times_unit_fraction n x :
  0 ≤ n < 2 ^ 53 → unit_fraction x →
  ∃ p, int_times_Z n x = Ok p ∧ 0 ≤ p ≤ n ∧ (is_one x → p = n).
Proof.
  intros Hn Hx. destruct x as [| |[] m e]; try done.
  destruct Hx as (Hm & He & Hme).
  unfold int_times_Z, size_max.
  replace (n `min` (2 ^ 63 - 1)) with n by lia.
  rewrite binary64_small by lia.
  replace (0 + e) with e by lia.
  set (M := n * Z.of_N m).
  assert (0 < 2 ^ (- e)) as Hpe by (apply Z.pow_pos_nonneg; lia).
  assert (0 ≤ M ≤ n * 2 ^ (- e)) as HM by (unfold M; nia).
  assert (M < 2 ^ (53 - e)) as HM'.
  { replace (53 - e) with (53 + - e) by lia. rewrite Z.pow_add_r by lia. nia. }
  pose proof (log2_lt M (53 - e) ltac:(lia) ltac:(lia)) as Hlog.
  unfold binary64.
  set (s := 0 `max` ((Z.log2 M - 52) `max` (-1074 - e))).
  assert (0 ≤ s ≤ - e) as Hs by (unfold s; lia).
  clearbody s.
  assert (0 < 2 ^ s) as Hps by (apply Z.pow_pos_nonneg; lia).
  assert (0 < 2 ^ (- (e + s))) as Hpx by (apply Z.pow_pos_nonneg; lia).
  assert (2 ^ (- e) = 2 ^ (- (e + s)) * 2 ^ s) as Hsplit
    by (rewrite <- Z.pow_add_r by lia; f_equal; lia).
  assert (rne M s ≤ n * 2 ^ (- (e + s))) as Hq by (apply rne_le; nia).
  pose proof (rne_nonneg M s ltac:(lia) ltac:(lia)) as Hq0.
  assert (truncated (rne M s) (e + s) ≤ n ∧ 0 ≤ truncated (rne M s) (e + s))
    as [Ht Ht0].
  { unfold truncated. case_decide as Hx.
    - assert (e + s = 0) as H0 by lia. rewrite H0 in Hq |- *.
      change (2 ^ (- 0)) with 1 in Hq. rewrite Z.pow_0_r. lia.
    - split; [apply Z.div_le_upper_bound; lia|apply Z.div_pos; lia]. }
  assert (overflows (rne M s) (e + s) = false) as ->.
  { unfold overflows. destruct (decide (0 ≤ e + s)) as [Hx|Hx].
    - assert (e + s = 0) as H0 by lia. rewrite H0 in Hq |- *.
      change (2 ^ (- 0)) with 1 in Hq. rewrite Z.pow_0_r.
      rewrite (bool_decide_eq_false_2 (2 ^ 1024 ≤ _)); [by rewrite andb_false_r|].
      assert (2 ^ 53 < 2 ^ 1024) by (apply Z.pow_lt_mono_r; lia).
      lia.
    - by rewrite (bool_decide_eq_false_2 (0 ≤ e + s)). }
  eexists. split; [done|]. split; [lia|].
  intros [_ Hone].
  assert (M = n * 2 ^ (- (e + s)) * 2 ^ s) as HMeq by (unfold M; nia).
  assert (rne M s = n * 2 ^ (- (e + s))) as ->.
  { rewrite rne_exact; [|lia|].
    - rewrite HMeq. apply Z.div_mul. lia.
    - rewrite HMeq. apply Z.mod_mul. lia. }
  unfold truncated. case_decide as Hx.
  - assert (e + s = 0) as H0 by lia. rewrite H0.
    change (2 ^ (- 0)) with 1. rewrite Z.pow_0_r. lia.
  - apply Z.div_mul. lia.
Qed.

(** [float(h)] raises exactly from [2^1024 - 2^970] on, the midpoint between
    the largest finite float and [2^1024]. *)
Lemma too_large_for_float_iff h :
  too_large_for_float h = true ↔ 2 ^ 1024 - 2 ^ 970 ≤ Z.abs h.
Proof.
  unfold too_large_for_float. set (M := Z.abs h).
  assert (0 ≤ M) as HM0 by (unfold M; lia). clearbody M.
  assert (2 ^ 53 < 2 ^ 1024 - 2 ^ 970) as Hbig by (by vm_compute).
  destruct (decide (M < 2 ^ 53)) as [Hsmall|Hlarge].
  { rewrite binary64_small by lia. unfold overflows. rewrite Z.pow_0_r.
    rewrite (bool_decide_eq_false_2 (2 ^ 1024 ≤ M * 1)) by lia.
    rewrite andb_false_r. split; [done|lia]. }
  unfold binary64.
  set (L := Z.log2 M).
  assert (2 ^ L ≤ M < 2 ^ Z.succ L) as HL by (apply Z.log2_spec; lia).
  assert (53 ≤ L) as HL53 by (apply Z.log2_le_pow2; lia).
  replace (0 `max` ((L - 52) `max` (-1074 - 0))) with (L - 52) by lia.
  replace (0 + (L - 52)) with (L - 52) by lia.
  set (s := L - 52) in *.
  assert (0 < 2 ^ s) as Hps by (apply Z.pow_pos_nonneg; lia).
  assert (2 ^ L = 2 ^ 52 * 2 ^ s) as HLs
    by (rewrite <- Z.pow_add_r by lia; f_equal; lia).
  assert (2 ^ Z.succ L = 2 ^ 53 * 2 ^ s) as HLs'
    by (rewrite <- Z.pow_add_r by lia; f_equal; lia).
  pose proof (rne_bounds M s ltac:(lia)) as Hq.
  pose proof (Z.div_mod M (2 ^ s)) as Hdm.
  pose proof (Z.mod_pos_bound M (2 ^ s) Hps) as Hr.
  assert (2 ^ 52 ≤ M / 2 ^ s < 2 ^ 53) as Hd by nia.
  unfold overflows. rewrite (bool_decide_eq_true_2 (0 ≤ s)) by lia.
  rewrite andb_true_l, bool_decide_eq_true.
  destruct (Z.lt_trichotomy L 1023) as [Hlt|[Heq|Hgt]].
  - assert (2 ^ s ≤ 2 ^ 970) by (apply Z.pow_le_mono_r; lia).
    assert (2 ^ 1024 = 2 ^ 54 * 2 ^ 970) as H1024 by (by vm_compute).
    assert (2 ^ 970 = 2 ^ 970) by done.
    set (P := 2 ^ 970) in *. clearbody P.
    split; intros; nia.
  - assert (s = 971) as Hs by lia. clearbody s. subst s.
    assert (2 ^ 1024 = 2 ^ 53 * 2 ^ 971) as H1024 by (by vm_compute).
    assert (2 ^ 970 * 2 = 2 ^ 971) as H970 by (by vm_compute).
    unfold rne in *.
    set (d := M / 2 ^ 971) in *. set (r := M mod 2 ^ 971) in *.
    set (P := 2 ^ 971) in *. set (P' := 2 ^ 970) in *.
    clearbody P P' d r.
    rewrite H1024.
    destruct (Z.compare_spec (2 * r) P) as [He|Hl|Hg].
    + destruct (Z.even d) eqn:Hev.
      * assert (d ≠ 2 ^ 53 - 1) by (intros ->; by vm_compute in Hev).
        split; intros; nia.
      * split; intros; nia.
    + split; intros; nia.
    + split; intros; nia.
  - assert (2 ^ 972 ≤ 2 ^ s) by (apply Z.pow_le_mono_r; lia).
    assert (2 ^ 1024 = 2 ^ 52 * 2 ^ 972) as H1024 by (by vm_compute).
    set (P := 2 ^ 972) in *. clearbody P.
    split; intros; nia.
Qed.

(** Line 269 at the default 0.5: the product never fails and is at most the
    size; for a size below [2^53] it is the size halved, rounded down. *)
Lemma int_times_one_half (n : nat) :
  ∃ p, int_times n one_half = Ok p ∧ 0 ≤ p ≤ Z.of_nat n.
Proof. apply int_times_half. lia. Qed.

Lemma int_times_one_half_small (n : nat) :
  Z.of_nat n < 2 ^ 53 → int_times n one_half = Ok (Z.of_nat (n / 2)).
Proof.
  intros Hn. unfold int_times. rewrite int_times_half_small by lia.
  f_equal. by rewrite Nat2Z.inj_div.
Qed.

End FloatProperties.

(** ** Shapes through the tensor operations *)

Lemma view_Ok {A} (t t' : tensor A) s :
  view t s = Ok t' → t' = Tensor s (data t) ∧ numel s = numel (shape t).
Proof. unfold view. case_decide; [|discriminate]. by intros [= <-]. Qed.

Lemma reshape_Ok {A} (t t' : tensor A) s :
  reshape t s = Ok t' → t' = Tensor s (data t) ∧ numel s = numel (shape t).
Proof. unfold reshape. case_decide; [|discriminate]. by intros [= <-]. Qed.

Lemma transpose_Ok {A} i j (t t' : tensor A) :
  transpose i j t = Ok t' → shape t' = swap_at i j (shape t).
Proof. unfold transpose. case_decide; [|discriminate]. by intros [= <-]. Qed.

Lemma bmm_Ok `{!Scalar F} (a b c : tensor F) :
  bmm a b = Ok c →
  ∃ n t d s, shape a = [n; t; d] ∧ shape b = [n; d; s] ∧ shape c = [n; t; s].
Proof.
  unfold bmm.
  destruct (shape a) as [|n [|t [|d [|]]]]; try discriminate.
  destruct (shape b) as [|n' [|d' [|s [|]]]]; try discriminate.
  case_decide as Hnd; [|discriminate]. destruct Hnd as [<- <-].
  intros [= <-]. by exists n, t, d, s.
Qed.

Lemma bmm_rank `{!Scalar F} (a b : tensor F) :
  length (shape a) ≠ 3 → bmm a b = Err (RuntimeError "bmm").
Proof.
  unfold bmm. intros Hr.
  destruct (shape a) as [|n [|t [|d [|]]]]; try done.
Qed.

Lemma broadcast_rev_refl r : broadcast_rev r r = Some r.
Proof.
  induction r as [|a r IH]; [done|]. simpl. rewrite IH. simpl.
  by rewrite decide_True.
Qed.

Lemma broadcast_shapes_refl s : broadcast_shapes s s = Some s.
Proof.
  unfold broadcast_shapes. rewrite broadcast_rev_refl. simpl.
  by rewrite reverse_involutive.
Qed.

Lemma broadcast_to_self {A} op (t : tensor A) :
  broadcast_to op t (shape t)
  = Ok (gather t (shape t) (broadcast_index (shape t))).
Proof. unfold broadcast_to. by rewrite decide_True by apply broadcast_shapes_refl. Qed.

Lemma tmul_same_shape `{!Scalar F} (a b : tensor F) :
  shape b = shape a →
  tmul a b
  = Ok (Tensor (shape a)
          (zip_with fmul (data (gather a (shape a) (broadcast_index (shape a))))
                         (data (gather b (shape a) (broadcast_index (shape a)))))).
Proof.
  intros Hs. unfold tmul. rewrite Hs, broadcast_shapes_refl.
  rewrite broadcast_to_self. simpl. rewrite <- Hs at 1.
  rewrite broadcast_to_self. simpl. by rewrite Hs.
Qed.

Lemma tadd_same_shape `{!Scalar F} (a b : tensor F) :
  shape b = shape a →
  tadd a b
  = Ok (Tensor (shape a)
          (zip_with fadd (data (gather a (shape a) (broadcast_index (shape a))))
                         (data (gather b (shape a) (broadcast_index (shape a)))))).
Proof.
  intros Hs. unfold tadd. rewrite Hs, broadcast_shapes_refl.
  rewrite broadcast_to_self. simpl. rewrite <- Hs at 1.
  rewrite broadcast_to_self. simpl. by rewrite Hs.
Qed.

Section ForwardProperties.
Context {F : Type} `{!Scalar F, !Torch F}.
Implicit Types (eng : engine F) (query key q k v : tensor F).

Lemma apply_pruning_shape (t t' : tensor F) r :
  apply_pruning t r = Ok t' → shape t' = shape t.
Proof.
  unfold apply_pruning. destruct (last (shape t)); [|discriminate].
  destruct (int_times _ _); [|discriminate]. rewrite Ok_bind.
  case_decide; [|discriminate].
  rewrite tmul_same_shape by done. by intros [= <-].
Qed.

Lemma apply_pruning_half_Ok (t : tensor F) n :
  last (shape t) = Some n → 0 < n →
  ∃ t', apply_pruning t one_half = Ok t' ∧ shape t' = shape t.
Proof.
  intros Hl Hn. unfold apply_pruning. rewrite Hl.
  destruct (int_times_one_half n) as (p & -> & Hp). rewrite Ok_bind.
  rewrite decide_True by lia.
  rewrite tmul_same_shape by done. eauto.
Qed.

(** *** Stage by stage *)

Lemma check_inputs_Ok eng query key value bsz tgt src e :
  shape query = [bsz; tgt; embed_dim eng] → shape key = [bsz; src; e] →
  0 < bsz →
  check_inputs eng query key (Some value)
  = Ok (bsz, tgt, embed_dim eng, src, value).
Proof.
  intros Hq Hk Hb. unfold check_inputs, size3. rewrite Hq, Hk. simpl.
  rewrite !bool_decide_eq_true_2 by (done || lia). done.
Qed.

Lemma check_inputs_inv eng query key value bsz tgt e src val :
  check_inputs eng query key value = Ok (bsz, tgt, e, src, val) →
  shape query = [bsz; tgt; embed_dim eng] ∧ e = embed_dim eng ∧
  (∃ e', shape key = [bsz; src; e']) ∧ value = Some val ∧ 0 < bsz.
Proof.
  unfold check_inputs, size3. intros H. ok_inv H.
  destruct (shape query) as [|a [|b [|c [|]]]]; try discriminate.
  destruct (shape key) as [|a' [|b' [|c' [|]]]]; try discriminate.
  destruct value; [|discriminate].
  simplify_eq. split_and!; eauto. lia.
Qed.

(** *** The early use of [attn_weights] *)

(** C1.  A call that supplies a key-padding mask never returns: whatever the
    engine and the other arguments, it ends in an exception and leaves the
    caller's cache as it was.  When the steps before line 333 pass, the
    exception is the read of the unassigned local [attn_weights] there, so
    the masking of lines 374-378 is never reached. *)
Theorem padding_mask_call_raises eng query key value st m am rp pkv :
  ∃ e, forward eng query key value st (Some m) am rp pkv = (Err e, st).
Proof.
  unfold forward.
  destruct (before_cache eng query key value (Some m) pkv) as [r|e] eqn:Hb.
  - exfalso. unfold before_cache in Hb. ok_inv Hb. discriminate.
  - by exists e.
Qed.

Lemma early_padding_mask_unbound eng bsz tgt src (m : tensor bool) :
  early_padding_mask eng bsz tgt src None (Some m)
  = Err (UnboundLocalError "attn_weights").
Proof. reflexivity. Qed.

(** *** The projections *)

Lemma project_flag eng query key value q k v :
  project eng query key value true = Ok (q, k, v) →
  k_proj eng key = Ok k ∧ v_proj eng value = Ok v ∧
  project eng query key value false = Ok (q, k, v).
Proof.
  unfold project. simpl. intros H. ok_inv H.
  injection H as <- <- <-. by rewrite Hx, Hx0, Hx1.
Qed.

(** C2.  With [precomputed_kv] true the key and the value still go through
    [k_proj] and [v_proj] (lines 301-302 are unconditional): in a call that
    returns, both adapters have returned the key and value the call goes on
    with, and the call returns what it returns with the flag false. *)
Theorem precomputed_kv_still_projects
    eng query key value st kpm am rp r st' :
  forward eng query key value st kpm am rp true = (Ok r, st') →
  ∃ val q k v,
    value = Some val ∧
    project eng query key val true = Ok (q, k, v) ∧
    k_proj eng key = Ok k ∧ v_proj eng val = Ok v ∧
    forward eng query key value st kpm am rp false = (Ok r, st').
Proof.
  unfold forward. intros Hfw.
  destruct (before_cache eng query key value kpm true) as [x|] eqn:Hb;
    [|discriminate].
  assert (∃ val q k v, value = Some val ∧
            project eng query key val true = Ok (q, k, v) ∧
            before_cache eng query key value kpm false = Ok x)
    as (val & q & k & v & Hval & Hp & Hb').
  { unfold before_cache in *.
    apply bind_Ok in Hb as ([[[[bsz tgt] e] src] val] & Hc & Hb).
    apply bind_Ok in Hb as ([[q k] v] & Hp & Hb).
    exists val, q, k, v. split; [by apply check_inputs_inv in Hc as (_ & _ & _ & ? & _)|].
    split; [done|]. rewrite Hc. simpl.
    apply project_flag in Hp as (_ & _ & ->). done. }
  exists val, q, k, v. rewrite Hb'.
  pose proof (project_flag _ _ _ _ _ _ _ Hp) as (Hk & Hv & _).
  split_and!; done.
Qed.

(** *** Splitting into heads on the reference path *)

Lemma reshape_eq (t : tensor F) s :
  numel s = numel (shape t) → reshape t s = Ok (Tensor s (data t)).
Proof. intros. unfold reshape. by rewrite decide_True. Qed.

Lemma reshape_ne (t : tensor F) s :
  numel s ≠ numel (shape t) → reshape t s = Err (RuntimeError "reshape").
Proof. intros. unfold reshape. by rewrite decide_False. Qed.

Lemma view_transpose_12 (t t' : tensor F) a b c d :
  view t [a; b; c; d] ≫= transpose 1 2 = Ok t' → shape t' = [a; c; b; d].
Proof.
  intros H. ok_inv H. apply view_Ok in Hx as [-> _].
  by apply transpose_Ok in H.
Qed.

Lemma view_transpose_12_Ok (t : tensor F) a b c d :
  numel (shape t) = numel [a; b; c; d] →
  ∃ t', view t [a; b; c; d] ≫= transpose 1 2 = Ok t' ∧ shape t' = [a; c; b; d].
Proof.
  intros Hn. unfold view. rewrite decide_True by done. simpl.
  unfold transpose. simpl. eauto.
Qed.

Lemma split_heads_reference eng bsz tgt src q k v kpm q' k' v' :
  flash_attention eng = false →
  split_heads eng bsz tgt src q k v kpm = Ok (q', k', v') →
  shape q' = [bsz * num_heads eng; tgt; head_dim eng] ∧
  shape k' = [bsz * num_heads eng; tgt; head_dim eng] ∧
  shape v' = [bsz * num_heads eng; tgt; head_dim eng] ∧
  numel (shape k) = bsz * num_heads eng * tgt * head_dim eng ∧
  numel (shape v) = bsz * num_heads eng * tgt * head_dim eng.
Proof.
  intros Hf. unfold split_heads. rewrite Hf. intros H.
  apply bind_Ok in H as (q1 & Hq1 & H). apply bind_Ok in H as (k1 & Hk1 & H).
  apply bind_Ok in H as (v1 & Hv1 & H). apply bind_Ok in H as (q2 & Hq2 & H).
  apply bind_Ok in H as (k2 & Hk2 & H). apply bind_Ok in H as (v2 & Hv2 & H).
  simpl in H. simplify_eq.
  apply reshape_Ok in Hq2 as [-> _].
  apply reshape_Ok in Hk2 as [-> Hk2]. apply reshape_Ok in Hv2 as [-> Hv2].
  apply bind_Ok in Hk1 as (k0 & Hk0 & Hk1). apply view_Ok in Hk0 as [-> Hk0].
  apply transpose_Ok in Hk1. rewrite Hk1 in Hk2.
  apply bind_Ok in Hv1 as (v0 & Hv0 & Hv1). apply view_Ok in Hv0 as [-> Hv0].
  apply transpose_Ok in Hv1. rewrite Hv1 in Hv2.
  simpl in *. split_and!; try done; lia.
Qed.

(** On the reference path the key and the value are reshaped with the
    target length (lines 329-330): with a source of another length the
    element counts differ and [reshape] refuses. *)
Lemma split_heads_unequal eng bsz tgt src q k v kpm :
  flash_attention eng = false →
  0 < bsz → 0 < num_heads eng → 0 < head_dim eng →
  numel (shape q) = bsz * tgt * num_heads eng * head_dim eng →
  numel (shape k) = bsz * src * num_heads eng * head_dim eng →
  numel (shape v) = bsz * src * num_heads eng * head_dim eng →
  src ≠ tgt →
  split_heads eng bsz tgt src q k v kpm = Err (RuntimeError "reshape").
Proof.
  intros Hf Hb Hh Hd Hq Hk Hv Hne. unfold split_heads. rewrite Hf.
  destruct (view_transpose_12_Ok q bsz tgt (num_heads eng) (head_dim eng))
    as (q1 & -> & Hq1); [simpl; lia|].
  destruct (view_transpose_12_Ok k bsz src (num_heads eng) (head_dim eng))
    as (k1 & -> & Hk1); [simpl; lia|].
  destruct (view_transpose_12_Ok v bsz src (num_heads eng) (head_dim eng))
    as (v1 & -> & Hv1); [simpl; lia|].
  simpl. rewrite (reshape_eq q1) by (rewrite Hq1; simpl; lia). simpl.
  rewrite (reshape_ne k1); [done|]. rewrite Hk1. simpl. intros Heq.
  assert (0 < bsz * num_heads eng * head_dim eng) as Hpos
    by (repeat apply Nat.mul_pos_pos; lia).
  assert (bsz * num_heads eng * head_dim eng * src
          = bsz * num_heads eng * head_dim eng * tgt) as Hmul by lia.
  apply Nat.mul_cancel_l in Hmul; lia.
Qed.

Lemma project_Ok eng query key value pkv :
  projects (embed_dim eng) (q_proj eng) →
  projects (embed_dim eng) (k_proj eng) →
  projects (embed_dim eng) (v_proj eng) →
  last (shape query) = Some (embed_dim eng) →
  last (shape key) = Some (embed_dim eng) →
  last (shape value) = Some (embed_dim eng) →
  ∃ q k v, project eng query key value pkv = Ok (q, k, v) ∧
    shape q = shape query ∧ shape k = shape key ∧ shape v = shape value.
Proof.
  intros Pq Pk Pv Hq Hk Hv.
  destruct (Pq query Hq) as (q & Eq & Sq).
  destruct (Pk key Hk) as (k & Ek & Sk).
  destruct (Pv value Hv) as (v & Ev & Sv).
  exists (scale q (scaling eng)), k, v. unfold project.
  rewrite Eq, Ek, Ev. by destruct pkv.
Qed.

Lemma prune_qkv_Ok q k v n :
  0 < n →
  last (shape q) = Some n → last (shape k) = Some n → last (shape v) = Some n →
  ∃ q' k' v', prune_qkv q k v = Ok (q', k', v') ∧
    shape q' = shape q ∧ shape k' = shape k ∧ shape v' = shape v.
Proof.
  intros Hn Hq Hk Hv.
  destruct (apply_pruning_half_Ok q n Hq Hn) as (q' & Eq & Sq).
  destruct (apply_pruning_half_Ok k n Hk Hn) as (k' & Ek & Sk).
  destruct (apply_pruning_half_Ok v n Hv Hn) as (v' & Ev & Sv).
  exists q', k', v'. unfold prune_qkv. by rewrite Eq, Ek, Ev.
Qed.

Lemma prune_qkv_shape q k v q' k' v' :
  prune_qkv q k v = Ok (q', k', v') →
  shape q' = shape q ∧ shape k' = shape k ∧ shape v' = shape v.
Proof.
  unfold prune_qkv. intros H. ok_inv H. injection H as <- <- <-.
  split_and!; by eapply apply_pruning_shape.
Qed.

(** C10.  On the reference path, for an engine whose heads divide its width
    and whose projections honour their contract, a call whose key and value
    have a sequence length other than the query's raises at the reshape of
    line 329, which sizes the key by the target length; no attention is
    computed and the cache is not touched. *)
Theorem reference_path_rejects_unequal_lengths
    eng query key value st kpm am rp pkv bsz tgt src :
  flash_attention eng = false →
  0 < num_heads eng → 0 < head_dim eng →
  embed_dim eng = num_heads eng * head_dim eng →
  projects (embed_dim eng) (q_proj eng) →
  projects (embed_dim eng) (k_proj eng) →
  projects (embed_dim eng) (v_proj eng) →
  shape query = [bsz; tgt; embed_dim eng] →
  shape key = [bsz; src; embed_dim eng] →
  shape value = [bsz; src; embed_dim eng] →
  0 < bsz → src ≠ tgt →
  forward eng query key (Some value) st kpm am rp pkv
  = (Err (RuntimeError "reshape"), st).
Proof.
  intros Hf Hh Hd He Pq Pk Pv Sq Sk Sv Hb Hne.
  unfold forward, before_cache.
  rewrite (check_inputs_Ok eng query key value bsz tgt src (embed_dim eng))
    by done.
  simpl.
  destruct (project_Ok eng query key value pkv) as (q & k & v & -> & Sq' & Sk' & Sv');
    try done; try (by rewrite ?Sq, ?Sk, ?Sv).
  simpl.
  destruct (prune_qkv_Ok q k v (embed_dim eng)) as (q' & k' & v' & -> & Tq & Tk & Tv);
    try (by rewrite ?Sq', ?Sk', ?Sv', ?Sq, ?Sk, ?Sv).
  { rewrite He. by apply Nat.mul_pos_pos. }
  simpl.
  rewrite split_heads_unequal; try done.
  - rewrite Tq, Sq', Sq. simpl. lia.
  - rewrite Tk, Sk', Sk. simpl. lia.
  - rewrite Tv, Sv', Sv. simpl. lia.
Qed.

(** *** The incremental cache *)

Lemma view_infer_Ok (t : tensor F) pre post l :
  numel (shape t) = l * (numel pre * numel post) →
  0 < numel pre * numel post →
  view_infer t pre post = Ok (Tensor (pre ++ l :: post) (data t)).
Proof.
  intros Hn Hpos. unfold view_infer.
  rewrite decide_False by lia. rewrite Hn.
  rewrite decide_True by apply Nat.Div0.mod_mul.
  by rewrite Nat.div_mul by lia.
Qed.

Lemma cat1_Ok (a b : tensor F) n l1 l2 d :
  shape a = [n; l1; d] → shape b = [n; l2; d] →
  ∃ c, cat1 a b = Ok c ∧ shape c = [n; l1 + l2; d].
Proof.
  intros Ha Hb. unfold cat1. rewrite Ha, Hb.
  rewrite decide_True by done. eauto.
Qed.

Lemma before_cache_reference eng query key value kpm pkv bsz tgt e src q k v :
  flash_attention eng = false →
  before_cache eng query key value kpm pkv = Ok (bsz, tgt, e, src, q, k, v) →
  shape q = [bsz * num_heads eng; tgt; head_dim eng] ∧
  shape k = [bsz * num_heads eng; tgt; head_dim eng] ∧
  shape v = [bsz * num_heads eng; tgt; head_dim eng] ∧
  shape query = [bsz; tgt; embed_dim eng] ∧ e = embed_dim eng ∧
  (∃ e', shape key = [bsz; src; e']) ∧ 0 < bsz ∧ kpm = None.
Proof.
  intros Hf H. unfold before_cache in H. ok_inv H. injection H as <- <- <- <- <- <- <-.
  apply check_inputs_inv in Hx as (Sq & -> & Sk & _ & Hb).
  apply split_heads_reference in Hx2 as (? & ? & ? & _); [|done].
  destruct kpm; [discriminate|]. done.
Qed.

(** The cache step on the reference path, through [torch.cat]. *)
Lemma cache_merge_cat eng query key value d kpm am rp pkv bsz tgt e src q k v :
  flash_attention eng = false →
  0 < num_heads eng → 0 < head_dim eng →
  before_cache eng query key value kpm pkv = Ok (bsz, tgt, e, src, q, k, v) →
  let H := num_heads eng in
  let D := head_dim eng in
  match d !! "prev_key" with
  | None =>
      forward eng query key value (Some d) kpm am rp pkv
      = (after_cache eng bsz tgt e tgt true q k v kpm am rp,
         Some (<["prev_value" := Tensor [bsz; H; tgt; D] (data v)]>
                 (<["prev_key" := Tensor [bsz; H; tgt; D] (data k)]> d)))
  | Some pk =>
      ∀ pv P,
        d !! "prev_value" = Some pv →
        shape pk = [bsz; H; P; D] → shape pv = [bsz; H; P; D] →
        ∃ kc vc,
          cat1 (Tensor [bsz * H; P; D] (data pk)) k = Ok kc ∧
          cat1 (Tensor [bsz * H; P; D] (data pv)) v = Ok vc ∧
          shape kc = [bsz * H; P + tgt; D] ∧
          shape vc = [bsz * H; P + tgt; D] ∧
          forward eng query key value (Some d) kpm am rp pkv
          = (after_cache eng bsz tgt e (P + tgt) true q kc vc kpm am rp,
             Some (<["prev_value" := Tensor [bsz; H; P + tgt; D] (data vc)]>
                     (<["prev_key" := Tensor [bsz; H; P + tgt; D] (data kc)]> d)))
  end.
Proof.
  intros Hf Hh Hd Hb H D. subst H D.
  destruct (before_cache_reference _ _ _ _ _ _ _ _ _ _ _ _ _ Hf Hb)
    as (Sq & Sk & Sv & _ & _ & _ & Hbsz & _).
  assert (0 < bsz * (num_heads eng) * (head_dim eng)) as Hpos by (repeat apply Nat.mul_pos_pos; done).
  unfold forward. rewrite Hb. unfold merge_cache, load_prev.
  destruct (d !! "prev_key") as [pk|] eqn:Hpk.
  - intros pv P Hpv Spk Spv. rewrite Hpv.
    rewrite (view_infer_Ok pk [bsz * (num_heads eng)] [(head_dim eng)] P) by (rewrite ?Spk; simpl; lia).
    rewrite !Ok_bind.
    rewrite (view_infer_Ok pv [bsz * (num_heads eng)] [(head_dim eng)] P) by (rewrite ?Spv; simpl; lia).
    simpl.
    destruct (cat1_Ok (Tensor [bsz * (num_heads eng); P; (head_dim eng)] (data pk)) k (bsz * (num_heads eng)) P tgt (head_dim eng))
      as (kc & Ekc & Skc); [done..|].
    destruct (cat1_Ok (Tensor [bsz * (num_heads eng); P; (head_dim eng)] (data pv)) v (bsz * (num_heads eng)) P tgt (head_dim eng))
      as (vc & Evc & Svc); [done..|].
    exists kc, vc. rewrite Ekc, Evc. simpl. split_and!; try done.
    unfold store_kv.
    rewrite (view_infer_Ok kc [bsz; (num_heads eng)] [(head_dim eng)] (P + tgt)) by (rewrite ?Skc; simpl; lia).
    rewrite (view_infer_Ok vc [bsz; (num_heads eng)] [(head_dim eng)] (P + tgt)) by (rewrite ?Svc; simpl; lia).
    unfold size1. rewrite Skc. simpl. done.
  - unfold store_kv.
    rewrite (view_infer_Ok k [bsz; (num_heads eng)] [(head_dim eng)] tgt) by (rewrite ?Sk; simpl; lia).
    rewrite (view_infer_Ok v [bsz; (num_heads eng)] [(head_dim eng)] tgt) by (rewrite ?Sv; simpl; lia).
    unfold size1. rewrite Sk. simpl. done.
Qed.

(** *** The fused path *)

Lemma split_heads_fused eng bsz tgt src q k v kpm q' k' v' :
  flash_attention eng = true →
  split_heads eng bsz tgt src q k v kpm = Ok (q', k', v') →
  shape q' = [bsz; num_heads eng; tgt; head_dim eng] ∧
  shape k' = [bsz; num_heads eng; src; head_dim eng] ∧
  shape v' = [bsz; num_heads eng; src; head_dim eng].
Proof.
  intros Hf. unfold split_heads. rewrite Hf. intros H.
  apply bind_Ok in H as (q1 & Hq1 & H). apply bind_Ok in H as (k1 & Hk1 & H).
  apply bind_Ok in H as (v1 & Hv1 & H). ok_inv H. injection H as <- <- <-.
  apply view_transpose_12 in Hq1, Hk1, Hv1. done.
Qed.

(** Whatever has not three axes when it reaches line 368 stops there (or in
    the position encoder before it), with an exception that owes nothing to
    the masks and the bias: they are read further down. *)
Lemma after_cache_rank eng bsz tgt e src inc q k v kpm :
  length (shape q) ≠ 3 →
  (∀ enc, xpos eng = Some enc → encoder_keeps_shape enc) →
  ∃ err, ∀ am rp, after_cache eng bsz tgt e src inc q k v kpm am rp = Err err.
Proof.
  intros Hr Henc. unfold after_cache, apply_xpos.
  destruct (xpos eng) as [enc|] eqn:Hx.
  - destruct (enc k 0%Z true) as [k'|err] eqn:Hk; [|by exists err].
    simpl.
    destruct (enc q _ false) as [q'|err] eqn:Hq; [|by exists err].
    simpl. apply (Henc enc eq_refl) in Hq.
    unfold attend, masked_scores.
    destruct (transpose 1 2 k') as [kt|err] eqn:Ht; [|by exists err].
    simpl. rewrite bmm_rank by (by rewrite Hq). by eexists.
  - simpl. unfold attend, masked_scores.
    destruct (transpose 1 2 k) as [kt|err] eqn:Ht; [|by exists err].
    simpl. rewrite bmm_rank by done. by eexists.
Qed.

Lemma before_cache_fused eng query key value kpm pkv bsz tgt e src q k v :
  flash_attention eng = true →
  before_cache eng query key value kpm pkv = Ok (bsz, tgt, e, src, q, k, v) →
  length (shape q) ≠ 3.
Proof.
  intros Hf Hb. unfold before_cache in Hb. ok_inv Hb.
  injection Hb as <- <- <- <- <- <- <-.
  apply split_heads_fused in Hx2 as (-> & _); done.
Qed.

(** *** The cache on both paths *)

Lemma lookup_joined_blocks {A} (n a b : nat) (X Y : list A) (i j : nat) :
  length X = n * a → length Y = n * b → i < n → j < a + b →
  concat (zip_with app (chunks n a X) (chunks n b Y)) !! (i * (a + b) + j)
  = if decide (j < a) then X !! (i * a + j) else Y !! (i * b + (j - a)).
Proof.
  revert X Y i. induction n as [|n IH]; intros X Y i HX HY Hi Hj; [lia|].
  cbn [chunks zip_with concat].
  assert (length (take a X) = a) as Ha by (rewrite length_take; lia).
  assert (length (take b Y) = b) as Hb by (rewrite length_take; lia).
  destruct i as [|i].
  - rewrite lookup_app_l by (rewrite length_app; lia).
    cbn [Nat.mul Nat.add]. case_decide.
    + by rewrite lookup_app_l, lookup_take_lt by lia.
    + rewrite lookup_app_r, Ha, lookup_take_lt by lia. done.
  - rewrite lookup_app_r by (rewrite length_app; lia).
    rewrite length_app, Ha, Hb.
    replace (S i * (a + b) + j - (a + b)) with (i * (a + b) + j) by lia.
    rewrite IH; [|rewrite length_drop; lia..|lia|done].
    rewrite !lookup_drop. case_decide; f_equal; lia.
Qed.

Lemma length_joined_blocks {A} (n a b : nat) (X Y : list A) :
  length X = n * a → length Y = n * b →
  length (concat (zip_with app (chunks n a X) (chunks n b Y))) = n * (a + b).
Proof.
  revert X Y. induction n as [|n IH]; intros X Y HX HY; [done|].
  cbn [chunks zip_with concat].
  rewrite !length_app, !length_take, IH by (rewrite length_drop; lia). lia.
Qed.

(** [torch.cat] along axis 1, element by element. *)
Lemma cat1_joined (a b c : tensor F) (n P L D : nat) :
  shape a = [n; P; D] → shape b = [n; L; D] → wf a → wf b →
  cat1 a b = Ok c →
  c = Tensor [n; P + L; D] (data c) ∧
  joined n P L D (data a) (data b) (data c).
Proof.
  intros Sa Sb Wa Wb. unfold cat1. rewrite Sa, Sb, decide_True by done.
  intros [= <-]. split; [done|]. cbn [data].
  unfold wf in Wa, Wb. rewrite Sa in Wa. rewrite Sb in Wb. simpl in Wa, Wb.
  cbn [numel foldr]. rewrite !Nat.mul_1_r. rewrite Nat.mul_1_r in Wa, Wb.
  split.
  - rewrite length_joined_blocks by lia. lia.
  - intros i p x Hi Hp Hx.
    replace (i * ((P + L) * D) + p * D + x)
      with (i * (P * D + L * D) + (p * D + x)) by lia.
    rewrite lookup_joined_blocks by (lia || nia).
    destruct (decide (p < P)) as [Hlt|Hge].
    + rewrite decide_True by nia. f_equal. lia.
    + rewrite decide_False by nia. f_equal. nia.
Qed.

Lemma before_cache_fused_shapes
    eng query key value kpm pkv bsz tgt e src q k v :
  flash_attention eng = true →
  before_cache eng query key value kpm pkv = Ok (bsz, tgt, e, src, q, k, v) →
  shape k = [bsz; num_heads eng; src; head_dim eng] ∧
  shape v = [bsz; num_heads eng; src; head_dim eng] ∧ 0 < bsz.
Proof.
  intros Hf Hb. unfold before_cache in Hb.
  apply bind_Ok in Hb as ([[[[b t] e0] s] val] & Hc & Hb). simpl in Hb.
  apply bind_Ok in Hb as ([[q1 k1] v1] & _ & Hb). simpl in Hb.
  apply bind_Ok in Hb as ([[q2 k2] v2] & _ & Hb). simpl in Hb.
  apply bind_Ok in Hb as ([[q3 k3] v3] & Hs & Hb). simpl in Hb.
  apply bind_Ok in Hb as (o & _ & Hb).
  injection Hb as -> -> -> -> -> -> ->.
  apply check_inputs_inv in Hc as (_ & _ & _ & _ & Hbsz).
  apply (split_heads_fused _ _ _ _ _ _ _ _ _ _ _ Hf) in Hs
    as (_ & Sk & Sv).
  done.
Qed.

(** C6 (the defect).  On the reference path a call that supplies a cache
    and reaches line 342 does what the claim says.  With no [prev_key] in the
    cache, the call's key and value are stored, viewed as
    [(bsz, heads, len, head_dim)], and attention runs on them.  With a
    [prev_key] and a [prev_value] of [P] positions, for every batch entry
    and head the stored rows come first and the call's rows follow, in key
    and in value; these joined tensors, of [P + len] positions, are what is
    stored over the old entries and what attention runs on, with source
    length [P + len].  On the fused path the same populated cache makes the
    call raise at [torch.cat] (line 350), the stored tensors being viewed
    with three axes and the call's key left with four; the cache stays as
    it was. *)
Theorem cache_merge :
  (∀ eng query key value (d : gmap string (tensor F)) kpm am rp pkv
     bsz tgt e src q k v,
     flash_attention eng = false →
     0 < num_heads eng → 0 < head_dim eng →
     before_cache eng query key value kpm pkv
       = Ok (bsz, tgt, e, src, q, k, v) →
     wf k → wf v →
     match d !! "prev_key" with
     | None =>
         forward eng query key value (Some d) kpm am rp pkv
         = (after_cache eng bsz tgt e tgt true q k v kpm am rp,
            Some (<["prev_value" :=
                      Tensor [bsz; num_heads eng; tgt; head_dim eng] (data v)]>
                    (<["prev_key" :=
                         Tensor [bsz; num_heads eng; tgt; head_dim eng]
                           (data k)]> d)))
     | Some pk =>
         ∀ pv (P : nat),
           d !! "prev_value" = Some pv →
           shape pk = [bsz; num_heads eng; P; head_dim eng] →
           shape pv = [bsz; num_heads eng; P; head_dim eng] →
           wf pk → wf pv →
           ∃ kc vc : list F,
             joined (bsz * num_heads eng) P tgt (head_dim eng)
               (data pk) (data k) kc ∧
             joined (bsz * num_heads eng) P tgt (head_dim eng)
               (data pv) (data v) vc ∧
             forward eng query key value (Some d) kpm am rp pkv
             = (after_cache eng bsz tgt e (P + tgt) true q
                  (Tensor [bsz * num_heads eng; P + tgt; head_dim eng] kc)
                  (Tensor [bsz * num_heads eng; P + tgt; head_dim eng] vc)
                  kpm am rp,
                Some (<["prev_value" :=
                          Tensor [bsz; num_heads eng; P + tgt; head_dim eng]
                            vc]>
                        (<["prev_key" :=
                             Tensor [bsz; num_heads eng; P + tgt; head_dim eng]
                               kc]> d)))
     end) ∧
  (∀ eng query key value (d : gmap string (tensor F)) kpm am rp pkv
     bsz tgt e src q k v pk pv (P : nat),
     flash_attention eng = true →
     0 < num_heads eng → 0 < head_dim eng →
     before_cache eng query key value kpm pkv
       = Ok (bsz, tgt, e, src, q, k, v) →
     d !! "prev_key" = Some pk → d !! "prev_value" = Some pv →
     shape pk = [bsz; num_heads eng; P; head_dim eng] →
     shape pv = [bsz; num_heads eng; P; head_dim eng] →
     forward eng query key value (Some d) kpm am rp pkv
     = (Err (RuntimeError "cat"), Some d)).
Proof.
  split.
  - intros eng query key value d kpm am rp pkv bsz tgt e src q k v
      Hf Hh Hd Hb Wk Wv.
    pose proof (cache_merge_cat eng query key value d kpm am rp pkv
                  bsz tgt e src q k v Hf Hh Hd Hb) as Hm.
    cbv zeta in Hm.
    destruct (before_cache_reference _ _ _ _ _ _ _ _ _ _ _ _ _ Hf Hb)
      as (_ & Sk & Sv & _).
    destruct (d !! "prev_key") as [pk|]; [|done].
    intros pv P Hpv Spk Spv Wpk Wpv.
    destruct (Hm pv P Hpv Spk Spv) as (kc & vc & Hkc & Hvc & _ & _ & Hfw).
    assert (∀ old : tensor F,
              shape old = [bsz; num_heads eng; P; head_dim eng] → wf old →
              wf (Tensor [bsz * num_heads eng; P; head_dim eng] (data old)))
      as Hview.
    { intros old So Wo. unfold wf in *. rewrite So in Wo. simpl in *. lia. }
    apply cat1_joined with (n := bsz * num_heads eng) (P := P) (L := tgt)
                           (D := head_dim eng) in Hkc as [Ekc Jk];
      [|done|done|by apply Hview|done].
    apply cat1_joined with (n := bsz * num_heads eng) (P := P) (L := tgt)
                           (D := head_dim eng) in Hvc as [Evc Jv];
      [|done|done|by apply Hview|done].
    exists (data kc), (data vc). split; [done|]. split; [done|].
    by rewrite <- Ekc, <- Evc.
  - intros eng query key value d kpm am rp pkv bsz tgt e src q k v pk pv P
      Hf Hh Hd Hb Hpk Hpv Spk Spv.
    destruct (before_cache_fused_shapes _ _ _ _ _ _ _ _ _ _ _ _ _ Hf Hb)
      as (Sk & Sv & Hbsz).
    assert (0 < bsz * num_heads eng * head_dim eng) as Hpos
      by (repeat apply Nat.mul_pos_pos; done).
    unfold forward. rewrite Hb. unfold merge_cache, load_prev.
    rewrite Hpk, Hpv.
    rewrite (view_infer_Ok pk [bsz * num_heads eng] [head_dim eng] P)
      by (rewrite ?Spk; simpl; lia).
    rewrite !Ok_bind.
    rewrite (view_infer_Ok pv [bsz * num_heads eng] [head_dim eng] P)
      by (rewrite ?Spv; simpl; lia).
    rewrite !Ok_bind.
    assert (cat1 (Tensor ([bsz * num_heads eng] ++ [P; head_dim eng])
                    (data pk)) k = Err (RuntimeError "cat")) as ->.
    { unfold cat1. simpl. rewrite Sk.
      rewrite decide_False; [done|]. intros [_ [=]]. }
    done.
Qed.

(** On the fused path a call never returns, and what it raises and what it
    leaves in the cache are settled before any mask or bias is read. *)
Lemma fused_path_raises eng query key value st kpm pkv :
  flash_attention eng = true →
  (∀ enc, xpos eng = Some enc → encoder_keeps_shape enc) →
  ∃ err st', ∀ am rp,
    forward eng query key value st kpm am rp pkv = (Err err, st').
Proof.
  intros Hf Henc. unfold forward.
  destruct (before_cache eng query key value kpm pkv)
    as [[[[[[[bsz tgt] e] src] q] k] v]|err] eqn:Hb; [|by exists err, st].
  assert (length (shape q) ≠ 3) as Hq by (by eapply before_cache_fused).
  destruct (merge_cache eng bsz src k v st) as [[[[k' v'] src']|err] st'];
    [|by exists err, st'].
  destruct (after_cache_rank eng bsz tgt e src' (bool_decide (is_Some st))
              q k' v' kpm Hq Henc) as (err & Herr).
  exists err, st'. intros am rp. by rewrite Herr.
Qed.

Lemma fused_path_never_returns eng query key value st kpm am rp pkv :
  flash_attention eng = true →
  (∀ enc, xpos eng = Some enc → encoder_keeps_shape enc) →
  is_ok (forward eng query key value st kpm am rp pkv).1 = false.
Proof.
  intros Hf Henc.
  destruct (fused_path_raises eng query key value st kpm pkv Hf Henc)
    as (err & st' & Hsame).
  by rewrite (Hsame am rp).
Qed.

(** C3 (as the code has it).  On an engine with the fused path enabled,
    whose position encoder (if any) keeps shapes, there is no check of the
    configuration: an additive mask and a relative bias passed to [forward]
    are neither handed to the kernel nor read before the call ends, and the
    call ends as the same call without them does, in its outcome and in
    what it leaves in the cache. *)
Theorem fused_path_ignores_mask_and_bias
    eng query key value st kpm am rp pkv :
  flash_attention eng = true →
  (∀ enc, xpos eng = Some enc → encoder_keeps_shape enc) →
  forward eng query key value st kpm am rp pkv
  = forward eng query key value st kpm None None pkv.
Proof.
  intros Hf Henc.
  destruct (fused_path_raises eng query key value st kpm pkv Hf Henc)
    as (err & st' & Hsame).
  by rewrite (Hsame am rp), (Hsame None None).
Qed.

(** *** Shapes of the result *)

Lemma reassemble_shapes eng bsz tgt e src attn aw a w :
  keeps_shape (out_proj eng) →
  (∀ ln, inner_attn_ln eng = Some ln → keeps_shape ln) →
  reassemble eng bsz tgt e src attn aw = Ok (a, w) →
  shape a = [bsz; tgt; e] ∧ shape w = [num_heads eng; bsz; tgt; src].
Proof.
  intros Hout Hln. unfold reassemble. intros H.
  apply bind_Ok in H as (a1 & Ha1 & H). apply bind_Ok in H as (a2 & Ha2 & H).
  apply bind_Ok in H as (a3 & Ha3 & H). apply bind_Ok in H as (a4 & Ha4 & H).
  apply bind_Ok in H as (a5 & Ha5 & H). apply bind_Ok in H as (w1 & Hw1 & H).
  apply bind_Ok in H as (w2 & Hw2 & H). injection H as <- <-.
  apply reshape_Ok in Ha2 as [-> _]. apply transpose_Ok in Ha3.
  apply view_Ok in Hw1 as [-> _]. apply transpose_Ok in Hw2.
  apply Hout in Ha5. split; [|done].
  rewrite Ha5. destruct (inner_attn_ln eng) as [ln|] eqn:El.
  - apply (Hln ln eq_refl) in Ha4. by rewrite Ha4.
  - by injection Ha4 as <-.
Qed.

Lemma cat1_inv (a b c : tensor F) n l d :
  shape b = [n; l; d] → cat1 a b = Ok c → ∃ l', shape c = [n; l' + l; d].
Proof.
  intros Hb. unfold cat1. rewrite Hb.
  destruct (shape a) as [|n1 [|l1 r1]]; try discriminate.
  case_decide as Hd; [|discriminate]. destruct Hd as [-> ->].
  intros [= <-]. by exists l1.
Qed.

Lemma view_infer_inv (t t' : tensor F) a b l d :
  shape t = [a * b; l; d] → view_infer t [a; b] [d] = Ok t' →
  shape t' = [a; b; l; d].
Proof.
  intros Ht. unfold view_infer. case_decide as Hk; [discriminate|].
  case_decide; [|discriminate]. intros [= <-]. simpl.
  rewrite Ht. simpl in *. do 2 f_equal.
  replace (a * b * (l * (d * 1))) with (l * (a * (b * 1) * (d * 1))) by lia.
  by rewrite Nat.div_mul.
Qed.

Lemma merge_cache_reference eng bsz tgt src k v st k1 v1 src1 st' :
  shape k = [bsz * num_heads eng; tgt; head_dim eng] →
  merge_cache eng bsz src k v st = (Ok (k1, v1, src1), st') →
  match st with
  | None => st' = None ∧ src1 = src
  | Some _ =>
      ∃ d' pk, st' = Some d' ∧ d' !! "prev_key" = Some pk ∧
        shape pk = [bsz; num_heads eng; src1; head_dim eng]
  end.
Proof.
  intros Sk. unfold merge_cache. destruct st as [d|]; [|by intros [= <- <- <- <-]].
  destruct (load_prev eng bsz d k v) as [[k2 v2]|] eqn:Hl; [|discriminate].
  assert (∃ l, shape k2 = [bsz * num_heads eng; l; head_dim eng]) as [l Sk2].
  { unfold load_prev in Hl. destruct (d !! "prev_key") as [pk0|].
    - ok_inv Hl. injection Hl as <- <-.
      apply (cat1_inv _ _ _ _ _ _ Sk) in Hx2 as [l' ?]. eauto.
    - injection Hl as <- <-. eauto. }
  unfold store_kv.
  destruct (view_infer k2 _ _) as [kview|] eqn:Hkv; [|discriminate].
  destruct (view_infer v2 _ _) as [vview|] eqn:Hvv; [|discriminate].
  unfold size1. rewrite Sk2. simpl. intros [= <- <- <- <-].
  eexists _, kview. split; [done|]. split.
  - rewrite lookup_insert_ne by done. by rewrite lookup_insert_eq.
  - by eapply view_infer_inv.
Qed.

(** C8 (as the code has it).  When a call returns, and the adapters behind
    the output and the position encoder keep shapes, the first tensor
    returned has shape (batch, target length, embedding width) and the
    second has shape (heads, batch, target length, source length), heads
    first (line 408 exchanges the first two axes).  The source length is
    the key's when no cache is passed, and the length stored in the cache
    after the call otherwise. *)
Theorem forward_result_shapes eng query key value st kpm am rp pkv a w st' :
  keeps_shape (out_proj eng) →
  (∀ ln, inner_attn_ln eng = Some ln → keeps_shape ln) →
  (∀ enc, xpos eng = Some enc → encoder_keeps_shape enc) →
  forward eng query key value st kpm am rp pkv = (Ok (a, w), st') →
  ∃ bsz tgt src,
    shape query = [bsz; tgt; embed_dim eng] ∧
    shape a = [bsz; tgt; embed_dim eng] ∧
    shape w = [num_heads eng; bsz; tgt; src] ∧
    match st' with
    | None => ∃ e, shape key = [bsz; src; e]
    | Some d' =>
        ∃ pk, d' !! "prev_key" = Some pk ∧
          shape pk = [bsz; num_heads eng; src; head_dim eng]
    end.
Proof.
  intros Hout Hln Henc Hfw.
  destruct (flash_attention eng) eqn:Hf.
  { pose proof (fused_path_never_returns eng query key value st kpm am rp pkv
                  Hf Henc) as Hno.
    by rewrite Hfw in Hno. }
  unfold forward in Hfw.
  destruct (before_cache eng query key value kpm pkv)
    as [[[[[[[bsz tgt] e] src] q] k] v]|err] eqn:Hb; [|discriminate].
  destruct (before_cache_reference _ _ _ _ _ _ _ _ _ _ _ _ _ Hf Hb)
    as (Sq & Sk & Sv & Squery & -> & [e' Skey] & Hbsz & _).
  destruct (merge_cache eng bsz src k v st) as [[[[k1 v1] src1]|err] st1] eqn:Hm;
    [|discriminate].
  injection Hfw as Hafter <-.
  apply (merge_cache_reference _ _ _ _ _ _ _ _ _ _ _ Sk) in Hm.
  unfold after_cache in Hafter.
  apply bind_Ok in Hafter as ([q2 k2] & _ & Hafter).
  apply bind_Ok in Hafter as ([attn aw] & _ & Hafter).
  apply reassemble_shapes in Hafter as [Sa Sw]; [|done..].
  exists bsz, tgt, src1. split_and!; try done.
  destruct st as [d|].
  - destruct Hm as (d' & pk & -> & Hpk & Spk). eauto.
  - destruct Hm as [-> ->]. eauto.
Qed.

(** *** Data through arithmetic on tensors of one shape *)

Lemma unravel_length s i : length (unravel s i) = length s.
Proof. revert i. induction s as [|d s IH]; intros i; simpl; [done|by rewrite IH]. Qed.

Lemma ravel_zip_unravel s i :
  i < numel s →
  ravel s (zip_with (fun d i => if decide (d = 1) then 0 else i) s (unravel s i))
  = i.
Proof.
  revert i. induction s as [|d s IH]; intros i Hi; simpl in *; [lia|].
  assert (0 < numel s) as Hm by (destruct (numel s); lia).
  rewrite IH by (apply Nat.mod_upper_bound; lia).
  pose proof (Nat.div_mod_eq i (numel s)) as Hdm.
  case_decide as Hd.
  - subst d. rewrite Nat.mod_small by lia. lia.
  - lia.
Qed.

Lemma ravel_broadcast_unravel s i :
  i < numel s → ravel s (broadcast_index s (unravel s i)) = i.
Proof.
  unfold broadcast_index. rewrite unravel_length, Nat.sub_diag.
  apply ravel_zip_unravel.
Qed.

Lemma omap_lookup_id {A} (l : list A) (g : nat → nat) n :
  n ≤ length l → (∀ i, i < n → g i = i) →
  omap (fun i => l !! g i) (seq 0 n) = take n l.
Proof.
  induction n as [|n IH]; intros Hn Hg; [done|].
  rewrite seq_S, omap_app, IH by (intros; (lia || apply Hg; lia)).
  simpl. rewrite Hg by lia.
  destruct (lookup_lt_is_Some_2 l n) as [x Hx]; [lia|].
  rewrite Hx. simpl. by rewrite (take_S_r _ _ x).
Qed.

Lemma gather_self {A} (t : tensor A) :
  wf t → gather t (shape t) (broadcast_index (shape t)) = t.
Proof.
  intros Hwf. destruct t as [s l]. unfold wf in Hwf. simpl in *.
  unfold gather. simpl. f_equal.
  rewrite (omap_lookup_id l (fun i => ravel s (broadcast_index s (unravel s i))))
    by (intros; (lia || by apply ravel_broadcast_unravel)).
  rewrite <- Hwf. apply firstn_all.
Qed.

Lemma tmul_data (a b : tensor F) :
  shape b = shape a → wf a → wf b →
  tmul a b = Ok (Tensor (shape a) (zip_with fmul (data a) (data b))).
Proof.
  intros Hs Ha Hb. rewrite tmul_same_shape by done.
  rewrite (gather_self a Ha). rewrite <- Hs, (gather_self b Hb). by rewrite Hs.
Qed.

Lemma tadd_data (a b : tensor F) :
  shape b = shape a → wf a → wf b →
  tadd a b = Ok (Tensor (shape a) (zip_with fadd (data a) (data b))).
Proof.
  intros Hs Ha Hb. rewrite tadd_same_shape by done.
  rewrite (gather_self a Ha). rewrite <- Hs, (gather_self b Hb). by rewrite Hs.
Qed.

(** *** The relative bias *)

(** C7.  In a call that returns with a relative bias [rp] passed, the bias,
    viewed at the shape of the scores, is added to the softmax of the
    (masked) scores, entry by entry; that sum, in half precision, is the
    weight tensor handed to the reassembly and to dropout, and dropout's
    result, back in single precision, is what multiplies the value.  The
    scores are those of the query and key the earlier steps of the call
    hand over. *)
Theorem relative_bias_added_after_softmax
    eng query key value st kpm am rp pkv a w st' :
  forward eng query key value st kpm am (Some rp) pkv = (Ok (a, w), st') →
  ∃ bsz tgt e src0 q0 k0 v0 k1 v src q k scores bias sum attn,
    before_cache eng query key value kpm pkv
      = Ok (bsz, tgt, e, src0, q0, k0, v0) ∧
    merge_cache eng bsz src0 k0 v0 st = (Ok (k1, v, src), st') ∧
    apply_xpos eng (bool_decide (is_Some st)) src q0 k1 = Ok (q, k) ∧
    masked_scores eng bsz tgt src q k kpm am = Ok scores ∧
    view rp (shape scores) = Ok bias ∧
    tadd (softmax scores) bias = Ok sum ∧
    shape sum = shape scores ∧
    (wf (softmax scores) → wf rp →
       data sum = zip_with fadd (data (softmax scores)) (data rp)) ∧
    bmm (tmap to_float32 (dropout_module eng (tmap to_float16 sum))) v
      = Ok attn ∧
    reassemble eng bsz tgt e src attn (tmap to_float16 sum) = Ok (a, w).
Proof.
  unfold forward. intros Hfw.
  destruct (before_cache eng query key value kpm pkv)
    as [[[[[[[bsz tgt] e] src0] q0] k0] v0]|err] eqn:Hb; [|discriminate].
  destruct (merge_cache eng bsz src0 k0 v0 st) as [[[[k1 v1] src1]|err] st1]
    eqn:Hm; [|discriminate].
  injection Hfw as Hafter <-. unfold after_cache in Hafter.
  apply bind_Ok in Hafter as ([q2 k2] & Hxp & Hafter).
  apply bind_Ok in Hafter as ([attn aw] & Hatt & Hre).
  unfold attend in Hatt.
  apply bind_Ok in Hatt as (scores & Hsc & Hatt).
  apply bind_Ok in Hatt as (sum & Hsum & Hatt).
  apply bind_Ok in Hatt as (attn' & Hbmm & Hatt).
  injection Hatt as <- <-.
  apply bind_Ok in Hsum as (bias & Hview & Hsum).
  change (shape (softmax scores)) with (shape scores) in Hview.
  exists bsz, tgt, e, src0, q0, k0, v0, k1, v1, src1, q2, k2.
  exists scores, bias, sum, attn'.
  split_and!; try done.
  - apply view_Ok in Hview as [-> _].
    rewrite tadd_same_shape in Hsum by done. by injection Hsum as <-.
  - intros Hwf Hrp. apply view_Ok in Hview as [-> Hn].
    rewrite tadd_data in Hsum; [by injection Hsum as <-|done..|].
    unfold wf in *. simpl. by rewrite Hrp.
Qed.

(** *** Pruning *)

Lemma numel_app s1 s2 : numel (s1 ++ s2) = numel s1 * numel s2.
Proof. induction s1 as [|a s1 IH]; simpl; [lia|]. rewrite IH. lia. Qed.

Lemma numel_last s n :
  last s = Some n → numel s = numel (removelast s) * n.
Proof.
  intros [s' ->]%last_Some. rewrite removelast_last, numel_app. simpl. lia.
Qed.

Lemma length_chunks {A} c n (l : list A) : length (chunks c n l) = c.
Proof. revert l. induction c as [|c IH]; intros l; simpl; [done|by rewrite IH]. Qed.

Lemma concat_chunks {A} c n (l : list A) :
  length l = c * n → concat (chunks c n l) = l.
Proof.
  revert l. induction c as [|c IH]; intros l Hl; simpl.
  - by destruct l.
  - rewrite IH by (rewrite length_drop; lia). apply take_drop.
Qed.

Lemma chunks_lengths {A} c n (l : list A) :
  length l = c * n → Forall (fun r => length r = n) (chunks c n l).
Proof.
  revert l. induction c as [|c IH]; intros l Hl; simpl; constructor.
  - rewrite length_take. lia.
  - apply IH. rewrite length_drop. lia.
Qed.

Lemma chunks_Forall {A} (P : A → Prop) c n (l : list A) :
  Forall P l → Forall (Forall P) (chunks c n l).
Proof.
  revert l. induction c as [|c IH]; intros l Hl; simpl; constructor.
  - by apply Forall_take.
  - by apply IH, Forall_drop.
Qed.

Lemma chunks_concat {A} n (ls : list (list A)) :
  Forall (fun r => length r = n) ls → chunks (length ls) n (concat ls) = ls.
Proof.
  induction 1 as [|r ls Hr _ IH]; simpl; [done|].
  rewrite take_app_length', drop_app_length' by done. by rewrite IH.
Qed.

Lemma length_concat_uniform {A} n (ls : list (list A)) :
  Forall (fun r => length r = n) ls → length (concat ls) = length ls * n.
Proof.
  induction 1 as [|r ls Hr _ IH]; simpl; [done|].
  rewrite length_app, IH. lia.
Qed.

Lemma zip_with_concat {A B C} (f : A → B → C) xs ys :
  Forall2 (fun x y => length x = length y) xs ys →
  zip_with f (concat xs) (concat ys) = concat (zip_with (zip_with f) xs ys).
Proof.
  induction 1 as [|x y xs ys Hxy _ IH]; simpl; [done|].
  by rewrite zip_with_app, IH.
Qed.

Lemma length_scatter_row n idx : length (scatter_row n idx) = n.
Proof.
  unfold scatter_row. induction idx as [|i idx IH]; simpl.
  - apply length_replicate.
  - by rewrite length_insert.
Qed.

Lemma lookup_scatter_row n idx j :
  j < n →
  scatter_row n idx !! j = Some (if decide (j ∈ idx) then fone else fzero).
Proof.
  intros Hj. unfold scatter_row. induction idx as [|i idx IH]; cbn [foldr].
  - rewrite lookup_replicate_2 by done. case_decide; [set_solver|done].
  - destruct (decide (i = j)) as [->|Hne].
    + rewrite list_lookup_insert_eq
        by (fold (scatter_row n idx); by rewrite length_scatter_row).
      rewrite decide_True; [done|]. apply elem_of_cons. by left.
    + rewrite list_lookup_insert_ne, IH by done.
      destruct (decide (j ∈ idx)) as [Hin|Hin].
      * rewrite decide_True; [done|]. apply elem_of_cons. by right.
      * rewrite decide_False; [done|]. intros [?|?]%elem_of_cons; congruence.
Qed.

(** One vector times its 0/1 mask. *)
Lemma prune_row_spec (row : list F) (k : nat) (idx : list nat) :
  Forall regular row → topk_ok row k idx →
  row_pruned k row (zip_with fmul row (scatter_row (length row) idx)).
Proof.
  intros Hreg Hok. exists idx. split; [done|]. split.
  - rewrite length_zip_with, length_scatter_row. lia.
  - intros j x Hj. rewrite lookup_zip_with, Hj. simpl.
    rewrite lookup_scatter_row by (by eapply lookup_lt_Some). simpl.
    rewrite Forall_lookup in Hreg. destruct (Hreg j x Hj) as [H1 H0].
    by case_decide; f_equal.
Qed.

Lemma topk_all (row : list F) (idx : list nat) (j : nat) :
  topk_ok row (length row) idx → j < length row → j ∈ idx.
Proof.
  intros (Hnd & Hlen & Hlt & _) Hj.
  assert (idx ⊆+ seq 0 (length row)) as Hsub.
  { apply NoDup_submseteq; [done|]. intros i Hi. apply elem_of_seq.
    specialize (Hlt i Hi). lia. }
  apply submseteq_length_Permutation in Hsub; [|rewrite length_seq; lia].
  rewrite Hsub. apply elem_of_seq. lia.
Qed.

Lemma prune_row_all (row : list F) (idx : list nat) :
  Forall regular row → topk_ok row (length row) idx →
  zip_with fmul row (scatter_row (length row) idx) = row.
Proof.
  intros Hreg Hok. apply list_eq. intros j.
  rewrite lookup_zip_with.
  destruct (row !! j) as [x|] eqn:Hj; simpl; [|done].
  assert (j < length row) as Hlt by (by eapply lookup_lt_Some).
  rewrite lookup_scatter_row by done. simpl.
  rewrite decide_True by (by eapply topk_all).
  rewrite Forall_lookup in Hreg. by destruct (Hreg j x Hj) as [-> _].
Qed.

(** The mask of lines 270-271 for a given [k], and the product of line 272:
    every vector keeps [k] entries that [torch.topk] ranks highest. *)
Lemma pruned_rows (t : tensor F) (n k : nat) :
  wf t → last (shape t) = Some n →
  Forall regular (data t) →
  (∀ row, length row = n → topk_ok row k (topk_row row k)) →
  ∃ t',
    tmul t (Tensor (shape t)
              (concat (scatter_row n <$>
                         ((fun row => topk_row row k) <$> rows t)))) = Ok t' ∧
    shape t' = shape t ∧
    Forall2 (row_pruned k) (rows t) (rows t') ∧
    (k = n → t' = t).
Proof.
  intros Hwf Hlast Hreg Htopk.
  pose proof (numel_last _ _ Hlast) as Hnum.
  set (c := numel (removelast (shape t))) in *.
  assert (length (data t) = c * n) as Hlen by (unfold wf in Hwf; lia).
  assert (rows t = chunks c n (data t)) as Hrows by (unfold rows; by rewrite Hlast).
  pose proof (chunks_lengths c n (data t) Hlen) as Hrl.
  pose proof (chunks_Forall regular c n (data t) Hreg) as Hrr.
  rewrite <- Hrows in Hrl, Hrr.
  set (masks := scatter_row n <$> ((fun row => topk_row row k) <$> rows t)).
  assert (Forall (fun m => length m = n) masks) as Hml.
  { apply Forall_fmap, Forall_true. intros idx. apply length_scatter_row. }
  assert (length masks = c) as Hmc
    by (unfold masks; rewrite !length_fmap, Hrows; apply length_chunks).
  assert (Forall2 (fun x y : list F => length x = length y) (rows t) masks)
    as Hsame.
  { unfold masks. rewrite <- list_fmap_compose. apply Forall2_fmap_r.
    apply Forall_Forall2_diag. eapply Forall_impl; [exact Hrl|]. simpl.
    intros row Hrow. by rewrite length_scatter_row. }
  assert (zip_with (zip_with fmul) (rows t) masks
          = (fun row => zip_with fmul row (scatter_row n (topk_row row k)))
              <$> rows t) as Hzip.
  { unfold masks.
    by rewrite <- list_fmap_compose, zip_with_fmap_r, zip_with_diag. }
  assert (rows (Tensor (shape t) (zip_with fmul (data t) (concat masks)))
          = zip_with (zip_with fmul) (rows t) masks) as Hrows'.
  { unfold rows at 1. simpl. rewrite Hlast. fold c.
    rewrite <- (concat_chunks c n (data t) Hlen) at 1. rewrite <- Hrows.
    rewrite zip_with_concat by done.
    assert (length (zip_with (zip_with fmul) (rows t) masks) = c) as Hzc.
    { rewrite length_zip_with, Hmc, Hrows, length_chunks. lia. }
    pose proof (chunks_concat n (zip_with (zip_with fmul) (rows t) masks)) as Hcc.
    rewrite Hzc in Hcc. apply Hcc. rewrite Hzip.
    apply Forall_fmap. eapply Forall_impl; [exact Hrl|]. simpl.
    intros row Hrow. rewrite length_zip_with, length_scatter_row. lia. }
  exists (Tensor (shape t) (zip_with fmul (data t) (concat masks))).
  split_and!; [|done|..].
  - apply tmul_data; [done..|].
    unfold wf. simpl. rewrite (length_concat_uniform n) by done. lia.
  - rewrite Hrows', Hzip.
    apply Forall2_fmap_r, Forall_Forall2_diag.
    rewrite Forall_forall in Hrl, Hrr. apply Forall_forall. intros row Hin.
    simpl. rewrite <- (Hrl row Hin). apply prune_row_spec; [by apply Hrr|].
    apply Htopk. by apply Hrl.
  - intros Hk. destruct t as [s l]. simpl in *. f_equal.
    rewrite <- (concat_chunks c n l Hlen) at 2. rewrite <- Hrows.
    rewrite <- (concat_chunks c n l Hlen) at 1. rewrite <- Hrows.
    rewrite zip_with_concat by done. f_equal. rewrite Hzip.
    rewrite <- (list_fmap_id (rows _)) at 2. apply list_fmap_ext.
    intros i row Hi. simpl.
    assert (row ∈ rows {| shape := s; data := l |}) as Hin
      by (by eapply list_elem_of_lookup_2).
    rewrite Forall_forall in Hrl, Hrr.
    rewrite <- (Hrl row Hin). apply prune_row_all; [by apply Hrr|].
    rewrite (Hrl row Hin). rewrite <- Hk at 1. apply Htopk. by apply Hrl.
Qed.

(** C5 (as the code has it).  For a well-formed tensor of regular entries
    whose last axis has [n] positions, [0 < n < 2^53], and a float [top_k]
    in (0, 1], line 269 gives [p = int(n * top_k)] with [0 <= p <= n], the
    product being the binary64 one; [apply_pruning] returns a tensor of the
    same shape in which, in every vector along the last axis,
    [k = max(p, 1)] positions keep their entry and all others are zero, no
    kept entry being smaller (in the order of [torch.topk], the signed one)
    than an entry zeroed; at 0.5 [p] is [n] halved and rounded down; with
    [top_k] equal to 1.0 the tensor comes back unchanged. *)
Theorem apply_pruning_keeps_largest (t : tensor F) (top_k : pyfloat) n :
  wf t → last (shape t) = Some n → 0 < n → (Z.of_nat n < 2 ^ 53)%Z →
  unit_fraction top_k →
  Forall regular (data t) →
  (∀ (row : list F) (k : nat),
     length row = n → 0 < k ≤ n → topk_ok row k (topk_row row k)) →
  ∃ p t',
    int_times n top_k = Ok p ∧ (0 ≤ p ≤ Z.of_nat n)%Z ∧
    apply_pruning t top_k = Ok t' ∧ shape t' = shape t ∧
    Forall2 (row_pruned (Z.to_nat (p `max` 1))) (rows t) (rows t') ∧
    (top_k = one_half → p = Z.of_nat (n / 2)) ∧
    (is_one top_k → t' = t).
Proof.
  intros Hwf Hlast Hn Hsmall Hunit Hreg Htopk.
  destruct (int_times_unit_fraction (Z.of_nat n) top_k)
    as (p & Hp & Hrange & Hone); [lia|done|].
  fold (int_times n top_k) in Hp.
  destruct (pruned_rows t n (Z.to_nat (p `max` 1)) Hwf Hlast Hreg)
    as (t' & Ht' & Hshape & Hrows & Hall).
  { intros row Hrow. apply Htopk; [done|lia]. }
  exists p, t'. split; [done|]. split; [lia|]. split.
  { unfold apply_pruning. rewrite Hlast, Hp, Ok_bind.
    by rewrite decide_True by lia. }
  split; [done|]. split; [done|]. split.
  - intros ->. rewrite int_times_one_half_small in Hp by done.
    by injection Hp as <-.
  - intros H1. apply Hall. rewrite (Hone H1). lia.
Qed.

(** *** The input checks *)

(** A key of another batch size than the query's stops at line 291. *)
Lemma key_batch_mismatch_asserts eng query key value bsz tgt kb src e :
  shape query = [bsz; tgt; embed_dim eng] → shape key = [kb; src; e] →
  kb ≠ bsz →
  check_inputs eng query key value = Err AssertionError.
Proof.
  intros Hq Hk Hne. unfold check_inputs, size3. rewrite Hq, Hk. simpl.
  rewrite (bool_decide_eq_true_2 (embed_dim eng = embed_dim eng)) by done.
  simpl. by rewrite (bool_decide_eq_false_2 (kb = bsz)).
Qed.

(** The checks of lines 286-293 look at the value only to see that there is
    one: its shape plays no part in them. *)
Lemma check_inputs_any_value eng query key v v' bsz tgt e src :
  check_inputs eng query key (Some v) = Ok (bsz, tgt, e, src, v) →
  check_inputs eng query key (Some v') = Ok (bsz, tgt, e, src, v').
Proof.
  intros H. apply check_inputs_inv in H as (Hq & -> & [e' Hk] & _ & Hb).
  by eapply check_inputs_Ok.
Qed.

End ForwardProperties.

(** ** The integer-valued instance *)

Lemma regular_Fin (z : Z) : regular (Ex.Fin z).
Proof. split; simpl; f_equal; lia. Qed.

Lemma Forall_regular_vec s l : Forall regular (data (Ex.vec s l)).
Proof. simpl. apply Forall_fmap, Forall_true. intros z. apply regular_Fin. Qed.

Lemma xz_leb_total a b : Ex.xz_leb a b = true ∨ Ex.xz_leb b a = true.
Proof.
  destruct a as [|x], b as [|y]; simpl; auto.
  destruct (decide (x ≤ y)%Z).
  - left. by apply bool_decide_eq_true.
  - right. apply bool_decide_eq_true. lia.
Qed.

Lemma xz_leb_trans a b c :
  Ex.xz_leb a b = true → Ex.xz_leb b c = true → Ex.xz_leb a c = true.
Proof.
  destruct a as [|x], b as [|y], c as [|z]; simpl; try done.
  rewrite !bool_decide_eq_true. lia.
Qed.

#[local] Instance by_value_total row : Total (Ex.by_value row).
Proof. intros i j. unfold Ex.by_value. apply xz_leb_total. Qed.

#[local] Instance by_value_trans row : Transitive (Ex.by_value row).
Proof. intros i j l Hij Hjl. unfold Ex.by_value in *. by eapply xz_leb_trans. Qed.

(** The stand-in for [torch.topk] keeps the promise of [topk_ok]. *)
Lemma sort_topk_ok (row : list Ex.xz) (k : nat) :
  k ≤ length row → topk_ok row k (Ex.sort_topk row k).
Proof.
  intros Hk. unfold Ex.sort_topk.
  set (L := merge_sort (Ex.by_value row) (seq 0 (length row))).
  assert (L ≡ₚ seq 0 (length row)) as Hperm by apply merge_sort_Permutation.
  assert (NoDup L) as Hnd by (rewrite Hperm; apply NoDup_seq).
  assert (StronglySorted (Ex.by_value row) L) as Hsort
    by (apply StronglySorted_merge_sort; apply _).
  rewrite <- (take_drop k L) in Hnd, Hsort.
  apply NoDup_app in Hnd as (Hnd & _ & _).
  split_and!.
  - done.
  - rewrite length_take, Hperm, length_seq. lia.
  - intros i [n [Hn _]]%elem_of_take.
    apply list_elem_of_lookup_2 in Hn. rewrite Hperm in Hn.
    apply elem_of_seq in Hn. lia.
  - intros i j x y Hi Hj Hx Hy.
    assert (j ∈ drop k L) as Hj'.
    { assert (j ∈ L) as HjL.
      { rewrite Hperm. apply elem_of_seq. apply lookup_lt_Some in Hy. lia. }
      rewrite <- (take_drop k L) in HjL. apply elem_of_app in HjL as [|]; done. }
    pose proof (StronglySorted_app_1_elem_of _ _ _ i j Hsort Hi Hj') as HR.
    unfold Ex.by_value in HR. by rewrite Hx, Hy in HR.
Qed.

Lemma diagonal_projects e c : projects e (Ex.diagonal e c).
Proof.
  intros t Ht. unfold Ex.diagonal. rewrite decide_True by done. eauto.
Qed.

Lemma diagonal_keeps_shape e c : keeps_shape (Ex.diagonal e c).
Proof.
  intros t t'. unfold Ex.diagonal. case_decide; [|discriminate].
  by intros [= <-].
Qed.

(** [init] on the plain parts: the object it returns serves as the engines
    of the examples.  It stops on a head count of zero, on a head width of
    zero, on a head width no float holds, on both or neither kind of
    attention, and on a failing read of [args]; a negative head count is
    accepted, and gives an object with a negative head width and a complex
    scaling, which no engine stands for. *)
Example init_engine_of :
  init (Ex.plain_parts 2 1) 2 2 true false false false false
    ≫= (fun o => Ok (serve o))
  = Ok (Some (Ex.engine_of 2 2 1 None)) ∧
  init (Ex.plain_parts 8 1) 8 1 true false false false true
    ≫= (fun o => Ok (serve o))
  = Ok (Some (Ex.engine_of 8 1 1 (Some Ex.echo_kernel))) ∧
  init (Ex.plain_parts 2 1) 2 0 true false false false false
  = Err ZeroDivisionError ∧
  init (Ex.plain_parts 2 1) 2 3 true false false false false
  = Err ZeroDivisionError ∧
  init (Ex.plain_parts 2 1) (2 ^ 1024) 1 true false false false false
  = Err OverflowError ∧
  init (Ex.plain_parts 2 1) 2 2 true true false false false
  = Err AssertionError ∧
  init (Ex.plain_parts 2 1) 2 2 false false false false false
  = Err AssertionError ∧
  init (Ex.parts_without_flash_config 2 1) 2 2 true false false false false
  = Err (AttributeError "flash_config") ∧
  init (Ex.plain_parts 4 1) 4 (-1) true false false false false
    ≫= (fun o => Ok (self_num_heads o, self_head_dim o, self_scaling o, serve o))
  = Ok ((-1)%Z, (-4)%Z, ComplexPower, None).
Proof. repeat split. Qed.

(** ** The claims on concrete calls *)

(** C1 on a call: one token, two heads, the one source position marked as
    padding.  The call stops at line 333. *)
Example padding_mask_call :
  forward (Ex.engine_of 2 2 1 None) (Ex.token 3 5) (Ex.token 3 5)
    (Some (Ex.token 3 5)) None (Some (Tensor [1; 1] [true])) None None false
  = (Err (UnboundLocalError "attn_weights"), None).
Proof. vm_compute. reflexivity. Qed.

(** C2 on a call whose projections double their input: the key [1; 4] and
    the value [6; 7] are doubled although [precomputed_kv] is true. *)
Lemma precomputed_kv_still_projects_witness :
  ∃ val q k v,
    Some (Ex.token 6 7) = Some val ∧
    project (Ex.engine_of 2 2 2 None) (Ex.token 3 5) (Ex.token 1 4) val true
      = Ok (q, k, v) ∧
    Ex.diagonal 2 2 (Ex.token 1 4) = Ok k ∧
    Ex.diagonal 2 2 val = Ok v ∧
    forward (Ex.engine_of 2 2 2 None) (Ex.token 3 5) (Ex.token 1 4)
      (Some (Ex.token 6 7)) None None None None false
    = (Ok (Ex.vec [1; 1; 2] [0; 14]%Z, Ex.vec [2; 1; 1; 1] [1; 1]%Z), None).
Proof.
  apply (precomputed_kv_still_projects (Ex.engine_of 2 2 2 None)
           (Ex.token 3 5) (Ex.token 1 4) (Some (Ex.token 6 7))
           None None None None).
  vm_compute. reflexivity.
Defined.

Example precomputed_kv_call :
  project (Ex.engine_of 2 2 2 None) (Ex.token 3 5) (Ex.token 1 4)
    (Ex.token 6 7) true
  = Ok (Ex.token 6 10, Ex.token 2 8, Ex.token 12 14).
Proof. reflexivity. Qed.

(** C3, counterexample.  Fused path, one head of width eight, one token,
    a kernel that returns: with an additive mask, with a relative bias and
    with neither, the call ends in the same [RuntimeError] of [torch.bmm] at
    line 368. *)
Lemma fused_path_has_no_error_of_its_own :
  forward (Ex.engine_of 8 1 1 (Some Ex.echo_kernel)) Ex.wide Ex.wide
    (Some Ex.wide) None None (Some (Ex.vec [1; 1; 1] [0]%Z)) None false
  = (Err (RuntimeError "bmm"), None) ∧
  forward (Ex.engine_of 8 1 1 (Some Ex.echo_kernel)) Ex.wide Ex.wide
    (Some Ex.wide) None None None (Some (Ex.vec [1; 1; 1] [1]%Z)) false
  = (Err (RuntimeError "bmm"), None) ∧
  forward (Ex.engine_of 8 1 1 (Some Ex.echo_kernel)) Ex.wide Ex.wide
    (Some Ex.wide) None None None None false
  = (Err (RuntimeError "bmm"), None).
Proof. repeat split; vm_compute; reflexivity. Qed.

(** With a kernel that refuses its input the three calls end at line 321,
    in the kernel's exception. *)
Example fused_path_kernel_error :
  forward (Ex.engine_of 8 1 1 (Some Ex.refusing_kernel)) Ex.wide Ex.wide
    (Some Ex.wide) None None (Some (Ex.vec [1; 1; 1] [0]%Z)) None false
  = (Err (RuntimeError "flash_mha"), None) ∧
  forward (Ex.engine_of 8 1 1 (Some Ex.refusing_kernel)) Ex.wide Ex.wide
    (Some Ex.wide) None None None (Some (Ex.vec [1; 1; 1] [1]%Z)) false
  = (Err (RuntimeError "flash_mha"), None) ∧
  forward (Ex.engine_of 8 1 1 (Some Ex.refusing_kernel)) Ex.wide Ex.wide
    (Some Ex.wide) None None None None false
  = (Err (RuntimeError "flash_mha"), None).
Proof. repeat split; vm_compute; reflexivity. Qed.

(** The same call with a mask and a bias and without: one outcome. *)
Lemma fused_path_ignores_mask_and_bias_witness :
  forward (Ex.engine_of 8 1 1 (Some Ex.echo_kernel)) Ex.wide Ex.wide
    (Some Ex.wide) None None (Some (Ex.vec [1; 1; 1] [0]%Z))
    (Some (Ex.vec [1; 1; 1] [1]%Z)) false
  = forward (Ex.engine_of 8 1 1 (Some Ex.echo_kernel)) Ex.wide Ex.wide
      (Some Ex.wide) None None None None false.
Proof.
  apply (fused_path_ignores_mask_and_bias
           (Ex.engine_of 8 1 1 (Some Ex.echo_kernel))).
  - reflexivity.
  - intros enc Henc. discriminate Henc.
Defined.

(** C4 on a call.  One head of width eight, one token, no mask, no bias,
    dropout the identity.  The reference path returns the pruned value (its
    four largest entries) with weight one.  The fused path raises: at line
    368 when the kernel returns, its results being bound at line 321 and
    never read, and at line 321 when the kernel itself raises. *)
Theorem fused_path_diverges_from_reference :
  forward (Ex.engine_of 8 1 1 None) Ex.wide Ex.wide (Some Ex.wide)
    None None None None false
  = (Ok (Ex.vec [1; 1; 8] [0; 0; 7; 0; 8; 0; 6; 5]%Z,
         Ex.vec [1; 1; 1; 1] [1]%Z), None) ∧
  forward (Ex.engine_of 8 1 1 (Some Ex.echo_kernel)) Ex.wide Ex.wide
    (Some Ex.wide) None None None None false
  = (Err (RuntimeError "bmm"), None) ∧
  forward (Ex.engine_of 8 1 1 (Some Ex.refusing_kernel)) Ex.wide Ex.wide
    (Some Ex.wide) None None None None false
  = (Err (RuntimeError "flash_mha"), None).
Proof. repeat split; vm_compute; reflexivity. Qed.

(** Line 269 multiplies in binary64: the floats Python writes for 15/22,
    0.29, 1/3, 48/47, 4/3 and 2/3, at the sizes 22, 100, 6, 47, 3 and 3. *)
Example int_times_is_binary64 :
  int_times 22 (FFinite false 6141272219141585 (-53)) = Ok 14%Z ∧
  int_times 100 (FFinite false 5224175567749775 (-54)) = Ok 28%Z ∧
  int_times 6 (FFinite false 6004799503160661 (-54)) = Ok 2%Z ∧
  int_times 47 (FFinite false 4599420896037953 (-52)) = Ok 47%Z ∧
  int_times 3 (FFinite false 6004799503160661 (-52)) = Ok 4%Z ∧
  int_times 3 Ex.two_thirds = Ok 2%Z ∧
  int_times 5 FNan = Err ValueError ∧
  int_times 5 (FInf false) = Err OverflowError.
Proof. repeat split. Qed.

(** C5, counterexample.  With ratio 0.5: of three entries one is kept, not
    the two that rounding up gives; of [-5; 1] the entry kept is [1], not
    the one of largest magnitude; and a tensor whose last axis is empty is
    refused by [torch.topk]. *)
Lemma apply_pruning_floor_and_sign :
  apply_pruning (Ex.vec [1; 3] [3; 2; 1]%Z) one_half
  = Ok (Ex.vec [1; 3] [3; 0; 0]%Z) ∧
  apply_pruning (Ex.vec [1; 2] [-5; 1]%Z) one_half
  = Ok (Ex.vec [1; 2] [0; 1]%Z) ∧
  apply_pruning (Ex.vec [1; 0] []) one = Err (RuntimeError "topk").
Proof. repeat split; vm_compute; reflexivity. Qed.

(** C5 on two vectors of three entries and the float 2/3: the product is
    2.0 after rounding, and two entries of each vector are kept. *)
Lemma apply_pruning_keeps_largest_witness :
  ∃ p t',
    int_times 3 Ex.two_thirds = Ok p ∧ (0 ≤ p ≤ Z.of_nat 3)%Z ∧
    apply_pruning (Ex.vec [2; 3] [3; -2; 1; -5; 2; 7]%Z) Ex.two_thirds
      = Ok t' ∧
    shape t' = shape (Ex.vec [2; 3] [3; -2; 1; -5; 2; 7]%Z) ∧
    Forall2 (row_pruned (Z.to_nat (p `max` 1)))
      (rows (Ex.vec [2; 3] [3; -2; 1; -5; 2; 7]%Z)) (rows t') ∧
    (Ex.two_thirds = one_half → p = Z.of_nat (3 / 2)) ∧
    (is_one Ex.two_thirds → t' = Ex.vec [2; 3] [3; -2; 1; -5; 2; 7]%Z).
Proof.
  apply (apply_pruning_keeps_largest
           (Ex.vec [2; 3] [3; -2; 1; -5; 2; 7]%Z) Ex.two_thirds 3).
  - reflexivity.
  - reflexivity.
  - lia.
  - reflexivity.
  - split_and!; [reflexivity|lia|by vm_compute].
  - apply Forall_regular_vec.
  - intros row k Hrow Hk. apply sort_topk_ok. lia.
Defined.

Example apply_pruning_two_of_three :
  apply_pruning (Ex.vec [2; 3] [3; -2; 1; -5; 2; 7]%Z) Ex.two_thirds
  = Ok (Ex.vec [2; 3] [3; 0; 1; 0; 2; 7]%Z).
Proof. vm_compute. reflexivity. Qed.

(** The first of two single-token calls sharing a cache: the empty cache
    comes back holding the call's key and value, one position long. *)
Example first_call_fills_cache :
  forward (Ex.engine_of 2 2 1 None) (Ex.token 3 5) (Ex.token 3 5)
    (Some (Ex.token 3 5)) (Some ∅) None None None false
  = (Ok (Ex.vec [1; 1; 2] [0; 5]%Z, Ex.vec [2; 1; 1; 1] [1; 1]%Z),
     Some Ex.cache_after_first).
Proof. vm_compute. reflexivity. Qed.

(** C6 on two calls.  On the reference path, the second of two
    single-token calls sharing a cache: the stored length goes from one to
    two, the stored row first.  On the fused path, the second call on the
    cache the first one filled: it raises at [torch.cat]. *)
Lemma cache_merge_witness :
  (∃ kc vc : list Ex.xz,
     joined (1 * 2) 1 1 1 (data (Ex.vec [1; 2; 1; 1] [0; 5]%Z))
       (data (Ex.vec [2; 1; 1] [7; 0]%Z)) kc ∧
     joined (1 * 2) 1 1 1 (data (Ex.vec [1; 2; 1; 1] [0; 5]%Z))
       (data (Ex.vec [2; 1; 1] [7; 0]%Z)) vc ∧
     forward (Ex.engine_of 2 2 1 None) (Ex.token 7 4) (Ex.token 7 4)
       (Some (Ex.token 7 4)) (Some Ex.cache_after_first) None None None false
     = (after_cache (Ex.engine_of 2 2 1 None) 1 1 2 (1 + 1) true
          (Ex.vec [2; 1; 1] [7; 0]%Z)
          (Tensor [1 * 2; 1 + 1; 1] kc) (Tensor [1 * 2; 1 + 1; 1] vc)
          None None None,
        Some (<["prev_value" := Tensor [1; 2; 1 + 1; 1] vc]>
                (<["prev_key" := Tensor [1; 2; 1 + 1; 1] kc]>
                   Ex.cache_after_first)))) ∧
  forward (Ex.engine_of 8 1 1 (Some Ex.echo_kernel)) Ex.wide Ex.wide
    (Some Ex.wide) (Some Ex.cache_of_wide) None None None false
  = (Err (RuntimeError "cat"), Some Ex.cache_of_wide).
Proof.
  split.
  - assert (before_cache (Ex.engine_of 2 2 1 None) (Ex.token 7 4)
              (Ex.token 7 4) (Some (Ex.token 7 4)) None false
            = Ok (1, 1, 2, 1, Ex.vec [2; 1; 1] [7; 0]%Z,
                  Ex.vec [2; 1; 1] [7; 0]%Z, Ex.vec [2; 1; 1] [7; 0]%Z)) as Hb
      by (vm_compute; reflexivity).
    assert (Ex.cache_after_first !! "prev_key"
            = Some (Ex.vec [1; 2; 1; 1] [0; 5]%Z)) as Hk
      by (vm_compute; reflexivity).
    assert (Ex.cache_after_first !! "prev_value"
            = Some (Ex.vec [1; 2; 1; 1] [0; 5]%Z)) as Hv
      by (vm_compute; reflexivity).
    pose proof (proj1 (@cache_merge Ex.xz _ _) (Ex.engine_of 2 2 1 None)
                  (Ex.token 7 4) (Ex.token 7 4) (Some (Ex.token 7 4))
                  Ex.cache_after_first None None None false 1 1 2 1 _ _ _
                  eq_refl (Nat.lt_0_succ 1) (Nat.lt_0_succ 0) Hb
                  eq_refl eq_refl) as H.
    rewrite Hk in H.
    exact (H (Ex.vec [1; 2; 1; 1] [0; 5]%Z) 1 Hv eq_refl eq_refl
             eq_refl eq_refl).
  - assert (before_cache (Ex.engine_of 8 1 1 (Some Ex.echo_kernel)) Ex.wide
              Ex.wide (Some Ex.wide) None false
            = Ok (1, 1, 8, 1,
                  Ex.vec [1; 1; 1; 8] [0; 0; 7; 0; 8; 0; 6; 5]%Z,
                  Ex.vec [1; 1; 1; 8] [0; 0; 7; 0; 8; 0; 6; 5]%Z,
                  Ex.vec [1; 1; 1; 8] [0; 0; 7; 0; 8; 0; 6; 5]%Z)) as Hb
      by (vm_compute; reflexivity).
    apply (proj2 (@cache_merge Ex.xz _ _)
             (Ex.engine_of 8 1 1 (Some Ex.echo_kernel)) Ex.wide Ex.wide
             (Some Ex.wide) Ex.cache_of_wide None None None false 1 1 8 1
             (Ex.vec [1; 1; 1; 8] [0; 0; 7; 0; 8; 0; 6; 5]%Z)
             (Ex.vec [1; 1; 1; 8] [0; 0; 7; 0; 8; 0; 6; 5]%Z)
             (Ex.vec [1; 1; 1; 8] [0; 0; 7; 0; 8; 0; 6; 5]%Z)
             (Ex.vec [1; 1; 1; 8] [0; 0; 7; 0; 8; 0; 6; 5]%Z)
             (Ex.vec [1; 1; 1; 8] [0; 0; 7; 0; 8; 0; 6; 5]%Z) 1).
    + reflexivity.
    + simpl. lia.
    + simpl. lia.
    + exact Hb.
    + vm_compute. reflexivity.
    + vm_compute. reflexivity.
    + reflexivity.
    + reflexivity.
Defined.

(** The first call on the fused path that fills that cache: the entries
    are stored at lines 352-357 before [torch.bmm] refuses the
    four-dimensional query at line 368. *)
Example fused_first_call_fills_cache :
  forward (Ex.engine_of 8 1 1 (Some Ex.echo_kernel)) Ex.wide Ex.wide
    (Some Ex.wide) (Some ∅) None None None false
  = (Err (RuntimeError "bmm"), Some Ex.cache_of_wide).
Proof. vm_compute. reflexivity. Qed.

Example second_call_extends_cache :
  (forward (Ex.engine_of 2 2 1 None) (Ex.token 7 4) (Ex.token 7 4)
     (Some (Ex.token 7 4)) (Some Ex.cache_after_first) None None None false).2
  = Some (<["prev_value" := Ex.vec [1; 2; 2; 1] [0; 7; 5; 0]%Z]>
            (<["prev_key" := Ex.vec [1; 2; 2; 1] [0; 7; 5; 0]%Z]> ∅)).
Proof. vm_compute. reflexivity. Qed.

(** C7 on a call: one token, two heads, bias [2; 3].  The weights
    returned are the softmax weights [1; 1] plus the bias. *)
Lemma relative_bias_added_after_softmax_witness :
  ∃ bsz tgt e src0 q0 k0 v0 k1 v src q k scores bias sum attn,
    before_cache (Ex.engine_of 2 2 1 None) (Ex.token 3 5) (Ex.token 3 5)
      (Some (Ex.token 3 5)) None false
      = Ok (bsz, tgt, e, src0, q0, k0, v0) ∧
    merge_cache (Ex.engine_of 2 2 1 None) bsz src0 k0 v0 None
      = (Ok (k1, v, src), None) ∧
    apply_xpos (Ex.engine_of 2 2 1 None)
      (bool_decide (is_Some (None : option (gmap string (tensor Ex.xz)))))
      src q0 k1 = Ok (q, k) ∧
    masked_scores (Ex.engine_of 2 2 1 None) bsz tgt src q k None None
      = Ok scores ∧
    view (Ex.vec [2; 1; 1] [2; 3]%Z) (shape scores) = Ok bias ∧
    tadd (softmax scores) bias = Ok sum ∧
    shape sum = shape scores ∧
    (wf (softmax scores) → wf (Ex.vec [2; 1; 1] [2; 3]%Z) →
       data sum = zip_with fadd (data (softmax scores))
                    (data (Ex.vec [2; 1; 1] [2; 3]%Z))) ∧
    bmm (tmap to_float32
           (dropout_module (Ex.engine_of 2 2 1 None) (tmap to_float16 sum))) v
      = Ok attn ∧
    reassemble (Ex.engine_of 2 2 1 None) bsz tgt e src attn
      (tmap to_float16 sum)
      = Ok (Ex.vec [1; 1; 2] [0; 20]%Z, Ex.vec [2; 1; 1; 1] [3; 4]%Z).
Proof.
  apply (relative_bias_added_after_softmax (Ex.engine_of 2 2 1 None)
           (Ex.token 3 5) (Ex.token 3 5) (Some (Ex.token 3 5)) None None None
           (Ex.vec [2; 1; 1] [2; 3]%Z) false
           (Ex.vec [1; 1; 2] [0; 20]%Z) (Ex.vec [2; 1; 1; 1] [3; 4]%Z) None).
  vm_compute. reflexivity.
Defined.

Example relative_bias_call :
  forward (Ex.engine_of 2 2 1 None) (Ex.token 3 5) (Ex.token 3 5)
    (Some (Ex.token 3 5)) None None None (Some (Ex.vec [2; 1; 1] [2; 3]%Z))
    false
  = (Ok (Ex.vec [1; 1; 2] [0; 20]%Z, Ex.vec [2; 1; 1; 1] [3; 4]%Z), None).
Proof. vm_compute. reflexivity. Qed.

(** C8, counterexample.  Batch 1, two heads, one target and one source
    position: the call returns weights of shape (2, 1, 1, 1), heads first,
    and not (batch, heads, target, source) = (1, 2, 1, 1). *)
Lemma weights_are_heads_first :
  forward (Ex.engine_of 2 2 1 None) (Ex.token 3 5) (Ex.token 3 5)
    (Some (Ex.token 3 5)) None None None None false
  = (Ok (Ex.vec [1; 1; 2] [0; 5]%Z, Ex.vec [2; 1; 1; 1] [1; 1]%Z), None) ∧
  shape (Ex.vec [2; 1; 1; 1] [1; 1]%Z) ≠ [1; 2; 1; 1].
Proof. split; [vm_compute; reflexivity|discriminate]. Qed.

(** C8 on the same call: the shapes as the theorem gives them. *)
Lemma forward_result_shapes_witness :
  ∃ bsz tgt src,
    shape (Ex.token 3 5) = [bsz; tgt; 2] ∧
    shape (Ex.vec [1; 1; 2] [0; 5]%Z) = [bsz; tgt; 2] ∧
    shape (Ex.vec [2; 1; 1; 1] [1; 1]%Z) = [2; bsz; tgt; src] ∧
    ∃ e, shape (Ex.token 3 5) = [bsz; src; e].
Proof.
  apply (forward_result_shapes (Ex.engine_of 2 2 1 None)
           (Ex.token 3 5) (Ex.token 3 5) (Some (Ex.token 3 5)) None None None
           None false
           (Ex.vec [1; 1; 2] [0; 5]%Z) (Ex.vec [2; 1; 1; 1] [1; 1]%Z) None).
  - apply diagonal_keeps_shape.
  - intros ln Hln. discriminate Hln.
  - intros enc Henc. discriminate Henc.
  - vm_compute. reflexivity.
Defined.

(** C9 on a call.  Query and key are one sequence of two tokens, the value
    two sequences of one token: the assertion of line 293 tests [bsz] alone,
    the view of line 325 reads the value as one sequence of two tokens, and
    the call returns.  A key of another batch size than the query's is
    stopped by the assertion of line 291. *)
Theorem value_batch_mismatch_returns :
  (∃ a w,
     forward (Ex.engine_of 1 1 1 None) (Ex.vec [1; 2; 1] [1; 2]%Z)
       (Ex.vec [1; 2; 1] [3; 4]%Z) (Some (Ex.vec [2; 1; 1] [5; 6]%Z))
       None None None None false = (Ok (a, w), None) ∧
     shape a = [1; 2; 1] ∧ shape w = [1; 1; 2; 2]) ∧
  forward (Ex.engine_of 1 1 1 None) (Ex.vec [1; 2; 1] [1; 2]%Z)
    (Ex.vec [2; 1; 1] [3; 4]%Z) (Some (Ex.vec [1; 2; 1] [5; 6]%Z))
    None None None None false = (Err AssertionError, None).
Proof.
  split; [|vm_compute; reflexivity].
  eexists _, _. split; [vm_compute; reflexivity|]. done.
Qed.

(** C10 on a call: a query of one token against a key and value of two. *)
Lemma reference_path_rejects_unequal_lengths_witness :
  forward (Ex.engine_of 2 2 1 None) (Ex.vec [1; 1; 2] [3; 5]%Z)
    (Ex.vec [1; 2; 2] [3; 5; 4; 6]%Z) (Some (Ex.vec [1; 2; 2] [3; 5; 4; 7]%Z))
    None None None None false
  = (Err (RuntimeError "reshape"), None).
Proof.
  apply (reference_path_rejects_unequal_lengths (Ex.engine_of 2 2 1 None)
           (Ex.vec [1; 1; 2] [3; 5]%Z) (Ex.vec [1; 2; 2] [3; 5; 4; 6]%Z)
           (Ex.vec [1; 2; 2] [3; 5; 4; 7]%Z) None None None None false 1 1 2);
    try reflexivity; try apply diagonal_projects; simpl; lia.
Defined.

(** * Further properties of the code *)

Section Further.
Context {F : Type} `{!Scalar F, !Torch F}.
Implicit Types (eng : engine F) (query key q k v : tensor F).

(** ** [__init__] *)

(** X1.  The outcomes of [__init__] in full, for Python integers
    [embed_dim] and [num_heads] and [head_dim = embed_dim // num_heads]
    (floor division).  It raises [ZeroDivisionError] exactly when
    [num_heads] or [head_dim] is zero (lines 238-239); otherwise
    [OverflowError] exactly when [head_dim] is too large in absolute value to
    be a float (line 239); otherwise [AssertionError] exactly when both or
    neither of [self_attention] and [encoder_decoder_attention] are set
    (line 243); otherwise it ends as the construction of the submodules
    ends (lines 245-266): with the exception the first failing constructor
    or read of [args] raises, or by returning.  Neither the sign of
    [num_heads] nor whether it divides the width is looked at. *)
Theorem init_outcome (p : parts F) (E H : Z)
    (sa eda subln casual flash : bool) :
  let D := (E / H)%Z in
  let fits := (Z.abs D < 2 ^ 1024 - 2 ^ 970)%Z in
  match init p E H sa eda subln casual flash with
  | Ok _ =>
      H ≠ 0%Z ∧ D ≠ 0%Z ∧ fits ∧ sa ≠ eda ∧
      is_ok (submodules p sa subln flash) = true
  | Err e =>
      (e = ZeroDivisionError ∧ (H = 0%Z ∨ D = 0%Z)) ∨
      (e = OverflowError ∧ H ≠ 0%Z ∧ ¬ fits) ∨
      (e = AssertionError ∧ H ≠ 0%Z ∧ D ≠ 0%Z ∧ fits ∧ sa = eda) ∨
      (H ≠ 0%Z ∧ D ≠ 0%Z ∧ fits ∧ sa ≠ eda ∧
       submodules p sa subln flash = Err e)
  end.
Proof.
  intros D fits. unfold init. case_decide as H0; [left; auto|].
  fold D. unfold power_neg_half.
  destruct (too_large_for_float D) eqn:Hlarge.
  { apply too_large_for_float_iff in Hlarge.
    right. left. unfold fits. split_and!; [done|done|lia]. }
  assert (fits) as Hfits.
  { unfold fits. destruct (decide (2 ^ 1024 - 2 ^ 970 ≤ Z.abs D)%Z) as [Hge|];
      [|lia].
    apply too_large_for_float_iff in Hge. congruence. }
  case_decide as HD; [left; auto|].
  assert ((if decide (0 < D)%Z
           then Ok (RealPower (pow_neg_half (Z.to_nat D)))
           else Ok ComplexPower) = Ok (if decide (0 < D)%Z
                                       then RealPower (pow_neg_half (Z.to_nat D))
                                       else ComplexPower)) as ->
    by (by case_decide).
  rewrite Ok_bind.
  destruct sa, eda; simpl;
    try (right; right; left; by split_and!);
    (destruct (submodules p _ subln flash) as [[[[[[[[? ?] ?] ?] ?] ?] ?] ?]|e];
       simpl; [by split_and!|right; right; right; by split_and!]).
Qed.

(** X2.  What an object [__init__] returns looks like: the arguments are
    kept; [head_dim] is the floor quotient of width by heads, is not zero
    and has the sign of [embed_dim * num_heads]; [num_heads * head_dim]
    misses the width by less than [num_heads]; the scaling is a complex
    number exactly when [head_dim] is negative; exactly one attention kind
    is set; the fused kernel exists exactly when the fused path is enabled;
    the position encoder and the inner normalization exist for
    self-attention only; and the object is an engine exactly when
    [num_heads] and [head_dim] are positive. *)
Theorem init_invariants (p : parts F) (E H : Z)
    (sa eda subln casual flash : bool) (o : object F) :
  init p E H sa eda subln casual flash = Ok o →
  self_embed_dim o = E ∧ self_num_heads o = H ∧
  self_head_dim o = (E / H)%Z ∧
  H ≠ 0%Z ∧ self_head_dim o ≠ 0%Z ∧
  ((0 < H)%Z → (H * self_head_dim o ≤ E < H * self_head_dim o + H)%Z) ∧
  ((H < 0)%Z → (H * self_head_dim o + H < E ≤ H * self_head_dim o)%Z) ∧
  (self_scaling o = ComplexPower ↔ (self_head_dim o < 0)%Z) ∧
  self_self_attention o = negb (self_encoder_decoder_attention o) ∧
  (is_Some (self_flash_mha o) ↔ self_flash_attention o = true) ∧
  (is_Some (self_inner_attn_ln o) ↔ subln = true ∧ sa = true) ∧
  (is_Some (self_xpos o) ↔ xpos_rel_pos p = Ok true ∧ sa = true) ∧
  (is_Some (serve o) ↔ (0 < H)%Z ∧ (0 < E / H)%Z).
Proof.
  unfold init. case_decide as H0; [discriminate|].
  set (D := (E / H)%Z). unfold power_neg_half.
  destruct (too_large_for_float D); [discriminate|].
  case_decide as HD; [discriminate|].
  intros Hi.
  assert (∃ pw, (if decide (0 < D)%Z
                 then Ok (RealPower (pow_neg_half (Z.to_nat D)))
                 else Ok ComplexPower) = Ok pw ∧
                (pw = ComplexPower ↔ (D < 0)%Z) ∧
                ((0 < D)%Z → ∃ x, pw = RealPower x)) as (pw & Hpw & Hcx & Hre).
  { case_decide; eexists; (split; [done|]); split; try (split; (done || lia));
      eauto. intros; lia. }
  rewrite Hpw, Ok_bind in Hi.
  destruct (xorb sa eda) eqn:Hx; [|discriminate]. simpl in Hi.
  unfold submodules in Hi.
  destruct (new_k_proj p) as [kp|]; [|discriminate].
  destruct (new_v_proj p) as [vp|]; [|discriminate].
  destruct (new_q_proj p) as [qp|]; [|discriminate].
  destruct (new_out_proj p) as [op|]; [|discriminate].
  rewrite !Ok_bind in Hi.
  destruct (optional (subln && sa) (new_layer_norm p)) as [ln|] eqn:Hln;
    [|discriminate].
  destruct (new_dropout p) as [dm|]; [|discriminate].
  destruct (xpos_rel_pos p) as [rel|] eqn:Hrel; [|discriminate].
  rewrite !Ok_bind in Hi.
  destruct (optional (rel && sa) (new_xpos p)) as [xp|] eqn:Hxp;
    [|discriminate].
  destruct (optional flash (new_flash_mha p)) as [fm|] eqn:Hfm;
    [|discriminate].
  destruct (flash_config p) as [[]|]; [|discriminate].
  simpl in Hi. injection Hi as <-. simpl.
  pose proof (Z.div_mod E H H0) as Hdm. fold D in Hdm.
  split_and!; try done.
  - intros HH. pose proof (Z.mod_pos_bound E H HH). lia.
  - intros HH. pose proof (Z.mod_neg_bound E H HH). lia.
  - by destruct sa, eda.
  - unfold optional in Hfm. destruct flash.
    + destruct (new_flash_mha p); [|discriminate]. injection Hfm as <-.
      split; [done|by eexists].
    + injection Hfm as <-. split; [by intros []|done].
  - unfold optional in Hln. destruct (subln && sa) eqn:Hc.
    + destruct (new_layer_norm p); [|discriminate]. injection Hln as <-.
      apply andb_true_iff in Hc. split; [done|by eexists].
    + injection Hln as <-. split; [by intros []|].
      intros [-> ->]. discriminate.
  - unfold optional in Hxp. destruct (rel && sa) eqn:Hc.
    + destruct (new_xpos p); [|discriminate]. injection Hxp as <-.
      apply andb_true_iff in Hc as [-> ->]. split; [done|by eexists].
    + injection Hxp as <-. split; [by intros []|].
      intros [[= ->] ->]. discriminate.
  - unfold serve. simpl. split.
    + intros Hs. destruct pw as [x|]; [|by destruct Hs].
      case_decide as Hc; [lia|by destruct Hs].
    + intros [HH HD']. destruct (Hre HD') as [x ->].
      rewrite decide_True; [by eexists|].
      pose proof (Z.mod_pos_bound E H HH). nia.
Qed.

(** ** The input checks of [forward] *)

(** X3.  The checks of lines 286-293 in full.  Either the query is
    three-dimensional with the engine's width and a non-empty batch, the key
    three-dimensional with the query's batch size, and there is a value; or
    the call raises [AssertionError] or [ValueError] whatever its other
    arguments, and the caller's cache stays as it was.  In the first case
    the checks pass: the key's width and the value's shape are not among
    them. *)
Theorem forward_input_checks eng query key value :
  (∃ bsz tgt src e' val,
     shape query = [bsz; tgt; embed_dim eng] ∧ shape key = [bsz; src; e'] ∧
     value = Some val ∧ 0 < bsz ∧
     check_inputs eng query key value
     = Ok (bsz, tgt, embed_dim eng, src, val)) ∨
  (∃ err, (err = AssertionError ∨ err = ValueError) ∧
     ∀ st kpm am rp pkv,
       forward eng query key value st kpm am rp pkv = (Err err, st)).
Proof.
  destruct (check_inputs eng query key value)
    as [[[[[bsz tgt] e] src] val]|err] eqn:Hc.
  - left. apply check_inputs_inv in Hc as (Hq & -> & [e' Hk] & Hv & Hb).
    exists bsz, tgt, src, e', val. split_and!; done.
  - right. exists err. split.
    + unfold check_inputs, size3 in Hc.
      destruct (shape query) as [|a [|b [|c [|]]]]; simpl in Hc;
        try (injection Hc as <-; by right).
      destruct (bool_decide (c = embed_dim eng)); simpl in Hc;
        [|injection Hc as <-; by left].
      destruct (shape key) as [|a' [|b' [|c' [|]]]]; simpl in Hc;
        try (injection Hc as <-; by right).
      destruct (bool_decide (a' = a)); simpl in Hc;
        [|injection Hc as <-; by left].
      destruct value; simpl in Hc; [|injection Hc as <-; by left].
      destruct (bool_decide (a ≠ 0)); simpl in Hc; [discriminate|].
      injection Hc as <-; by left.
    + intros st kpm am rp pkv. unfold forward, before_cache. by rewrite Hc.
Qed.

(** ** What [forward] does to the caller's cache *)

Lemma store_kv_frame eng bsz (d : gmap string (tensor F)) k v :
  ∀ name,
    (name ≠ "prev_key" → name ≠ "prev_value" →
       (store_kv eng bsz d k v).2 !! name = d !! name) ∧
    (is_Some (d !! name) → is_Some ((store_kv eng bsz d k v).2 !! name)).
Proof.
  intros name. unfold store_kv.
  destruct (view_infer k _ _) as [kview|]; simpl; [|done].
  destruct (view_infer v _ _) as [vview|]; simpl.
  - split.
    + intros ? ?. by rewrite !lookup_insert_ne.
    + intros Hs. rewrite !lookup_insert. repeat case_decide; eauto.
  - split.
    + intros ? ?. by rewrite !lookup_insert_ne.
    + intros Hs. rewrite !lookup_insert. repeat case_decide; eauto.
Qed.

(** X4.  Whatever the call and however it ends, [forward] neither creates
    nor drops the caller's dictionary, removes no entry from it, and leaves
    every entry other than [prev_key] and [prev_value] as it was. *)
Theorem forward_cache_frame eng query key value st kpm am rp pkv :
  match st, (forward eng query key value st kpm am rp pkv).2 with
  | None, None => True
  | Some d, Some d' =>
      ∀ name,
        (name ≠ "prev_key" → name ≠ "prev_value" → d' !! name = d !! name) ∧
        (is_Some (d !! name) → is_Some (d' !! name))
  | _, _ => False
  end.
Proof.
  unfold forward.
  destruct (before_cache eng query key value kpm pkv)
    as [[[[[[[bsz tgt] e] src] q] k] v]|err]; simpl.
  2: { destruct st; done. }
  unfold merge_cache. destruct st as [d|]; simpl; [|done].
  destruct (load_prev eng bsz d k v) as [[k1 v1]|err]; simpl; [|done].
  pose proof (store_kv_frame eng bsz d k1 v1) as Hfr.
  destruct (store_kv eng bsz d k1 v1) as [[n|err] d']; simpl in *; done.
Qed.

Lemma before_cache_batch eng query key value kpm pkv bsz tgt e src q k v :
  before_cache eng query key value kpm pkv = Ok (bsz, tgt, e, src, q, k, v) →
  0 < bsz ∧ kpm = None ∧ shape query = [bsz; tgt; embed_dim eng] ∧
  e = embed_dim eng ∧ ∃ e', shape key = [bsz; src; e'].
Proof.
  intros H. unfold before_cache in H. ok_inv H.
  injection H as <- <- <- <- <- <- <-.
  apply check_inputs_inv in Hx as (Sq & -> & Sk & _ & Hb).
  destruct kpm; [discriminate|]. done.
Qed.

(** X5.  A cache that holds a [prev_key] but no [prev_value]: the call
    raises [KeyError] at line 347 and leaves the cache as it found it. *)
Theorem missing_prev_value_raises
    eng query key value (d : gmap string (tensor F)) kpm am rp pkv
    bsz tgt e src q k v pk (P : nat) :
  0 < num_heads eng → 0 < head_dim eng →
  before_cache eng query key value kpm pkv = Ok (bsz, tgt, e, src, q, k, v) →
  d !! "prev_key" = Some pk →
  shape pk = [bsz; num_heads eng; P; head_dim eng] →
  d !! "prev_value" = None →
  forward eng query key value (Some d) kpm am rp pkv
  = (Err (KeyError "prev_value"), Some d).
Proof.
  intros Hh Hd Hb Hpk Spk Hpv.
  destruct (before_cache_batch _ _ _ _ _ _ _ _ _ _ _ _ _ Hb) as (Hbsz & _).
  assert (0 < bsz * num_heads eng * head_dim eng) as Hpos
    by (repeat apply Nat.mul_pos_pos; done).
  unfold forward. rewrite Hb. unfold merge_cache, load_prev. rewrite Hpk, Hpv.
  rewrite (view_infer_Ok pk [bsz * num_heads eng] [head_dim eng] P)
    by (rewrite ?Spk; simpl; lia).
  done.
Qed.

(** ** Additive masks *)

Lemma masked_scores_with_mask eng bsz tgt src q k (m : tensor F) scores :
  masked_scores eng bsz tgt src q k None (Some m) = Ok scores →
  shape scores = [bsz; num_heads eng; tgt; src].
Proof.
  unfold masked_scores. intros H.
  apply bind_Ok in H as (aw & _ & H). apply bind_Ok in H as (aw' & Haw & H).
  injection H as <-.
  apply bind_Ok in Haw as (w & Hw & Haw). apply bind_Ok in Haw as (m1 & _ & Haw).
  apply bind_Ok in Haw as (m2 & _ & Haw).
  apply view_Ok in Hw as [-> _]. unfold tadd_inplace in Haw.
  apply bind_Ok in Haw as (b' & _ & Haw). by injection Haw as <-.
Qed.

Lemma attend_with_mask eng bsz tgt src q k v (m : tensor F) rp :
  dropout_keeps_shape eng →
  is_ok (attend eng bsz tgt src q k v None (Some m) rp) = false.
Proof.
  intros Hdrop. unfold attend.
  destruct (masked_scores eng bsz tgt src q k None (Some m)) as [scores|]
    eqn:Hs; [|done].
  apply masked_scores_with_mask in Hs. simpl.
  assert (∀ sum : tensor F, shape sum = shape scores →
            is_ok (bmm (tmap to_float32
                           (dropout_module eng (tmap to_float16 sum))) v
                   ≫= λ attn, Ok (attn, tmap to_float16 sum)) = false)
    as Hbmm.
  { intros sum Hsum. rewrite bmm_rank; [done|].
    simpl. rewrite Hdrop. simpl. by rewrite Hsum, Hs. }
  destruct rp as [rp|]; simpl.
  - destruct (view rp (shape scores)) as [bias|] eqn:Hv; [|done]. simpl.
    apply view_Ok in Hv as [-> _].
    rewrite tadd_same_shape by done. simpl. by apply Hbmm.
  - by apply Hbmm.
Qed.

(** X6.  An additive attention mask cannot be used: with dropout keeping
    shapes as [nn.Dropout] does, every call that passes an [attn_mask]
    raises.  (Line 371 leaves the scores four-dimensional, and line 398
    hands them to [torch.bmm].) *)
Theorem additive_mask_never_returns
    eng query key value st kpm (m : tensor F) rp pkv :
  dropout_keeps_shape eng →
  is_ok (forward eng query key value st kpm (Some m) rp pkv).1 = false.
Proof.
  intros Hdrop. unfold forward.
  destruct (before_cache eng query key value kpm pkv)
    as [[[[[[[bsz tgt] e] src] q] k] v]|err] eqn:Hb; [|done].
  apply before_cache_batch in Hb as (_ & -> & _).
  destruct (merge_cache eng bsz src k v st) as [[[[k1 v1] src1]|err] st1];
    [|done].
  simpl. unfold after_cache.
  destruct (apply_xpos eng _ src1 q k1) as [[q2 k2]|]; [|done]. simpl.
  pose proof (attend_with_mask eng bsz tgt src1 q2 k2 v1 m rp Hdrop) as Hatt.
  destruct (attend eng bsz tgt src1 q2 k2 v1 None (Some m) rp); done.
Qed.

(** ** Heads that do not divide the width *)

Lemma view_ne (t : tensor F) s :
  numel s ≠ numel (shape t) → view t s = Err (RuntimeError "view").
Proof. intros. unfold view. by rewrite decide_False. Qed.

(** X7.  [__init__] accepts a head count that does not divide the width,
    and every call on such an engine whose inputs pass the checks and the
    projections then raises at the first [view] (line 316 or 323), on either
    path; the cache is not touched. *)
Theorem indivisible_heads_raise
    eng query key value st kpm am rp pkv bsz tgt src :
  0 < embed_dim eng →
  embed_dim eng ≠ num_heads eng * head_dim eng →
  projects (embed_dim eng) (q_proj eng) →
  projects (embed_dim eng) (k_proj eng) →
  projects (embed_dim eng) (v_proj eng) →
  shape query = [bsz; tgt; embed_dim eng] →
  shape key = [bsz; src; embed_dim eng] →
  last (shape value) = Some (embed_dim eng) →
  0 < bsz → 0 < tgt →
  forward eng query key (Some value) st kpm am rp pkv
  = (Err (RuntimeError "view"), st).
Proof.
  intros HE Hne Pq Pk Pv Sq Sk Sv Hb Ht.
  unfold forward, before_cache.
  rewrite (check_inputs_Ok eng query key value bsz tgt src (embed_dim eng))
    by done.
  simpl.
  destruct (project_Ok eng query key value pkv)
    as (q & k & v & -> & Sq' & Sk' & Sv');
    try done; try (by rewrite ?Sq, ?Sk).
  simpl.
  destruct (prune_qkv_Ok q k v (embed_dim eng))
    as (q' & k' & v' & -> & Tq & Tk & Tv);
    try done; try (by rewrite ?Sq', ?Sk', ?Sv', ?Sq, ?Sk).
  simpl.
  assert (view q' [bsz; tgt; num_heads eng; head_dim eng]
          = Err (RuntimeError "view")) as Hview.
  { apply view_ne. rewrite Tq, Sq', Sq. simpl. intros Heq.
    apply Hne.
    assert (bsz * tgt * (num_heads eng * head_dim eng)
            = bsz * tgt * embed_dim eng) as Hmul by lia.
    apply Nat.mul_cancel_l in Hmul; [done|].
    assert (0 < bsz * tgt) by (by apply Nat.mul_pos_pos). lia. }
  unfold split_heads. rewrite Hview. by destruct (flash_attention eng).
Qed.

(** ** Calls that return *)

Lemma bmm_shapes (a b : tensor F) n t d s :
  shape a = [n; t; d] → shape b = [n; d; s] →
  ∃ c, bmm a b = Ok c ∧ shape c = [n; t; s].
Proof.
  intros Sa Sb. unfold bmm. rewrite Sa, Sb, decide_True by done. eauto.
Qed.

Lemma transpose_shape (t : tensor F) i j :
  i < length (shape t) → j < length (shape t) →
  ∃ t', transpose i j t = Ok t' ∧ shape t' = swap_at i j (shape t).
Proof. intros. unfold transpose. rewrite decide_True by done. eauto. Qed.

Lemma softmax_shape (t : tensor F) : shape (softmax t) = shape t.
Proof. done. Qed.

Lemma split_heads_Ok eng bsz tgt q k v kpm :
  flash_attention eng = false →
  numel (shape q) = numel [bsz; tgt; num_heads eng; head_dim eng] →
  numel (shape k) = numel [bsz; tgt; num_heads eng; head_dim eng] →
  numel (shape v) = numel [bsz; tgt; num_heads eng; head_dim eng] →
  ∃ q' k' v', split_heads eng bsz tgt tgt q k v kpm = Ok (q', k', v') ∧
    shape q' = [bsz * num_heads eng; tgt; head_dim eng] ∧
    shape k' = [bsz * num_heads eng; tgt; head_dim eng] ∧
    shape v' = [bsz * num_heads eng; tgt; head_dim eng].
Proof.
  intros Hf Nq Nk Nv. unfold split_heads. rewrite Hf.
  destruct (view_transpose_12_Ok q _ _ _ _ Nq) as (q1 & -> & S1).
  destruct (view_transpose_12_Ok k _ _ _ _ Nk) as (k1 & -> & S2).
  destruct (view_transpose_12_Ok v _ _ _ _ Nv) as (v1 & -> & S3).
  rewrite !Ok_bind.
  rewrite (reshape_eq q1), (reshape_eq k1), (reshape_eq v1)
    by (rewrite ?S1, ?S2, ?S3; simpl; lia).
  rewrite !Ok_bind. eauto 10.
Qed.

Lemma merge_cache_stored eng bsz tgt k v st (P : nat) :
  0 < bsz → 0 < num_heads eng → 0 < head_dim eng →
  shape k = [bsz * num_heads eng; tgt; head_dim eng] →
  shape v = [bsz * num_heads eng; tgt; head_dim eng] →
  stored_len eng bsz st P →
  ∃ k1 v1 st',
    merge_cache eng bsz tgt k v st = (Ok (k1, v1, P + tgt), st') ∧
    shape k1 = [bsz * num_heads eng; P + tgt; head_dim eng] ∧
    shape v1 = [bsz * num_heads eng; P + tgt; head_dim eng] ∧
    match st with
    | None => st' = None
    | Some _ => ∃ d', st' = Some d' ∧ stored_len eng bsz (Some d') (P + tgt)
    end.
Proof.
  intros Hb Hh Hd Sk Sv Hst.
  assert (0 < bsz * num_heads eng * head_dim eng) as Hpos
    by (repeat apply Nat.mul_pos_pos; done).
  assert (∀ (k1 v1 : tensor F) (d : gmap string (tensor F)) L,
            shape k1 = [bsz * num_heads eng; L; head_dim eng] →
            shape v1 = [bsz * num_heads eng; L; head_dim eng] →
            ∃ d', store_kv eng bsz d k1 v1 = (Ok L, d') ∧
                  stored_len eng bsz (Some d') L) as Hstore.
  { intros k1 v1 d L S1 S2. unfold store_kv.
    rewrite (view_infer_Ok k1 [bsz; num_heads eng] [head_dim eng] L)
      by (rewrite ?S1; simpl; lia).
    rewrite (view_infer_Ok v1 [bsz; num_heads eng] [head_dim eng] L)
      by (rewrite ?S2; simpl; lia).
    unfold size1. rewrite S1. simpl. eexists. split; [done|].
    rewrite lookup_insert_ne by done. rewrite lookup_insert_eq.
    eexists. rewrite lookup_insert_eq. done. }
  destruct st as [d|]; simpl in Hst.
  - unfold merge_cache, load_prev.
    destruct (d !! "prev_key") as [pk|] eqn:Hpk.
    + destruct Hst as (pv & Hpv & Spk & Spv). rewrite Hpv.
      rewrite (view_infer_Ok pk [bsz * num_heads eng] [head_dim eng] P)
        by (rewrite ?Spk; simpl; lia).
      rewrite !Ok_bind.
      rewrite (view_infer_Ok pv [bsz * num_heads eng] [head_dim eng] P)
        by (rewrite ?Spv; simpl; lia).
      rewrite !Ok_bind.
      destruct (cat1_Ok (Tensor ([bsz * num_heads eng] ++ P :: [head_dim eng])
                           (data pk)) k _ _ _ _ eq_refl Sk) as (kc & -> & Skc).
      destruct (cat1_Ok (Tensor ([bsz * num_heads eng] ++ P :: [head_dim eng])
                           (data pv)) v _ _ _ _ eq_refl Sv) as (vc & -> & Svc).
      rewrite !Ok_bind.
      destruct (Hstore kc vc d _ Skc Svc) as (d' & -> & Hd').
      eauto 10.
    + subst P. destruct (Hstore k v d _ Sk Sv) as (d' & -> & Hd').
      simpl. eauto 10.
  - subst P. simpl. eauto 10.
Qed.

Lemma apply_xpos_Ok eng inc src q k :
  (∀ enc, xpos eng = Some enc → encodes enc) →
  ∃ q' k', apply_xpos eng inc src q k = Ok (q', k') ∧
    shape q' = shape q ∧ shape k' = shape k.
Proof.
  intros Hx. unfold apply_xpos. destruct (xpos eng) as [enc|]; [|eauto].
  specialize (Hx enc eq_refl).
  destruct (Hx k 0%Z true) as (k' & -> & Sk).
  destruct (Hx q (if inc then (Z.of_nat src - 1)%Z else 0%Z) false)
    as (q' & -> & Sq).
  rewrite !Ok_bind. eauto.
Qed.

Lemma attend_Ok eng bsz tgt src q k v rp n D :
  dropout_keeps_shape eng →
  shape q = [n; tgt; D] → shape k = [n; src; D] → shape v = [n; src; D] →
  match rp with
  | None => True
  | Some r => numel (shape r) = numel [n; tgt; src]
  end →
  ∃ attn aw, attend eng bsz tgt src q k v None None rp = Ok (attn, aw) ∧
    shape attn = [n; tgt; D] ∧ shape aw = [n; tgt; src].
Proof.
  intros Hdrop Sq Sk Sv Hrp. unfold attend, masked_scores.
  destruct (transpose_shape k 1 2) as (kt & -> & Skt);
    [rewrite Sk; simpl; lia..|].
  rewrite Sk in Skt. change (swap_at 1 2 [n; src; D]) with [n; D; src] in Skt.
  rewrite Ok_bind.
  destruct (bmm_shapes q kt n tgt D src Sq Skt) as (scores & -> & Ss).
  rewrite !Ok_bind.
  assert (∀ sum : tensor F, shape sum = [n; tgt; src] →
            ∃ attn,
              bmm (tmap to_float32
                     (dropout_module eng (tmap to_float16 sum))) v = Ok attn ∧
              shape attn = [n; tgt; D]) as Hbmm.
  { intros sum Hsum. apply (bmm_shapes _ v n tgt src D); [|done].
    simpl. rewrite Hdrop. simpl. done. }
  destruct rp as [r|].
  - rewrite softmax_shape, Ss.
    unfold view at 1. rewrite decide_True by (by rewrite Hrp).
    rewrite Ok_bind.
    rewrite tadd_same_shape by (by rewrite softmax_shape).
    rewrite Ok_bind. rewrite softmax_shape, Ss.
    edestruct Hbmm as (attn & -> & Sa); [|rewrite Ok_bind; eauto]. done.
  - rewrite Ok_bind.
    edestruct Hbmm as (attn & -> & Sa); [|rewrite Ok_bind; eauto].
    by rewrite softmax_shape.
Qed.

Lemma reassemble_Ok eng bsz tgt src attn aw :
  embed_dim eng = num_heads eng * head_dim eng →
  projects (embed_dim eng) (out_proj eng) →
  (∀ ln, inner_attn_ln eng = Some ln → projects (embed_dim eng) ln) →
  shape attn = [bsz * num_heads eng; tgt; head_dim eng] →
  shape aw = [bsz * num_heads eng; tgt; src] →
  ∃ a w, reassemble eng bsz tgt (embed_dim eng) src attn aw = Ok (a, w) ∧
    shape a = [bsz; tgt; embed_dim eng] ∧
    shape w = [num_heads eng; bsz; tgt; src].
Proof.
  intros HE Pout Pln Sa Sw. unfold reassemble.
  destruct (transpose_shape attn 0 1) as (a1 & -> & S1);
    [rewrite Sa; simpl; lia..|].
  rewrite Sa in S1.
  change (swap_at 0 1 [bsz * num_heads eng; tgt; head_dim eng])
    with [tgt; bsz * num_heads eng; head_dim eng] in S1.
  rewrite Ok_bind.
  rewrite (reshape_eq a1) by (rewrite S1, HE; simpl; lia).
  rewrite Ok_bind.
  destruct (transpose_shape (Tensor [tgt; bsz; embed_dim eng] (data a1)) 0 1)
    as (a2 & -> & S2); [simpl; lia..|].
  change (swap_at 0 1 (shape (Tensor [tgt; bsz; embed_dim eng] (data a1))))
    with [bsz; tgt; embed_dim eng] in S2.
  rewrite Ok_bind.
  assert (∃ a3, match inner_attn_ln eng with
                | Some ln => ln a2
                | None => Ok a2
                end = Ok a3 ∧ shape a3 = [bsz; tgt; embed_dim eng])
    as (a3 & -> & S3).
  { destruct (inner_attn_ln eng) as [ln|]; [|eauto].
    destruct (Pln ln eq_refl a2) as (a3 & -> & S3); [by rewrite S2|].
    exists a3. split; [done|by rewrite S3]. }
  rewrite Ok_bind.
  destruct (Pout a3) as (a4 & -> & S4); [by rewrite S3|].
  rewrite Ok_bind.
  unfold view. rewrite decide_True by (rewrite Sw; simpl; lia).
  rewrite Ok_bind.
  destruct (transpose_shape
              (Tensor [bsz; num_heads eng; tgt; src] (data aw)) 1 0)
    as (w & -> & S5); [simpl; lia..|].
  rewrite Ok_bind. exists a4, w. split_and!; [done|by rewrite S4, S3|done].
Qed.

Lemma before_cache_Ok eng query key value pkv bsz tgt :
  flash_attention eng = false →
  0 < num_heads eng → 0 < head_dim eng →
  embed_dim eng = num_heads eng * head_dim eng →
  projects (embed_dim eng) (q_proj eng) →
  projects (embed_dim eng) (k_proj eng) →
  projects (embed_dim eng) (v_proj eng) →
  shape query = [bsz; tgt; embed_dim eng] →
  shape key = [bsz; tgt; embed_dim eng] →
  last (shape value) = Some (embed_dim eng) →
  numel (shape value) = numel [bsz; tgt; embed_dim eng] →
  0 < bsz →
  ∃ q k v,
    before_cache eng query key (Some value) None pkv
    = Ok (bsz, tgt, embed_dim eng, tgt, q, k, v) ∧
    shape q = [bsz * num_heads eng; tgt; head_dim eng] ∧
    shape k = [bsz * num_heads eng; tgt; head_dim eng] ∧
    shape v = [bsz * num_heads eng; tgt; head_dim eng].
Proof.
  intros Hf Hh Hd HE Pq Pk Pv Sq Sk Lv Nv Hb.
  assert (0 < embed_dim eng) as HEpos
    by (rewrite HE; by apply Nat.mul_pos_pos).
  unfold before_cache.
  rewrite (check_inputs_Ok eng query key value bsz tgt tgt (embed_dim eng))
    by done.
  rewrite Ok_bind.
  destruct (project_Ok eng query key value pkv)
    as (q & k & v & -> & Sq' & Sk' & Sv');
    try done; try (by rewrite ?Sq, ?Sk).
  rewrite Ok_bind.
  destruct (prune_qkv_Ok q k v (embed_dim eng))
    as (q' & k' & v' & -> & Tq & Tk & Tv);
    try done; try (by rewrite ?Sq', ?Sk', ?Sv', ?Sq, ?Sk).
  rewrite Ok_bind.
  destruct (split_heads_Ok eng bsz tgt q' k' v' None Hf)
    as (q2 & k2 & v2 & -> & S1 & S2 & S3).
  - rewrite Tq, Sq', Sq, HE. simpl. lia.
  - rewrite Tk, Sk', Sk, HE. simpl. lia.
  - rewrite Tv, Sv', Nv, HE. simpl. lia.
  - rewrite Ok_bind. simpl. eauto 10.
Qed.

(** X8.  The calls that do return.  On a sound engine on the reference
    path, a call without masks whose query and key are [(bsz, len, embed_dim)]
    and whose value has that many elements in rows of [embed_dim], with a
    cache holding [P] positions (or none) and, if given, a relative bias of
    [bsz * heads * len * (P + len)] elements, returns: the output is
    [(bsz, len, embed_dim)], the weights are [(heads, bsz, len, P + len)], and
    a cache that was passed in holds [P + len] positions afterwards. *)
Theorem forward_returns eng query key value st rp pkv bsz tgt (P : nat) :
  sound eng →
  flash_attention eng = false →
  shape query = [bsz; tgt; embed_dim eng] →
  shape key = [bsz; tgt; embed_dim eng] →
  last (shape value) = Some (embed_dim eng) →
  numel (shape value) = numel [bsz; tgt; embed_dim eng] →
  0 < bsz →
  stored_len eng bsz st P →
  match rp with
  | None => True
  | Some r => numel (shape r) = numel [bsz * num_heads eng; tgt; P + tgt]
  end →
  ∃ a w st',
    forward eng query key (Some value) st None None rp pkv = (Ok (a, w), st') ∧
    shape a = [bsz; tgt; embed_dim eng] ∧
    shape w = [num_heads eng; bsz; tgt; P + tgt] ∧
    match st with
    | None => st' = None
    | Some _ => ∃ d', st' = Some d' ∧ stored_len eng bsz (Some d') (P + tgt)
    end.
Proof.
  intros [Hh Hd HE Pq Pk Pv Pout Pln Hxp Hdrop] Hf Sq Sk Lv Nv Hb Hst Hrp.
  destruct (before_cache_Ok eng query key value pkv bsz tgt)
    as (q & k & v & Hbc & S1 & S2 & S3); try done.
  destruct (merge_cache_stored eng bsz tgt k v st P)
    as (k1 & v1 & st' & Hm & Sk1 & Sv1 & Hst'); try done.
  unfold forward. rewrite Hbc, Hm. unfold after_cache.
  destruct (apply_xpos_Ok eng (bool_decide (is_Some st)) (P + tgt) q k1 Hxp)
    as (q2 & k2 & -> & Sq2 & Sk2).
  rewrite Ok_bind.
  destruct (attend_Ok eng bsz tgt (P + tgt) q2 k2 v1 rp
              (bsz * num_heads eng) (head_dim eng))
    as (attn & aw & -> & Sa & Sw); try done; try congruence.
  rewrite Ok_bind.
  destruct (reassemble_Ok eng bsz tgt (P + tgt) attn aw)
    as (a & w & -> & Ra & Rw); try done.
  eauto 10.
Qed.

(** X9.  With an additive mask the same call fails, but only after the cache
    was written: the caller's dictionary holds the new positions although
    the call raised. *)
Theorem failed_call_extends_cache
    eng query key value (d : gmap string (tensor F)) (m : tensor F) rp pkv
    bsz tgt (P : nat) :
  sound eng →
  flash_attention eng = false →
  shape query = [bsz; tgt; embed_dim eng] →
  shape key = [bsz; tgt; embed_dim eng] →
  last (shape value) = Some (embed_dim eng) →
  numel (shape value) = numel [bsz; tgt; embed_dim eng] →
  0 < bsz →
  stored_len eng bsz (Some d) P →
  ∃ err d',
    forward eng query key (Some value) (Some d) None (Some m) rp pkv
    = (Err err, Some d') ∧
    stored_len eng bsz (Some d') (P + tgt).
Proof.
  intros [Hh Hd HE Pq Pk Pv Pout Pln Hxp Hdrop] Hf Sq Sk Lv Nv Hb Hst.
  destruct (before_cache_Ok eng query key value pkv bsz tgt)
    as (q & k & v & Hbc & S1 & S2 & S3); try done.
  destruct (merge_cache_stored eng bsz tgt k v (Some d) P)
    as (k1 & v1 & st' & Hm & Sk1 & Sv1 & d' & -> & Hd'); try done.
  unfold forward. rewrite Hbc, Hm. unfold after_cache.
  destruct (apply_xpos_Ok eng (bool_decide (is_Some (Some d))) (P + tgt) q k1 Hxp)
    as (q2 & k2 & -> & Sq2 & Sk2).
  rewrite Ok_bind.
  pose proof (attend_with_mask eng bsz tgt (P + tgt) q2 k2 v1 m rp Hdrop)
    as Hatt.
  destruct (attend eng bsz tgt (P + tgt) q2 k2 v1 None (Some m) rp)
    as [r|err]; [done|].
  exists err, d'. done.
Qed.

(** X10.  For a positive width and a positive head count that divides it,
    and constructors whose products honour their contracts, the object
    [__init__] returns is an engine, and a sound one, of that width and
    head count: if built without the fused kernel, it serves the calls
    described in X8. *)
Theorem init_sound (p : parts F) (E H : Z)
    (sa eda subln casual flash : bool) (o : object F) :
  init p E H sa eda subln casual flash = Ok o →
  (0 < H)%Z → (0 < E)%Z → (E mod H = 0)%Z →
  (∀ a, new_q_proj p = Ok a → projects (Z.to_nat E) a) →
  (∀ a, new_k_proj p = Ok a → projects (Z.to_nat E) a) →
  (∀ a, new_v_proj p = Ok a → projects (Z.to_nat E) a) →
  (∀ a, new_out_proj p = Ok a → projects (Z.to_nat E) a) →
  (∀ a, new_layer_norm p = Ok a → projects (Z.to_nat E) a) →
  (∀ enc, new_xpos p = Ok enc → encodes enc) →
  (∀ d, new_dropout p = Ok d → ∀ t, shape (d t) = shape t) →
  ∃ eng, serve o = Some eng ∧ sound eng ∧
    embed_dim eng = Z.to_nat E ∧ num_heads eng = Z.to_nat H ∧
    head_dim eng = Z.to_nat (E / H) ∧ flash_attention eng = flash.
Proof.
  intros Hi HH HE Hmod Pq Pk Pv Po Pl Px Pd. unfold init in Hi.
  rewrite decide_False in Hi by lia.
  assert (E = H * (E / H))%Z as Hdiv
    by (pose proof (Z.div_mod E H ltac:(lia)); lia).
  assert (0 < E / H)%Z as HD by nia.
  unfold power_neg_half in Hi.
  destruct (too_large_for_float (E / H)); [discriminate|].
  rewrite decide_False, decide_True, Ok_bind in Hi by lia.
  destruct (xorb sa eda); [|discriminate]. simpl in Hi.
  unfold submodules in Hi.
  destruct (new_k_proj p) as [kp|] eqn:Hkp; [|discriminate].
  destruct (new_v_proj p) as [vp|] eqn:Hvp; [|discriminate].
  destruct (new_q_proj p) as [qp|] eqn:Hqp; [|discriminate].
  destruct (new_out_proj p) as [op|] eqn:Hop; [|discriminate].
  rewrite !Ok_bind in Hi.
  destruct (optional (subln && sa) (new_layer_norm p)) as [ln|] eqn:Hln;
    [|discriminate].
  destruct (new_dropout p) as [dm|] eqn:Hdm; [|discriminate].
  destruct (xpos_rel_pos p) as [rel|]; [|discriminate].
  rewrite !Ok_bind in Hi.
  destruct (optional (rel && sa) (new_xpos p)) as [xp|] eqn:Hxp;
    [|discriminate].
  destruct (optional flash (new_flash_mha p)) as [fm|]; [|discriminate].
  destruct (flash_config p) as [[]|]; [|discriminate].
  simpl in Hi. injection Hi as <-.
  unfold serve. simpl. rewrite decide_True by lia.
  eexists. split; [done|]. split; [|done].
  split; simpl; try lia; eauto.
  - intros a ->. unfold optional in Hln.
    destruct (subln && sa); [|discriminate].
    destruct (new_layer_norm p) as [a'|] eqn:Ha; [|discriminate].
    injection Hln as <-. by apply Pl.
  - intros enc ->. unfold optional in Hxp.
    destruct (rel && sa); [|discriminate].
    destruct (new_xpos p) as [enc'|] eqn:Ha; [|discriminate].
    injection Hxp as <-. by apply Px.
  - intros t. by apply Pd.
Qed.

Lemma project_inv eng query key value pkv q k v :
  project eng query key value pkv = Ok (q, k, v) →
  k_proj eng key = Ok k ∧ v_proj eng value = Ok v.
Proof.
  unfold project. intros H.
  apply bind_Ok in H as (u & _ & H).
  apply bind_Ok in H as (q' & _ & H).
  apply bind_Ok in H as (k' & Hk & H).
  apply bind_Ok in H as (v' & Hv & H).
  by injection H as _ <- <-.
Qed.

(** X11.  What a call that returned must have looked like.  With the
    position encoder, dropout and the key and value projections keeping
    shapes, a returned result means: the engine is on the reference path, no
    padding mask and no additive mask were passed, a value was passed, and
    key and value each carry, per batch entry, exactly as many elements as
    the query has positions times [heads * head_dim]. *)
Theorem returning_call eng query key value st kpm am rp pkv r st' :
  (∀ enc, xpos eng = Some enc → encoder_keeps_shape enc) →
  dropout_keeps_shape eng →
  keeps_shape (k_proj eng) → keeps_shape (v_proj eng) →
  forward eng query key value st kpm am rp pkv = (Ok r, st') →
  flash_attention eng = false ∧ kpm = None ∧ am = None ∧
  ∃ bsz tgt src e' val,
    shape query = [bsz; tgt; embed_dim eng] ∧
    shape key = [bsz; src; e'] ∧
    value = Some val ∧
    src * e' = tgt * (num_heads eng * head_dim eng) ∧
    numel (shape val) = bsz * (tgt * (num_heads eng * head_dim eng)).
Proof.
  intros Hx Hdrop Kk Kv Hf.
  assert (flash_attention eng = false) as Hfl.
  { destruct (flash_attention eng) eqn:Hfl; [|done].
    pose proof (fused_path_never_returns
                  eng query key value st kpm am rp pkv Hfl Hx) as Hn.
    by rewrite Hf in Hn. }
  unfold forward in Hf.
  destruct (before_cache eng query key value kpm pkv)
    as [[[[[[[bsz tgt] e] src] q] k] v]|err] eqn:Hb; [|done].
  destruct (before_cache_batch _ _ _ _ _ _ _ _ _ _ _ _ _ Hb)
    as (Hbsz & -> & Sq & -> & e' & Sk).
  split_and!; [done..| |].
  - destruct am as [m|]; [|done]. exfalso.
    destruct (merge_cache eng bsz src k v st) as [[[[k1 v1] src1]|] st1];
      [|done].
    injection Hf as Hf _. unfold after_cache in Hf.
    destruct (apply_xpos eng _ src1 q k1) as [[q2 k2]|]; [|done].
    rewrite Ok_bind in Hf.
    pose proof (attend_with_mask eng bsz tgt src1 q2 k2 v1 m rp Hdrop) as Hatt.
    destruct (attend eng bsz tgt src1 q2 k2 v1 None (Some m) rp); done.
  - clear Hf. unfold before_cache in Hb.
    apply bind_Ok in Hb as ([[[[b t] e] s] val] & Hc & Hb). simpl in Hb.
    apply bind_Ok in Hb as ([[q1 k1] v1] & Hp & Hb). simpl in Hb.
    apply bind_Ok in Hb as ([[q2 k2] v2] & Hpr & Hb). simpl in Hb.
    apply bind_Ok in Hb as ([[q3 k3] v3] & Hs & Hb). simpl in Hb.
    injection Hb as -> -> -> -> _ _ _.
    apply check_inputs_inv in Hc as (_ & _ & _ & -> & _).
    apply project_inv in Hp as [Hk Hv].
    apply Kk in Hk. apply Kv in Hv.
    apply prune_qkv_shape in Hpr as (_ & Tk & Tv).
    apply split_heads_reference in Hs as (_ & _ & _ & Nk & Nv); [|done].
    rewrite Tk, Hk, Sk in Nk. rewrite Tv, Hv in Nv.
    exists bsz, tgt, src, e', val. split_and!; try done.
    + simpl in Nk.
      assert (bsz * (src * e')
              = bsz * (tgt * (num_heads eng * head_dim eng))) as Hmul by lia.
      apply Nat.mul_cancel_l in Hmul; [done|lia].
    + lia.
Qed.

(** ** [apply_pruning] in full *)

Lemma int_times_errors (n : nat) (x : pyfloat) e :
  int_times n x = Err e →
  (e = ValueError ∧ ∀ s m e', x ≠ FFinite s m e') ∨ e = OverflowError.
Proof.
  unfold int_times, int_times_Z.
  destruct (binary64 _ 0) as [a ea]. destruct x as [|s|s m e'].
  - intros [= <-]. by left.
  - case_decide; intros [= <-]; [by left|by right].
  - destruct (binary64 _ _) as [q x]. destruct (overflows q x); [|done].
    intros [= <-]. by right.
Qed.

(** X12.  When [apply_pruning] returns and what it raises otherwise, for any
    tensor and any float [top_k], with [p = int(n * top_k)] as line 269
    computes it in binary64 for a last axis of [n] entries.  It returns,
    keeping the shape, exactly when the tensor has a last axis of [n > 0]
    entries, the product can be truncated and [max(p, 1) <= n]; a tensor
    without axes raises [IndexError] at line 269; a NaN product raises
    [ValueError] and an infinite one [OverflowError] there, the first only
    for a [top_k] that is not finite; an empty last axis or a [k] above [n]
    is refused by [torch.topk].  At the default 0.5 every tensor with a
    non-empty last axis is accepted. *)
Theorem apply_pruning_outcome (t : tensor F) (top_k : pyfloat) :
  match apply_pruning t top_k with
  | Ok t' =>
      shape t' = shape t ∧
      ∃ n p, last (shape t) = Some n ∧ int_times n top_k = Ok p ∧
             0 < n ∧ (p ≤ Z.of_nat n)%Z
  | Err e =>
      (e = IndexError ∧ shape t = []) ∨
      (∃ n, last (shape t) = Some n ∧ int_times n top_k = Err e ∧
            ((e = ValueError ∧ ∀ s m e', top_k ≠ FFinite s m e') ∨
             e = OverflowError)) ∨
      (e = RuntimeError "topk" ∧
       ∃ n p, last (shape t) = Some n ∧ int_times n top_k = Ok p ∧
              (n = 0 ∨ (Z.of_nat n < p)%Z))
  end ∧
  (top_k = one_half →
   ∀ n, last (shape t) = Some n → 0 < n →
        is_ok (apply_pruning t top_k) = true).
Proof.
  split.
  - unfold apply_pruning.
    destruct (last (shape t)) as [n|] eqn:Hl.
    + destruct (int_times n top_k) as [p|e] eqn:Hp.
      * rewrite Ok_bind. case_decide as Hk.
        -- rewrite tmul_same_shape by done.
           split; [done|]. exists n, p. split_and!; [done|done|lia..].
        -- right. right. split; [done|]. exists n, p.
           split_and!; [done|done|lia].
      * right. left. exists n. split_and!; [done|done|].
        by apply int_times_errors in Hp.
    + left. split; [done|]. by apply last_None.
  - intros -> n Hl Hn.
    by destruct (apply_pruning_half_Ok t n Hl Hn) as (t' & -> & _).
Qed.

(** ** Splitting into heads and folding back *)

Lemma ravel_lt s idx : Forall2 lt idx s → ravel s idx < numel s.
Proof.
  induction 1 as [|i a idx s Hi _ IH]; simpl; [lia|]. nia.
Qed.

Lemma unravel_ravel s idx :
  Forall2 lt idx s → unravel s (ravel s idx) = idx.
Proof.
  induction 1 as [|i a idx s Hi Hrest IH]; simpl; [done|].
  pose proof (ravel_lt _ _ Hrest) as Hlt.
  assert (numel s ≠ 0) by lia.
  rewrite Nat.div_add_l, Nat.div_small, Nat.add_0_r by done.
  rewrite Nat.add_comm, Nat.Div0.mod_add, Nat.mod_small by done.
  by rewrite IH.
Qed.

Lemma unravel_lt s i : i < numel s → Forall2 lt (unravel s i) s.
Proof.
  revert i. induction s as [|a s IH]; intros i Hi; simpl in *; [constructor|].
  assert (numel s ≠ 0) by (intros E; rewrite E in Hi; lia).
  constructor.
  - apply Nat.Div0.div_lt_upper_bound. lia.
  - apply IH. apply Nat.mod_upper_bound. done.
Qed.

Lemma ravel_unravel s i : i < numel s → ravel s (unravel s i) = i.
Proof.
  revert i. induction s as [|a s IH]; intros i Hi; simpl in *; [lia|].
  assert (numel s ≠ 0) by (intros E; rewrite E in Hi; lia).
  rewrite IH by (by apply Nat.mod_upper_bound).
  pose proof (Nat.div_mod_eq i (numel s)). lia.
Qed.

Lemma lookup_omap_seq {A} (f : nat → option A) n j :
  (∀ i, i < n → is_Some (f i)) → j < n → omap f (seq 0 n) !! j = f j.
Proof.
  assert (∀ s, (∀ i, i < n → is_Some (f (s + i))) → j < n →
               omap f (seq s n) !! j = f (s + j)) as Hgen.
  { revert j. induction n as [|n IH]; intros j s Hf Hj; [lia|].
    simpl. destruct (Hf 0) as [x Hx]; [lia|].
    rewrite Nat.add_0_r in Hx. rewrite Hx.
    destruct j as [|j]; simpl.
    - by rewrite Nat.add_0_r.
    - rewrite IH; [by rewrite Nat.add_succ_r|..|lia].
      intros i Hi. specialize (Hf (S i)). rewrite Nat.add_succ_r in Hf.
      apply Hf. lia. }
  intros Hf Hj. by apply (Hgen 0).
Qed.

Lemma length_omap_seq {A} (f : nat → option A) n :
  (∀ i, i < n → is_Some (f i)) → length (omap f (seq 0 n)) = n.
Proof.
  assert (∀ s, (∀ i, i < n → is_Some (f (s + i))) →
               length (omap f (seq s n)) = n) as Hgen.
  { induction n as [|n IH]; intros s Hf; [done|].
    simpl. destruct (Hf 0) as [x Hx]; [lia|].
    rewrite Nat.add_0_r in Hx. rewrite Hx. simpl. f_equal.
    apply IH. intros i Hi. specialize (Hf (S i)).
    rewrite Nat.add_succ_r in Hf. apply Hf. lia. }
  intros Hf. by apply (Hgen 0).
Qed.

(** A [gather] that reads inside its source: the element at every flat
    index, and the element count. *)
Lemma gather_inside {A} (src : tensor A) out f :
  (∀ j, j < numel out →
        ravel (shape src) (f (unravel out j)) < length (data src)) →
  wf (gather src out f) ∧
  ∀ i, i < numel out →
       data (gather src out f) !! i
       = data src !! ravel (shape src) (f (unravel out i)).
Proof.
  intros Hin.
  assert (∀ i, i < numel out →
               is_Some (data src !! ravel (shape src) (f (unravel out i))))
    as Hsome by (intros i Hi; by apply lookup_lt_is_Some, Hin).
  split.
  - unfold wf, gather. simpl. by apply length_omap_seq.
  - intros i Hi. unfold gather. simpl.
    by rewrite (lookup_omap_seq
                  (fun i => data src !! ravel (shape src) (f (unravel out i)))).
Qed.

Lemma unravel3 a b c i :
  i < a * (b * c) →
  ∃ x y z, unravel [a; b; c] i = [x; y; z] ∧ x < a ∧ y < b ∧ z < c ∧
           i = x * (b * c) + y * c + z.
Proof.
  intros Hi.
  assert (i < numel [a; b; c]) as Hn by (simpl; lia).
  pose proof (unravel_lt _ _ Hn) as Hlt.
  pose proof (ravel_unravel _ _ Hn) as Hr.
  destruct (unravel [a; b; c] i) as [|x [|y [|z [|]]]];
    try (by repeat (inversion Hlt as [|? ? ? ? ? Hlt']; clear Hlt;
                    rename Hlt' into Hlt; subst)).
  exists x, y, z.
  apply Forall2_cons in Hlt as [? Hlt].
  apply Forall2_cons in Hlt as [? Hlt].
  apply Forall2_cons in Hlt as [? _].
  simpl in Hr. split_and!; try done. lia.
Qed.

Lemma unravel4 a b c d i :
  i < a * (b * (c * d)) →
  ∃ x y z w, unravel [a; b; c; d] i = [x; y; z; w] ∧
             x < a ∧ y < b ∧ z < c ∧ w < d ∧
             i = x * (b * (c * d)) + y * (c * d) + z * d + w.
Proof.
  intros Hi.
  assert (i < numel [a; b; c; d]) as Hn by (simpl; lia).
  pose proof (unravel_lt _ _ Hn) as Hlt.
  pose proof (ravel_unravel _ _ Hn) as Hr.
  destruct (unravel [a; b; c; d] i) as [|x [|y [|z [|w [|]]]]];
    try (by repeat (inversion Hlt as [|? ? ? ? ? Hlt']; clear Hlt;
                    rename Hlt' into Hlt; subst)).
  exists x, y, z, w.
  apply Forall2_cons in Hlt as [? Hlt].
  apply Forall2_cons in Hlt as [? Hlt].
  apply Forall2_cons in Hlt as [? Hlt].
  apply Forall2_cons in Hlt as [? _].
  simpl in Hr. split_and!; try done. lia.
Qed.

Lemma unravel3_at a b c x y z :
  x < a → y < b → z < c →
  unravel [a; b; c] (x * (b * c) + y * c + z) = [x; y; z].
Proof.
  intros. rewrite <- (unravel_ravel [a; b; c] [x; y; z])
    by (repeat constructor; done).
  f_equal. simpl. lia.
Qed.

Lemma unravel4_at a b c d x y z w :
  x < a → y < b → z < c → w < d →
  unravel [a; b; c; d] (x * (b * (c * d)) + y * (c * d) + z * d + w)
  = [x; y; z; w].
Proof.
  intros. rewrite <- (unravel_ravel [a; b; c; d] [x; y; z; w])
    by (repeat constructor; done).
  f_equal. simpl. lia.
Qed.

(** [x.transpose(1, 2)] on four axes and [x.transpose(0, 1)] on three,
    element by element. *)
Lemma transposed_12 (t : tensor F) a b c d :
  wf t → shape t = [a; b; c; d] →
  ∃ t', transpose 1 2 t = Ok t' ∧ shape t' = [a; c; b; d] ∧ wf t' ∧
    ∀ x y z w, x < a → y < c → z < b → w < d →
      data t' !! (x * (c * (b * d)) + y * (b * d) + z * d + w)
      = data t !! (x * (b * (c * d)) + z * (c * d) + y * d + w).
Proof.
  intros Hwf St. unfold transpose.
  rewrite decide_True by (rewrite St; simpl; lia).
  eexists. split; [done|]. rewrite St.
  change (swap_at 1 2 [a; b; c; d]) with [a; c; b; d].
  destruct (gather_inside t [a; c; b; d] (swap_at 1 2)) as [Hwf' Hlk].
  { intros j Hj.
    destruct (unravel4 a c b d j) as (x & y & z & w & -> & ? & ? & ? & ? & _);
      [simpl in Hj; lia|].
    rewrite Hwf, St. apply ravel_lt. repeat constructor; done. }
  split_and!; [done|done|].
  intros x y z w Hx Hy Hz Hw.
  assert (ravel [a; c; b; d] [x; y; z; w] < numel [a; c; b; d]) as Hlt
    by (apply ravel_lt; repeat constructor; done).
  simpl in Hlt.
  rewrite Hlk by (simpl; lia).
  rewrite unravel4_at by done. rewrite St. f_equal. simpl. lia.
Qed.

Lemma transposed_01 (t : tensor F) a b c :
  wf t → shape t = [a; b; c] →
  ∃ t', transpose 0 1 t = Ok t' ∧ shape t' = [b; a; c] ∧ wf t' ∧
    ∀ x y z, x < b → y < a → z < c →
      data t' !! (x * (a * c) + y * c + z)
      = data t !! (y * (b * c) + x * c + z).
Proof.
  intros Hwf St. unfold transpose.
  rewrite decide_True by (rewrite St; simpl; lia).
  eexists. split; [done|]. rewrite St.
  change (swap_at 0 1 [a; b; c]) with [b; a; c].
  destruct (gather_inside t [b; a; c] (swap_at 0 1)) as [Hwf' Hlk].
  { intros j Hj.
    destruct (unravel3 b a c j) as (x & y & z & -> & ? & ? & ? & _);
      [simpl in Hj; lia|].
    rewrite Hwf, St. apply ravel_lt. repeat constructor; done. }
  split_and!; [done|done|].
  intros x y z Hx Hy Hz.
  assert (ravel [b; a; c] [x; y; z] < numel [b; a; c]) as Hlt
    by (apply ravel_lt; repeat constructor; done).
  simpl in Hlt.
  rewrite Hlk by (simpl; lia).
  rewrite unravel3_at by done. rewrite St. f_equal. simpl. lia.
Qed.

Lemma to_from_heads (t : tensor F) bsz len H D :
  wf t → shape t = [bsz; len; H * D] →
  ∃ t', to_heads t bsz len H D = Ok t' ∧
    shape t' = [bsz * H; len; D] ∧
    from_heads t' bsz len (H * D) = Ok t.
Proof.
  intros Hwf St. unfold to_heads, from_heads.
  unfold view. rewrite decide_True by (rewrite St; simpl; lia).
  rewrite Ok_bind.
  destruct (transposed_12 (Tensor [bsz; len; H; D] (data t)) bsz len H D)
    as (t2 & -> & S2 & W2 & L2); [|done|].
  { unfold wf. simpl. rewrite Hwf, St. simpl. lia. }
  rewrite Ok_bind.
  rewrite (reshape_eq t2) by (rewrite S2; simpl; lia).
  eexists. split; [done|]. split; [done|].
  destruct (transposed_01 (Tensor [bsz * H; len; D] (data t2)) (bsz * H) len D)
    as (t4 & -> & S4 & W4 & L4); [|done|].
  { unfold wf. simpl. rewrite W2, S2. simpl. lia. }
  rewrite Ok_bind.
  rewrite (reshape_eq t4) by (rewrite S4; simpl; lia).
  rewrite Ok_bind.
  destruct (transposed_01 (Tensor [len; bsz; H * D] (data t4)) len bsz (H * D))
    as (t6 & -> & S6 & W6 & L6); [|done|].
  { unfold wf. simpl. rewrite W4, S4. simpl. lia. }
  f_equal. destruct t6 as [s6 d6], t as [s d]. simpl in *. subst s6 s.
  f_equal. unfold wf in Hwf, W6. simpl in Hwf, W6.
  apply list_eq. intros i.
  destruct (decide (i < bsz * (len * (H * D)))) as [Hi|Hi].
  - destruct (unravel3 bsz len (H * D) i) as (x & y & z & _ & Hx & Hy & Hz & ->);
      [done|].
    rewrite L6 by done.
    assert (D ≠ 0) as HD by (intros ->; lia).
    pose proof (Nat.div_mod_eq z D) as Hz'.
    pose proof (Nat.mod_upper_bound z D HD) as Hd.
    assert (z / D < H) as Hh by (apply Nat.Div0.div_lt_upper_bound; lia).
    set (h := z / D) in *. set (r := z mod D) in *.
    replace (y * (bsz * (H * D)) + x * (H * D) + z)
      with (y * (bsz * H * D) + (x * H + h) * D + r) by lia.
    rewrite L4 by (try done; nia).
    replace ((x * H + h) * (len * D) + y * D + r)
      with (x * (H * (len * D)) + h * (len * D) + y * D + r) by lia.
    rewrite L2 by done. simpl. f_equal. lia.
  - rewrite !lookup_ge_None_2; [done|lia..].
Qed.

Lemma reassemble_from_heads eng bsz tgt e src attn aw :
  reassemble eng bsz tgt e src attn aw
  = (folded ← from_heads attn bsz tgt e;
     attn ← match inner_attn_ln eng with
             | Some ln => ln folded
             | None => Ok folded
             end;
     attn ← out_proj eng attn;
     attn_weights ← view aw [bsz; num_heads eng; tgt; src];
     attn_weights ← transpose 1 0 attn_weights;
     Ok (attn, attn_weights)).
Proof.
  unfold reassemble, from_heads.
  destruct (transpose 0 1 attn) as [a1|]; [|done]. rewrite !Ok_bind.
  destruct (reshape a1 [tgt; bsz; e]) as [a2|]; [|done]. rewrite !Ok_bind.
  done.
Qed.

(** X13.  The head split of lines 323-330 and the fold of line 399 are
    inverse to each other.  On the reference path each of [q], [k], [v], of
    shape [(bsz, len, heads * head_dim)], comes out of the split with batch
    and heads merged in front, and line 399 applied to it gives back the
    tensor that went in, element for element. *)
Theorem heads_round_trip eng bsz len q k v kpm :
  flash_attention eng = false →
  wf q → wf k → wf v →
  shape q = [bsz; len; num_heads eng * head_dim eng] →
  shape k = [bsz; len; num_heads eng * head_dim eng] →
  shape v = [bsz; len; num_heads eng * head_dim eng] →
  ∃ q' k' v',
    split_heads eng bsz len len q k v kpm = Ok (q', k', v') ∧
    from_heads q' bsz len (num_heads eng * head_dim eng) = Ok q ∧
    from_heads k' bsz len (num_heads eng * head_dim eng) = Ok k ∧
    from_heads v' bsz len (num_heads eng * head_dim eng) = Ok v ∧
    ∀ aw src,
      reassemble eng bsz len (num_heads eng * head_dim eng) src v' aw
      = (attn ← match inner_attn_ln eng with
                 | Some ln => ln v
                 | None => Ok v
                 end;
         attn ← out_proj eng attn;
         attn_weights ← view aw [bsz; num_heads eng; len; src];
         attn_weights ← transpose 1 0 attn_weights;
         Ok (attn, attn_weights)).
Proof.
  intros Hf Wq Wk Wv Sq Sk Sv.
  destruct (to_from_heads q bsz len _ _ Wq Sq) as (q' & Hq & _ & Fq).
  destruct (to_from_heads k bsz len _ _ Wk Sk) as (k' & Hk & _ & Fk).
  destruct (to_from_heads v bsz len _ _ Wv Sv) as (v' & Hv & _ & Fv).
  exists q', k', v'. split_and!; try done.
  - unfold split_heads. rewrite Hf. unfold to_heads in Hq, Hk, Hv.
    apply bind_Ok in Hq as (q1 & -> & Hq).
    apply bind_Ok in Hk as (k1 & -> & Hk).
    apply bind_Ok in Hv as (v1 & -> & Hv).
    rewrite !Ok_bind, Hq, Hk, Hv. done.
  - intros aw src. rewrite reassemble_from_heads, Fv. done.
Qed.

(** ** One position: attention hands the value through *)

Lemma bind_seq_rows {A} (f : nat → list A) (l : list A) n D :
  length l = n * D →
  (∀ i, i < n → f i = take D (drop (i * D) l)) →
  seq 0 n ≫= f = l.
Proof.
  assert (∀ s l', length l' = n * D →
            (∀ i, i < n → f (s + i) = take D (drop (i * D) l')) →
            seq s n ≫= f = l') as Hgen.
  { induction n as [|n IH]; intros s l' Hl Hf.
    - by destruct l'.
    - cbn [seq]. rewrite bind_cons.
      assert (f s = take D l') as ->.
      { rewrite <- (Nat.add_0_r s) at 1. by rewrite Hf by lia. }
      rewrite (IH (S s) (drop D l')); [apply take_drop|..].
      + rewrite length_drop, Hl. simpl. lia.
      + intros i Hi. replace (S s + i) with (s + S i) by lia.
        rewrite Hf by lia. rewrite drop_drop. done. }
  intros Hl Hf. by apply (Hgen 0).
Qed.

Lemma bind_singletons {A B} (h : A → B) (l : list A) :
  l ≫= (fun x => [h x]) = h <$> l.
Proof.
  induction l as [|x l IH]; [done|]. rewrite bind_cons, IH. done.
Qed.

Lemma length_bind_const {A B} (f : A → list B) (l : list A) L :
  (∀ x, length (f x) = L) → length (l ≫= f) = length l * L.
Proof.
  intros Hf. induction l as [|x l IH]; [done|].
  rewrite bind_cons, length_app, Hf, IH. simpl. lia.
Qed.

Lemma bmm_wf (a b c : tensor F) : bmm a b = Ok c → wf c.
Proof.
  intros H. destruct (bmm_Ok _ _ _ H) as (n & t & d & s & Sa & Sb & _).
  unfold bmm in H. rewrite Sa, Sb, decide_True in H by done.
  injection H as <-. unfold wf. simpl.
  rewrite (length_bind_const _ _ (t * s)), length_seq; [lia|].
  intros i. rewrite (length_bind_const _ _ s), length_seq; [lia|].
  intros r. rewrite (length_bind_const _ _ 1), length_seq; [lia|done].
Qed.

Lemma softmax_alone (t : tensor F) n :
  wf t → shape t = [n; 1; 1] → Forall alone_gives_one (data t) →
  softmax t = Tensor [n; 1; 1] (replicate n fone).
Proof.
  intros Hwf St Hone. unfold softmax, rows. rewrite St. f_equal.
  unfold wf in Hwf. rewrite St in Hwf.
  change (last [n; 1; 1]) with (Some 1).
  change (removelast [n; 1; 1]) with [n; 1].
  replace (numel [n; 1]) with n by (simpl; lia).
  replace (numel [n; 1; 1]) with n in Hwf by (simpl; lia).
  revert Hwf Hone. generalize (data t). clear.
  induction n as [|n IH]; intros l Hl Hone; [done|].
  destruct l as [|x l]; [done|].
  apply Forall_cons in Hone as [Hx Hone].
  simpl. rewrite Hx. simpl. f_equal. rewrite drop_0.
  apply IH; [by injection Hl|done].
Qed.

Lemma bmm_ones (v : tensor F) n D :
  exact_at_one → wf v → shape v = [n; 1; D] →
  bmm (Tensor [n; 1; 1] (replicate n fone)) v = Ok v.
Proof.
  intros (_ & _ & Hmul & Hadd) Hwf Sv. unfold bmm. simpl. rewrite Sv.
  rewrite decide_True by done. f_equal.
  destruct v as [s d]. unfold wf in Hwf. simpl in *. subst s. f_equal.
  simpl in Hwf.
  apply (bind_seq_rows _ _ n D); [lia|].
  intros i Hi. rewrite app_nil_r.
  rewrite (bind_singletons
             (fun c => fadd
                (fmul (at_flat (Tensor [n; 1; 1] (replicate n fone))
                         (i * 1 * 1 + 0 + 0))
                      (at_flat (Tensor [n; 1; D] d) (i * 1 * D + 0 + c)))
                fzero)).
  apply list_eq. intros c. rewrite list_lookup_fmap.
  destruct (decide (c < D)) as [Hc|Hc].
  - rewrite lookup_seq_lt by done. simpl.
    rewrite lookup_take_lt, lookup_drop by done.
    unfold at_flat. simpl.
    rewrite lookup_replicate_2 by lia. simpl. rewrite Hmul, Hadd.
    replace (i * 1 * D + 0 + c) with (i * D + c) by lia.
    destruct (lookup_lt_is_Some_2 d (i * D + c)) as [x Hx]; [nia|].
    rewrite Hx. done.
  - rewrite lookup_seq_ge by lia. simpl.
    rewrite lookup_take_ge by lia. done.
Qed.

Lemma to_heads_wf (t t' : tensor F) bsz len H D :
  wf t → shape t = [bsz; len; H * D] →
  to_heads t bsz len H D = Ok t' → wf t'.
Proof.
  intros Hwf St. unfold to_heads, view.
  rewrite decide_True by (rewrite St; simpl; lia). rewrite Ok_bind.
  destruct (transposed_12 (Tensor [bsz; len; H; D] (data t)) bsz len H D)
    as (t2 & -> & S2 & W2 & _); [|done|].
  { unfold wf. simpl. rewrite Hwf, St. simpl. lia. }
  rewrite Ok_bind, (reshape_eq t2) by (rewrite S2; simpl; lia).
  intros [= <-]. unfold wf. simpl. rewrite W2, S2. simpl. lia.
Qed.

Lemma all_ones_transposed (n a b : nat) (w : tensor F) :
  n = a * b →
  transpose 1 0 (Tensor [a; b; 1; 1] (replicate n fone)) = Ok w →
  w = Tensor [b; a; 1; 1] (replicate (b * a) (fone : F)).
Proof.
  intros -> H. unfold transpose in H.
  rewrite decide_True in H by (simpl; lia). injection H as <-.
  cbn [shape].
  change (swap_at 1 0 [a; b; 1; 1]) with [b; a; 1; 1].
  destruct (gather_inside (Tensor [a; b; 1; 1] (replicate (a * b) (fone : F)))
              [b; a; 1; 1] (swap_at 1 0)) as [Hwf Hlk].
  { intros j Hj.
    destruct (unravel4 b a 1 1 j) as (x & y & z & u & -> & ? & ? & ? & ? & _);
      [simpl in Hj; lia|].
    simpl. rewrite length_replicate.
    assert (ravel [a; b; 1; 1] [y; x; z; u] < numel [a; b; 1; 1]) as Hlt
      by (apply ravel_lt; repeat (apply Forall2_cons; split; [done|]);
          by apply Forall2_nil).
    simpl in Hlt. simpl. lia. }
  unfold wf in Hwf.
  destruct (gather _ _ _) as [s d] eqn:Hg.
  assert (s = [b; a; 1; 1]) as -> by (by injection Hg as <- _).
  clear Hg. cbn [shape data] in *. f_equal. simpl in Hwf.
  apply list_eq. intros i.
  destruct (decide (i < b * a)) as [Hi|Hi].
  - rewrite Hlk by (simpl; lia).
    destruct (unravel4 b a 1 1 i) as (x & y & z & u & -> & ? & ? & ? & ? & _);
      [lia|].
    change (swap_at 1 0 [x; y; z; u]) with [y; x; z; u].
    assert (ravel [a; b; 1; 1] [y; x; z; u] < numel [a; b; 1; 1]) as Hlt
      by (apply ravel_lt; repeat (apply Forall2_cons; split; [done|]);
          by apply Forall2_nil).
    rewrite (lookup_replicate_2 (b * a)) by done.
    apply lookup_replicate_2. simpl in Hlt |- *. lia.
  - rewrite lookup_ge_None_2 by lia.
    rewrite lookup_ge_None_2; [done|]. rewrite length_replicate. lia.
Qed.

Lemma attend_single eng bsz q k v n D scores :
  eval_mode eng → exact_at_one →
  wf v → shape v = [n; 1; D] →
  masked_scores eng bsz 1 1 q k None None = Ok scores →
  shape scores = [n; 1; 1] →
  Forall alone_gives_one (data scores) →
  attend eng bsz 1 1 q k v None None None
  = Ok (v, Tensor [n; 1; 1] (replicate n fone)).
Proof.
  intros Heval Hex Wv Sv Hs Ss Hone. unfold attend. rewrite Hs, Ok_bind.
  assert (wf scores) as Ws.
  { unfold masked_scores in Hs. apply bind_Ok in Hs as (s' & Hs & Hs').
    injection Hs' as <-. apply bind_Ok in Hs as (kt & _ & Hs).
    by apply bmm_wf in Hs. }
  rewrite (softmax_alone scores n) by done.
  rewrite Ok_bind. rewrite Heval.
  pose proof Hex as (H16 & H32 & _).
  unfold tmap. simpl. rewrite !fmap_replicate, H16, H32.
  rewrite (bmm_ones v n D) by done. done.
Qed.

(** X14.  Sequences of one position, no cache, no masks.  On a sound
    engine on the reference path with dropout inactive, if softmax maps each
    score of the call, taken alone, to 1.0, then the call returns the output
    projection (after the inner normalization, if there is one) of the
    pruned projected value, whatever the query and the key hold, and every
    attention weight is 1.0. *)
Theorem single_position_attention eng query key value pkv bsz v0 v1 :
  sound eng → flash_attention eng = false →
  eval_mode eng → exact_at_one →
  shape query = [bsz; 1; embed_dim eng] →
  shape key = [bsz; 1; embed_dim eng] →
  shape value = [bsz; 1; embed_dim eng] →
  0 < bsz →
  (∀ scores, scores_of eng query key (Some value) pkv = Ok scores →
             Forall alone_gives_one (data scores)) →
  v_proj eng value = Ok v0 → apply_pruning v0 one_half = Ok v1 → wf v1 →
  ∃ a,
    forward eng query key (Some value) None None None None pkv
    = (Ok (a, Tensor [num_heads eng; bsz; 1; 1]
                (replicate (num_heads eng * bsz) fone)), None) ∧
    match inner_attn_ln eng with
    | Some ln => ln v1
    | None => Ok v1
    end ≫= out_proj eng = Ok a.
Proof.
  intros [Hh Hd HE Pq Pk Pv Pout Pln Hxp Hdrop] Hf Heval Hex Sq Sk Sv Hb
    Hscores Hv0 Hv1 Wv1.
  destruct (before_cache_Ok eng query key value pkv bsz 1)
    as (q & k & v & Hbc & S1 & S2 & S3); try done.
  { by rewrite Sv. }
  { by rewrite Sv. }
  (* the value that reaches attention is the pruned projection, split *)
  assert (to_heads v1 bsz 1 (num_heads eng) (head_dim eng) = Ok v) as Hsplit.
  { pose proof Hbc as Hbc'. unfold before_cache in Hbc'.
    rewrite (check_inputs_Ok eng query key value bsz 1 1 (embed_dim eng))
      in Hbc' by done.
    rewrite Ok_bind in Hbc'.
    apply bind_Ok in Hbc' as ([[q1 k1] v1'] & Hp & Hbc'). simpl in Hbc'.
    apply bind_Ok in Hbc' as ([[q2 k2] v2] & Hpr & Hbc'). simpl in Hbc'.
    apply bind_Ok in Hbc' as ([[q3 k3] v3] & Hs & Hbc'). simpl in Hbc'.
    injection Hbc' as -> -> ->.
    apply project_inv in Hp as [_ Hv]. rewrite Hv0 in Hv. injection Hv as <-.
    unfold prune_qkv in Hpr.
    apply bind_Ok in Hpr as (q2' & _ & Hpr).
    apply bind_Ok in Hpr as (k2' & _ & Hpr).
    apply bind_Ok in Hpr as (v2' & Hv2 & Hpr).
    injection Hpr as -> -> ->. rewrite Hv1 in Hv2. injection Hv2 as <-.
    unfold split_heads in Hs. rewrite Hf in Hs.
    apply bind_Ok in Hs as (qa & _ & Hs).
    apply bind_Ok in Hs as (ka & _ & Hs).
    apply bind_Ok in Hs as (va & Hva & Hs).
    apply bind_Ok in Hs as (qb & _ & Hs).
    apply bind_Ok in Hs as (kb & _ & Hs).
    apply bind_Ok in Hs as (vb & Hvb & Hs).
    injection Hs as -> -> ->.
    unfold to_heads. rewrite Hva, Ok_bind. done. }
  assert (shape v1 = [bsz; 1; num_heads eng * head_dim eng]) as Sv1.
  { apply apply_pruning_shape in Hv1. rewrite Hv1.
    destruct (Pv value) as (v0' & Hv0' & Sv0'); [by rewrite Sv|].
    rewrite Hv0 in Hv0'. injection Hv0' as <-.
    by rewrite Sv0', Sv, HE. }
  pose proof (to_heads_wf _ _ _ _ _ _ Wv1 Sv1 Hsplit) as Wv.
  destruct (to_from_heads v1 bsz 1 _ _ Wv1 Sv1) as (v' & Hv' & _ & Hfold).
  rewrite Hsplit in Hv'. injection Hv' as <-.
  destruct (apply_xpos_Ok eng false 1 q k Hxp) as (q2 & k2 & Hx & Sq2 & Sk2).
  destruct (attend_Ok eng bsz 1 1 q2 k2 v None (bsz * num_heads eng)
              (head_dim eng)) as (attn & aw & Hatt & _ & Saw);
    try done; try congruence.
  assert (∃ scores, masked_scores eng bsz 1 1 q2 k2 None None = Ok scores ∧
                    shape scores = [bsz * num_heads eng; 1; 1])
    as (scores & Hms & Sscores).
  { unfold attend in Hatt.
    apply bind_Ok in Hatt as (scores & Hms & Hatt).
    exists scores. split; [done|].
    rewrite Ok_bind in Hatt.
    apply bind_Ok in Hatt as (attn' & _ & Hatt).
    injection Hatt as _ <-. simpl in Saw. by rewrite <- Saw. }
  assert (Forall alone_gives_one (data scores)) as Hone.
  { apply Hscores. unfold scores_of. rewrite Hbc, Ok_bind. simpl.
    rewrite Hx, Ok_bind. done. }
  unfold forward. rewrite Hbc. simpl merge_cache. cbv iota beta.
  unfold after_cache.
  replace (bool_decide (is_Some (None : option (gmap string (tensor F)))))
    with false by done.
  rewrite Hx, Ok_bind.
  rewrite (attend_single eng bsz q2 k2 v (bsz * num_heads eng) (head_dim eng)
             scores) by done.
  rewrite Ok_bind, reassemble_from_heads, HE, Hfold, Ok_bind.
  assert (∃ a, match inner_attn_ln eng with
               | Some ln => ln v1
               | None => Ok v1
               end ≫= out_proj eng = Ok a) as (a & Ha).
  { assert (last (shape v1) = Some (embed_dim eng)) as Lv1
      by (by rewrite Sv1, HE).
    destruct (inner_attn_ln eng) as [ln|] eqn:Hln.
    - destruct (Pln ln eq_refl v1 Lv1) as (a1 & -> & Sa1). rewrite Ok_bind.
      destruct (Pout a1) as (a & -> & _); [by rewrite Sa1|]. eauto.
    - rewrite Ok_bind. destruct (Pout v1 Lv1) as (a & -> & _). eauto. }
  exists a. split; [|done].
  apply bind_Ok in Ha as (a1 & Ha1 & Ha).
  rewrite Ha1, Ok_bind, Ha, Ok_bind.
  unfold view. rewrite decide_True by (simpl; lia). rewrite Ok_bind.
  destruct (transpose 1 0 _) as [w|] eqn:Hw.
  - apply all_ones_transposed in Hw as ->; [|done]. done.
  - unfold transpose in Hw. rewrite decide_True in Hw by (simpl; lia).
    done.
Qed.

End Further.

(** ** The further properties on the integer instance *)

(** The reference-path engines of the examples are sound when the heads
    divide the width. *)
Lemma engine_of_sound (E H : nat) (c : Z) :
  0 < H → 0 < E / H → E = H * (E / H) → sound (Ex.engine_of E H c None).
Proof.
  intros HH HD HE. split; simpl; try done.
  - apply diagonal_projects.
  - apply diagonal_projects.
  - apply diagonal_projects.
  - apply diagonal_projects.
Qed.

(** X2 on the object [__init__] returns for width four and minus one head:
    the head width is minus four, the scaling complex, and the object is no
    engine. *)
Lemma init_invariants_witness :
  self_embed_dim Ex.minus_one_head = 4%Z ∧
  self_num_heads Ex.minus_one_head = (-1)%Z ∧
  self_head_dim Ex.minus_one_head = (4 / -1)%Z ∧
  (-1)%Z ≠ 0%Z ∧ self_head_dim Ex.minus_one_head ≠ 0%Z ∧
  ((0 < -1)%Z →
   (-1 * self_head_dim Ex.minus_one_head ≤ 4
    < -1 * self_head_dim Ex.minus_one_head + -1)%Z) ∧
  ((-1 < 0)%Z →
   (-1 * self_head_dim Ex.minus_one_head + -1 < 4
    ≤ -1 * self_head_dim Ex.minus_one_head)%Z) ∧
  (self_scaling Ex.minus_one_head = ComplexPower
   ↔ (self_head_dim Ex.minus_one_head < 0)%Z) ∧
  self_self_attention Ex.minus_one_head
  = negb (self_encoder_decoder_attention Ex.minus_one_head) ∧
  (is_Some (self_flash_mha Ex.minus_one_head)
   ↔ self_flash_attention Ex.minus_one_head = true) ∧
  (is_Some (self_inner_attn_ln Ex.minus_one_head)
   ↔ false = true ∧ true = true) ∧
  (is_Some (self_xpos Ex.minus_one_head)
   ↔ xpos_rel_pos (Ex.plain_parts 4 1) = Ok true ∧ true = true) ∧
  (is_Some (serve Ex.minus_one_head) ↔ (0 < -1)%Z ∧ (0 < 4 / -1)%Z).
Proof.
  apply (init_invariants (Ex.plain_parts 4 1) 4 (-1) true false false false
           false Ex.minus_one_head).
  reflexivity.
Defined.

(** X5 on a cache that holds one stored key position and no value. *)
Lemma missing_prev_value_raises_witness :
  forward (Ex.engine_of 2 2 1 None) (Ex.token 7 4) (Ex.token 7 4)
    (Some (Ex.token 7 4))
    (Some (<["prev_key" := Ex.vec [1; 2; 1; 1] [0; 5]%Z]> ∅))
    None None None false
  = (Err (KeyError "prev_value"),
     Some (<["prev_key" := Ex.vec [1; 2; 1; 1] [0; 5]%Z]> ∅)).
Proof.
  assert (before_cache (Ex.engine_of 2 2 1 None) (Ex.token 7 4) (Ex.token 7 4)
            (Some (Ex.token 7 4)) None false
          = Ok (1, 1, 2, 1, Ex.vec [2; 1; 1] [7; 0]%Z,
                Ex.vec [2; 1; 1] [7; 0]%Z, Ex.vec [2; 1; 1] [7; 0]%Z)) as Hb
    by (vm_compute; reflexivity).
  apply (missing_prev_value_raises (Ex.engine_of 2 2 1 None)
           (Ex.token 7 4) (Ex.token 7 4) (Some (Ex.token 7 4))
           (<["prev_key" := Ex.vec [1; 2; 1; 1] [0; 5]%Z]> ∅)
           None None None false 1 1 2 1
           (Ex.vec [2; 1; 1] [7; 0]%Z) (Ex.vec [2; 1; 1] [7; 0]%Z)
           (Ex.vec [2; 1; 1] [7; 0]%Z) (Ex.vec [1; 2; 1; 1] [0; 5]%Z) 1).
  - simpl. lia.
  - simpl. lia.
  - exact Hb.
  - vm_compute. reflexivity.
  - reflexivity.
  - vm_compute. reflexivity.
Defined.

(** X6 on a one-token call with an all-zero additive mask. *)
Lemma additive_mask_never_returns_witness :
  is_ok (forward (Ex.engine_of 2 2 1 None) (Ex.token 3 5) (Ex.token 3 5)
           (Some (Ex.token 3 5)) None None (Some (Ex.vec [1; 1; 1] [0]%Z))
           None false).1 = false.
Proof.
  apply (additive_mask_never_returns (Ex.engine_of 2 2 1 None)).
  intros t. reflexivity.
Defined.

(** X7 on width three with two heads: [head_dim] is one. *)
Lemma indivisible_heads_raise_witness :
  forward (Ex.engine_of 3 2 1 None) (Ex.vec [1; 1; 3] [3; 5; 4]%Z)
    (Ex.vec [1; 1; 3] [3; 5; 4]%Z) (Some (Ex.vec [1; 1; 3] [3; 5; 4]%Z))
    None None None None false
  = (Err (RuntimeError "view"), None).
Proof.
  apply (indivisible_heads_raise (Ex.engine_of 3 2 1 None) _ _ _ _ _ _ _ _ 1 1 1).
  - simpl. lia.
  - simpl. lia.
  - apply diagonal_projects.
  - apply diagonal_projects.
  - apply diagonal_projects.
  - reflexivity.
  - reflexivity.
  - reflexivity.
  - lia.
  - lia.
Defined.

(** X8 on the second decoding step: one stored position, one new token, a
    relative bias of four entries. *)
Lemma forward_returns_witness :
  ∃ a w st',
    forward (Ex.engine_of 2 2 1 None) (Ex.token 7 4) (Ex.token 7 4)
      (Some (Ex.token 7 4)) (Some Ex.cache_after_first) None None
      (Some (Ex.vec [2; 1; 2] [2; 3; 1; 6]%Z)) false
    = (Ok (a, w), st') ∧
    shape a = [1; 1; 2] ∧
    shape w = [2; 1; 1; 1 + 1] ∧
    ∃ d', st' = Some d' ∧
      stored_len (Ex.engine_of 2 2 1 None) 1 (Some d') (1 + 1).
Proof.
  apply (forward_returns (Ex.engine_of 2 2 1 None) (Ex.token 7 4)
           (Ex.token 7 4) (Ex.token 7 4) (Some Ex.cache_after_first)
           (Some (Ex.vec [2; 1; 2] [2; 3; 1; 6]%Z)) false 1 1 1).
  - apply engine_of_sound; simpl; lia.
  - reflexivity.
  - reflexivity.
  - reflexivity.
  - reflexivity.
  - reflexivity.
  - lia.
  - exists (Ex.vec [1; 2; 1; 1] [0; 5]%Z). split_and!; reflexivity.
  - reflexivity.
Defined.

(** X9 on the same step with an additive mask. *)
Lemma failed_call_extends_cache_witness :
  ∃ err d',
    forward (Ex.engine_of 2 2 1 None) (Ex.token 7 4) (Ex.token 7 4)
      (Some (Ex.token 7 4)) (Some Ex.cache_after_first) None
      (Some (Ex.vec [1; 1; 2] [0; 0]%Z)) None false
    = (Err err, Some d') ∧
    stored_len (Ex.engine_of 2 2 1 None) 1 (Some d') (1 + 1).
Proof.
  apply (failed_call_extends_cache (Ex.engine_of 2 2 1 None) (Ex.token 7 4)
           (Ex.token 7 4) (Ex.token 7 4) Ex.cache_after_first
           (Ex.vec [1; 1; 2] [0; 0]%Z) None false 1 1 1).
  - apply engine_of_sound; simpl; lia.
  - reflexivity.
  - reflexivity.
  - reflexivity.
  - reflexivity.
  - reflexivity.
  - lia.
  - exists (Ex.vec [1; 2; 1; 1] [0; 5]%Z). split_and!; reflexivity.
Defined.

(** X10 on [plain_parts 2 1] with two heads. *)
Lemma init_sound_witness :
  ∃ eng, serve Ex.two_heads = Some eng ∧ sound eng ∧
    embed_dim eng = Z.to_nat 2 ∧ num_heads eng = Z.to_nat 2 ∧
    head_dim eng = Z.to_nat (2 / 2) ∧ flash_attention eng = false.
Proof.
  apply (init_sound (Ex.plain_parts 2 1) 2 2 true false false false false
           Ex.two_heads).
  - reflexivity.
  - lia.
  - lia.
  - reflexivity.
  - intros a [= <-]. apply diagonal_projects.
  - intros a [= <-]. apply diagonal_projects.
  - intros a [= <-]. apply diagonal_projects.
  - intros a [= <-]. apply diagonal_projects.
  - intros a [= <-] t _. by exists t.
  - intros enc [= <-] t offset downscale. by exists t.
  - intros d [= <-] t. reflexivity.
Defined.

(** X11 on the one-token call that returns. *)
Lemma returning_call_witness :
  flash_attention (Ex.engine_of 2 2 1 None) = false ∧
  (None : option (tensor bool)) = None ∧
  (None : option (tensor Ex.xz)) = None ∧
  ∃ bsz tgt src e' val,
    shape (Ex.token 3 5) = [bsz; tgt; embed_dim (Ex.engine_of 2 2 1 None)] ∧
    shape (Ex.token 3 5) = [bsz; src; e'] ∧
    Some (Ex.token 3 5) = Some val ∧
    src * e' = tgt * (num_heads (Ex.engine_of 2 2 1 None)
                      * head_dim (Ex.engine_of 2 2 1 None)) ∧
    numel (shape val)
    = bsz * (tgt * (num_heads (Ex.engine_of 2 2 1 None)
                    * head_dim (Ex.engine_of 2 2 1 None))).
Proof.
  assert (forward (Ex.engine_of 2 2 1 None) (Ex.token 3 5) (Ex.token 3 5)
            (Some (Ex.token 3 5)) None None None None false
          = (Ok (Ex.vec [1; 1; 2] [0; 5]%Z, Ex.vec [2; 1; 1; 1] [1; 1]%Z), None))
    as Hf by (vm_compute; reflexivity).
  apply (returning_call (Ex.engine_of 2 2 1 None) (Ex.token 3 5) (Ex.token 3 5)
           (Some (Ex.token 3 5)) None None None None false
           (Ex.vec [1; 1; 2] [0; 5]%Z, Ex.vec [2; 1; 1; 1] [1; 1]%Z) None).
  - intros enc Henc. discriminate Henc.
  - intros t. reflexivity.
  - apply diagonal_keeps_shape.
  - apply diagonal_keeps_shape.
  - exact Hf.
Defined.

(** X13 on one sequence of two tokens and two heads of width one. *)
Lemma heads_round_trip_witness :
  ∃ q' k' v',
    split_heads (Ex.engine_of 2 2 1 None) 1 2 2
      (Ex.vec [1; 2; 2] [3; 5; 4; 6]%Z) (Ex.vec [1; 2; 2] [1; 7; 2; 9]%Z)
      (Ex.vec [1; 2; 2] [8; 2; 6; 4]%Z) None
    = Ok (q', k', v') ∧
    from_heads q' 1 2 (2 * (2 / 2)) = Ok (Ex.vec [1; 2; 2] [3; 5; 4; 6]%Z) ∧
    from_heads k' 1 2 (2 * (2 / 2)) = Ok (Ex.vec [1; 2; 2] [1; 7; 2; 9]%Z) ∧
    from_heads v' 1 2 (2 * (2 / 2)) = Ok (Ex.vec [1; 2; 2] [8; 2; 6; 4]%Z) ∧
    ∀ aw src,
      reassemble (Ex.engine_of 2 2 1 None) 1 2 (2 * (2 / 2)) src v' aw
      = (attn ← Ok (Ex.vec [1; 2; 2] [8; 2; 6; 4]%Z);
         attn ← Ex.diagonal 2 1 attn;
         attn_weights ← view aw [1; 2; 2; src];
         attn_weights ← transpose 1 0 attn_weights;
         Ok (attn, attn_weights)).
Proof.
  apply (heads_round_trip (Ex.engine_of 2 2 1 None) 1 2
           (Ex.vec [1; 2; 2] [3; 5; 4; 6]%Z) (Ex.vec [1; 2; 2] [1; 7; 2; 9]%Z)
           (Ex.vec [1; 2; 2] [8; 2; 6; 4]%Z) None);
    reflexivity.
Defined.

(** The integers extended by minus infinity are exact at one. *)
Lemma exact_at_one_xz : exact_at_one (F := Ex.xz).
Proof.
  split_and!; [done|done|..].
  - intros [|z]; [done|]. simpl. f_equal. lia.
  - intros [|z]; [done|]. simpl. f_equal. lia.
Qed.

(** X14 with projections that triple their input: query and key do not
    reach the result. *)
Lemma single_position_attention_witness :
  ∃ a,
    forward (Ex.engine_of 2 2 3 None) (Ex.token 1 2) (Ex.token 4 6)
      (Some (Ex.token 3 5)) None None None None false
    = (Ok (a, Tensor [2; 1; 1; 1] (replicate (2 * 1) fone)), None) ∧
    match inner_attn_ln (Ex.engine_of 2 2 3 None) with
    | Some ln => ln (Ex.vec [1; 1; 2] [0; 15]%Z)
    | None => Ok (Ex.vec [1; 1; 2] [0; 15]%Z)
    end ≫= out_proj (Ex.engine_of 2 2 3 None) = Ok a.
Proof.
  apply (single_position_attention (Ex.engine_of 2 2 3 None) (Ex.token 1 2)
           (Ex.token 4 6) (Ex.token 3 5) false 1
           (Ex.vec [1; 1; 2] [9; 15]%Z) (Ex.vec [1; 1; 2] [0; 15]%Z)).
  - apply engine_of_sound; simpl; lia.
  - reflexivity.
  - intros t. reflexivity.
  - apply exact_at_one_xz.
  - reflexivity.
  - reflexivity.
  - reflexivity.
  - lia.
  - intros scores _. apply Forall_forall. intros x _. reflexivity.
  - vm_compute. reflexivity.
  - vm_compute. reflexivity.
  - reflexivity.
Defined.
